(** * Terrarium: running Python code in Pyodide

    A shallow embedding of [src/index.ts],
    [src/services/python-interpreter/service.ts] and
    [src/utils/async-utils.ts], with the properties of the execution
    lifecycle, the file bridge, the error enrichment and the lock.

    Conventions.
    - A JavaScript string is a [string]: a sequence of 8-bit characters.
      Code units above 255 are outside the model; [btoa] would throw on
      them and [atob] rejects them like any other character that is not in
      the base64 alphabet.
    - A [Uint8Array] is a [list byte].
    - [undefined] (and [null], which [== undefined] treats alike) is [None].
    - A thrown JavaScript value is a [JsError]; code that may throw returns
      a sum whose left side is the thrown value.
    - The Python interpreter, [JSON.stringify] and the clock are outside
      the repository: they are the fields of the record [Host], over which
      every general theorem quantifies.
    - [btoa], [atob], Emscripten's [PATH] and the calls of its [FS] that
      the service makes are written out after their definitions; the file
      system is a tree of files and directories, symbolic links and
      devices being outside the model.
    - A call that spreads an array into its arguments throws a RangeError
      when the array is longer than the engine takes; that length is the
      field [max_arguments] of [Host].
    - A Python [int] comes to JavaScript as a number when it is a safe
      integer and as a [BigInt] otherwise, on which [JSON.stringify]
      throws.
    - The entries of a directory are in the order in which [FS.readdir]
      lists them. MEMFS keeps them as the properties of an object. A
      directory with an entry named [hasOwnProperty] cannot be listed:
      this is modelled. An entry named [__proto__] is never listed, and
      names that are array indices are listed before the others: this is
      not modelled, [FS.put] appends every new name. The theorem on the
      success of a run asks for a tree without an entry of the first two
      names, and no theorem depends on the order of a listing after a
      write. *)

From Stdlib Require Import NArith ZArith Lia List Ascii String Strings.Byte
  DecimalString.
From Stdlib Require Import Sorting.Sorted.
From stdpp Require Import gmap strings list.
Import ListNotations.

Open Scope string_scope.
Open Scope list_scope.

Ltac Zify.zify_post_hook ::= Z.to_euclidean_division_equations.

(* ================================================================== *)
(** * Part I: definitions *)
(* ================================================================== *)

(** ** The platform's base64 primitives ([btoa], [atob]) *)

Module Base64.

(** The 64 characters of the alphabet, by index. *)
Definition b64_char (i : N) : ascii :=
  (if i <? 26 then ascii_of_N (i + 65)
   else if i <? 52 then ascii_of_N (i + 71)
   else if i <? 62 then ascii_of_N (i - 4)
   else if i =? 62 then "+"%char
   else "/"%char)%N.

(** The index of a character of the alphabet; [None] outside it. *)
Definition b64_index (c : ascii) : option N :=
  let n := N_of_ascii c in
  (if (65 <=? n) && (n <=? 90) then Some (n - 65)
   else if (97 <=? n) && (n <=? 122) then Some (n - 71)
   else if (48 <=? n) && (n <=? 57) then Some (n + 4)
   else if n =? 43 then Some 62
   else if n =? 47 then Some 63
   else None)%N.

(** The sextets of a byte string, three bytes to four sextets; a last
    group of one or two bytes gives two or three sextets, its missing
    bits zero. *)
Fixpoint sextets (l : list ascii) : list N :=
  match l with
  | [] => []
  | [a] =>
      let n := N_of_ascii a in
      [n / 4; (n mod 4) * 16]%N
  | [a; b] =>
      let n := (N_of_ascii a * 256 + N_of_ascii b)%N in
      [n / 1024; (n / 16) mod 64; (n mod 16) * 4]%N
  | a :: b :: c :: rest =>
      let n := (N_of_ascii a * 65536 + N_of_ascii b * 256 + N_of_ascii c)%N in
      (n / 262144 :: (n / 4096) mod 64 :: (n / 64) mod 64 :: n mod 64
         :: sextets rest)%N
  end.

(** How many ["="] close the encoding of [len] bytes. *)
Definition padding (len : nat) : nat :=
  match len mod 3 with
  | 1 => 2
  | 2 => 1
  | _ => 0
  end.

Definition btoa_list (l : list ascii) : list ascii :=
  List.map b64_char (sextets l) ++ repeat "="%char (padding (length l)).

(** [btoa(binString)]. Every character of a [string] is at most U+00FF,
    so the InvalidCharacterError of [btoa] cannot arise here. *)
Definition btoa (binString : string) : string :=
  string_of_list_ascii (btoa_list (list_ascii_of_string binString)).

(** TAB, LF, FF, CR and SPACE. *)
Definition is_ascii_whitespace (c : ascii) : bool :=
  let n := N_of_ascii c in
  ((n =? 9) || (n =? 10) || (n =? 12) || (n =? 13) || (n =? 32))%N.

(** Remove one or two ["="] from the end. *)
Definition strip_padding (data : list ascii) : list ascii :=
  match rev data with
  | c1 :: r1 =>
      if Ascii.eqb c1 "=" then
        match r1 with
        | c2 :: r2 => if Ascii.eqb c2 "=" then rev r2 else rev r1
        | [] => rev r1
        end
      else data
  | [] => data
  end.

Fixpoint indices (data : list ascii) : option (list N) :=
  match data with
  | [] => Some []
  | c :: rest =>
      match b64_index c, indices rest with
      | Some i, Some rest' => Some (i :: rest')
      | _, _ => None
      end
  end.

(** Four sextets to three bytes; a rest of three sextets gives two bytes
    and a rest of two sextets one byte, the surplus bits discarded. *)
Fixpoint octets (l : list N) : list ascii :=
  match l with
  | s1 :: s2 :: s3 :: s4 :: rest =>
      let n := (((s1 * 64 + s2) * 64 + s3) * 64 + s4)%N in
      ascii_of_N (n / 65536) :: ascii_of_N ((n / 256) mod 256)
        :: ascii_of_N (n mod 256) :: octets rest
  | [s1; s2; s3] =>
      let n := (((s1 * 64 + s2) * 64 + s3) / 4)%N in
      [ascii_of_N (n / 256); ascii_of_N (n mod 256)]
  | [s1; s2] =>
      let n := ((s1 * 64 + s2) / 16)%N in
      [ascii_of_N n]
  | _ => []
  end.

(** The forgiving base64 decoding of [atob]: drop ASCII whitespace; when
    the length is a multiple of four drop up to two closing ["="]; fail
    on a length of 1 modulo 4 and on any character outside the alphabet;
    decode. [None] is the InvalidCharacterError. *)
Definition atob_list (data : list ascii) : option (list ascii) :=
  let data := List.filter (fun c => negb (is_ascii_whitespace c)) data in
  let data :=
    if (length data mod 4 =? 0)%nat then strip_padding data else data in
  if (length data mod 4 =? 1)%nat then None
  else option_map octets (indices data).

Definition atob (base64 : string) : option string :=
  option_map string_of_list_ascii (atob_list (list_ascii_of_string base64)).

End Base64.

(** ** [bytesToBase64] and [base64ToBytes] of the service *)

(** [String.fromCodePoint(...bytes)]: one character per byte. The bytes
    are spread into the arguments of the call: when there are more than
    [max_arguments], the most the engine takes, the call throws a
    RangeError, which is [None]. *)
Definition fromCodePoint (max_arguments : N) (bytes : list byte) : option string :=
  if (N.of_nat (length bytes) <=? max_arguments)%N
  then Some (string_of_list_ascii (List.map ascii_of_byte bytes))
  else None.

(** [bytesToBase64(bytes)]; [None] when [String.fromCodePoint] throws. *)
Definition bytesToBase64 (max_arguments : N) (bytes : list byte) : option string :=
  match fromCodePoint max_arguments bytes with
  | Some binString => Some (Base64.btoa binString)
  | None => None
  end.

(** [base64ToBytes(base64)]: [Uint8Array.from(binString, m => m.codePointAt(0))];
    [None] when [atob] throws. *)
Definition base64ToBytes (base64 : string) : option (list byte) :=
  match Base64.atob base64 with
  | None => None
  | Some binString =>
      Some (List.map byte_of_ascii (list_ascii_of_string binString))
  end.

(** ** JavaScript strings and arrays *)

Module Js.

(** The one-character strings ["\n"] and the double quote. *)
Definition nl : string := String (ascii_of_nat 10) EmptyString.
Definition dquote : string := String (ascii_of_nat 34) EmptyString.

(** [s.split(sep)] for a one-character separator: never empty. *)
Fixpoint split (sep : ascii) (s : string) : list string :=
  match s with
  | EmptyString => [EmptyString]
  | String c s' =>
      if Ascii.eqb c sep then EmptyString :: split sep s'
      else match split sep s' with
           | h :: t => String c h :: t
           | [] => [String c EmptyString]
           end
  end.

(** [parts.join(sep)]. *)
Definition join (sep : string) (parts : list string) : string :=
  String.concat sep parts.

(** [s.slice(n)] for [n >= 0]. *)
Fixpoint slice_from (n : nat) (s : string) : string :=
  match n, s with
  | O, _ => s
  | S n', String _ s' => slice_from n' s'
  | S _, EmptyString => EmptyString
  end.

(** The relative index to absolute index conversion of [Array.prototype.slice]. *)
Definition rel_index (len i : Z) : Z :=
  if (i <? 0)%Z then Z.max (len + i) 0 else Z.min i len.

(** [arr.slice(start, end)]. *)
Definition Array_slice {A} (start end_ : Z) (arr : list A) : list A :=
  let len := Z.of_nat (length arr) in
  let k := rel_index len start in
  let final := rel_index len end_ in
  firstn (Z.to_nat (final - k)) (skipn (Z.to_nat k) arr).

(** Number to string, for integers. *)
Definition toString (n : Z) : string := NilZero.string_of_int (Z.to_int n).

Definition is_digit (c : ascii) : bool :=
  let n := N_of_ascii c in ((48 <=? n) && (n <=? 57))%N.

(** [parseInt] on a string of decimal digits. *)
Definition parseInt (digits : string) : Z :=
  fold_left (fun acc c => (acc * 10 + Z.of_N (N_of_ascii c - 48))%Z)
            (list_ascii_of_string digits) 0%Z.

(** The longest prefix of digits. *)
Fixpoint digits_prefix (s : string) : string :=
  match s with
  | String c s' => if is_digit c then String c (digits_prefix s') else EmptyString
  | EmptyString => EmptyString
  end.

(** The rest of [s] after the prefix [p], when [s] starts with [p]. *)
Fixpoint after_prefix (p s : string) : option string :=
  match p, s with
  | EmptyString, _ => Some s
  | String a p', String b s' => if Ascii.eqb a b then after_prefix p' s' else None
  | String _ _, EmptyString => None
  end.

(** White space of [String.prototype.trim] among the 8-bit characters:
    TAB, LF, VT, FF, CR, SPACE and NBSP. *)
Definition is_white_space (c : ascii) : bool :=
  let n := N_of_ascii c in
  (((9 <=? n) && (n <=? 13)) || (n =? 32) || (n =? 160))%N.

Fixpoint trim_start (s : string) : string :=
  match s with
  | String c s' => if is_white_space c then trim_start s' else s
  | EmptyString => EmptyString
  end.

Definition rev_string (s : string) : string :=
  string_of_list_ascii (rev (list_ascii_of_string s)).

(** [s.trim()]. *)
Definition trim (s : string) : string :=
  rev_string (trim_start (rev_string (trim_start s))).

(** [arr.includes(x)] on an array of strings and [undefined]s. *)
Definition includes (arr : list (option string)) (x : string) : bool :=
  existsb (fun y => match y with
                    | Some y => String.eqb y x
                    | None => false
                    end) arr.

End Js.

(** ** Error enrichment (the [catch] block of [runCode]) *)

(** The literal part of [/File "<exec>", line (\d+)/]. *)
Definition line_marker : string :=
  "File " +:+ Js.dquote +:+ "<exec>" +:+ Js.dquote +:+ ", line ".

(** [errorMsg.match(/File "<exec>", line (\d+)/)]: the digits captured by
    the leftmost match, [None] when nothing matches. *)
Fixpoint lineMatch (errorMsg : string) : option string :=
  let here :=
    match Js.after_prefix line_marker errorMsg with
    | Some rest =>
        match Js.digits_prefix rest with
        | EmptyString => None
        | ds => Some ds
        end
    | None => None
    end in
  match here with
  | Some ds => Some ds
  | None =>
      match errorMsg with
      | String _ rest => lineMatch rest
      | EmptyString => None
      end
  end.

(** The message of the failure response: [errorMsg] with the code context
    appended when a line number is found. *)
Definition enrich (code errorMsg : string) : string :=
  match lineMatch errorMsg with
  | Some digits =>
      let lineNum := Js.parseInt digits in
      let codeLines := Js.split (ascii_of_nat 10) code in
      let startLine := Z.max 1 (lineNum - 4) in
      let endLine := Z.min (Z.of_nat (length codeLines)) (lineNum + 4) in
      let codeContext :=
        Js.join Js.nl
          (imap (fun idx line =>
                   Js.toString (startLine + Z.of_nat idx) +:+ ": " +:+ line)
                (Js.Array_slice (startLine - 1) endLine codeLines)) in
      errorMsg +:+ Js.nl +:+ Js.nl +:+ "Code context:" +:+ Js.nl +:+ codeContext
  | None => errorMsg
  end.

(** ** Thrown values *)

(** What the service reads of a caught value: [error.type] and
    [error.toString()]. *)
Record JsError := { err_type : option string; err_text : string }.

(** ** Emscripten's [PATH] *)

Module PATH.

Definition isAbs (path : string) : bool :=
  match path with
  | String c _ => Ascii.eqb c "/"
  | EmptyString => false
  end.

(** One step of the right-to-left scan of [normalizeArray]: ["."] is
    dropped, [".."] is dropped and counted in [up], and a name is dropped
    while [up] is positive. *)
Definition scan (part : string) (acc : list string * nat) : list string * nat :=
  let '(parts, up) := acc in
  if String.eqb part "." then (parts, up)
  else if String.eqb part ".." then (parts, S up)
  else match up with
       | S up' => (parts, up')
       | O => (part :: parts, O)
       end.

Definition normalizeArray (parts : list string) (allowAboveRoot : bool)
  : list string :=
  let '(parts, up) := fold_right scan ([], O) parts in
  if allowAboveRoot then repeat ".." up ++ parts else parts.

(** [path.substr(-1) === '/']. *)
Fixpoint ends_with_slash (path : string) : bool :=
  match path with
  | EmptyString => false
  | String c EmptyString => Ascii.eqb c "/"
  | String _ rest => ends_with_slash rest
  end.

Definition nonempty (s : string) : bool :=
  match s with EmptyString => false | _ => true end.

Definition normalize (path : string) : string :=
  let isAbsolute := isAbs path in
  let trailingSlash := ends_with_slash path in
  let path :=
    Js.join "/" (normalizeArray (List.filter nonempty (Js.split "/" path))
                                (negb isAbsolute)) in
  let path := if negb (nonempty path) && negb isAbsolute then "." else path in
  let path := if nonempty path && trailingSlash then path +:+ "/" else path in
  (if isAbsolute then "/" else "") +:+ path.

Definition join2 (l r : string) : string := normalize (l +:+ "/" +:+ r).

End PATH.

(** ** The in-memory file system of the interpreter *)

(** A file with its bytes, or a directory with its entries in the order
    [readdir] lists them. Symbolic links and devices are not modelled. *)
#[local] Unset Elimination Schemes.
Inductive node :=
| File (contents : list byte)
| Dir (entries : list (string * node)).
#[local] Set Elimination Schemes.

Module FS.

Definition ErrnoError : JsError :=
  {| err_type := None; err_text := "ErrnoError: FS error" |}.

Fixpoint find (name : string) (entries : list (string * node)) : option node :=
  match entries with
  | [] => None
  | (n, x) :: rest => if String.eqb n name then Some x else find name rest
  end.

(** Replace the entry [name], or append it when it is new. *)
Fixpoint put (name : string) (x : node) (entries : list (string * node))
  : list (string * node) :=
  match entries with
  | [] => [(name, x)]
  | (n, y) :: rest =>
      if String.eqb n name then (n, x) :: rest else (n, y) :: put name x rest
  end.

(** The components of a path. Every path the service passes comes from
    [PATH.join2] and has no ["."] or [".."] left. *)
Definition components (path : string) : list string :=
  List.filter PATH.nonempty (Js.split "/" path).

Fixpoint lookup (root : node) (parts : list string) : option node :=
  match parts with
  | [] => Some root
  | name :: rest =>
      match root with
      | Dir entries =>
          match find name entries with
          | Some x => lookup x rest
          | None => None
          end
      | File _ => None
      end
  end.

Fixpoint write (parts : list string) (data : list byte) (root : node)
  : option node :=
  match parts, root with
  | [], _ => None
  | [name], Dir entries =>
      match find name entries with
      | Some (Dir _) => None
      | _ => Some (Dir (put name (File data) entries))
      end
  | name :: rest, Dir entries =>
      match find name entries with
      | Some x =>
          match write rest data x with
          | Some x' => Some (Dir (put name x' entries))
          | None => None
          end
      | None => None
      end
  | _ :: _, File _ => None
  end.

(** [FS.writeFile(path, data)]: creates or overwrites the file; throws
    when the parent is missing or the path names a directory. *)
Definition writeFile (root : node) (path : string) (data : list byte)
  : JsError + node :=
  match write (components path) data root with
  | Some root' => inr root'
  | None => inl ErrnoError
  end.

(** [FS.readFile(path, { encoding: 'binary' })]. *)
Definition readFile (root : node) (path : string) : JsError + list byte :=
  match lookup root (components path) with
  | Some (File contents) => inr contents
  | _ => inl ErrnoError
  end.

(** MEMFS keeps the entries of a directory as the properties of a plain
    object and lists them with [contents.hasOwnProperty(key)]: an entry of
    that name hides the method, and listing the directory throws. *)
Definition shadowed (entries : list (string * node)) : bool :=
  existsb (fun e => String.eqb (fst e) "hasOwnProperty") entries.

Definition NotAFunction : JsError :=
  {| err_type := None;
     err_text := "TypeError: node.contents.hasOwnProperty is not a function" |}.

(** [FS.readdir(path)]: the two directory markers, then the names. *)
Definition readdir (root : node) (path : string) : JsError + list string :=
  match lookup root (components path) with
  | Some (Dir entries) =>
      if shadowed entries then inl NotAFunction
      else inr ("." :: ".." :: List.map fst entries)
  | _ => inl ErrnoError
  end.

(** [FS.isDir(FS.stat(path).mode)]. *)
Definition isDir (root : node) (path : string) : JsError + bool :=
  match lookup root (components path) with
  | Some (Dir _) => inr true
  | Some (File _) => inr false
  | None => inl ErrnoError
  end.

End FS.

(** ** The service: constants and listing *)

Definition pythonEnvironmentHomeDir : string := "/home/earth".

(** [listFilesRecursive(dir)], by recursion on the directory at [dir]:
    [entries] is what [FS.readdir(dir)] lists after ["."] and [".."], and
    the node of an entry is what [FS.stat(join2(dir, entry))] finds. The
    test for the two markers is kept. *)
Fixpoint listFilesRecursive (default_file_names : gset string) (dir : string)
  (d : node) {struct d} : list string :=
  match d with
  | File _ => []
  | Dir entries =>
      (fix loop (entries : list (string * node)) : list string :=
         match entries with
         | [] => []
         | (entry, x) :: rest =>
             if String.eqb entry "." || String.eqb entry ".." then loop rest
             else if bool_decide (entry ∈ default_file_names) then loop rest
             else
               let fullPath := PATH.join2 dir entry in
               match x with
               | Dir _ =>
                   listFilesRecursive default_file_names fullPath x ++ loop rest
               | File _ => fullPath :: loop rest
               end
         end) entries
  end.

(** Whether one of the calls of [FS.readdir] that [listFilesRecursive(dir)]
    makes throws: the directory, or a directory the recursion enters, has
    an entry named [hasOwnProperty]. *)
Fixpoint readdir_throws (default_file_names : gset string) (d : node)
  {struct d} : bool :=
  match d with
  | File _ => false
  | Dir entries =>
      FS.shadowed entries
      || (fix loop (entries : list (string * node)) : bool :=
            match entries with
            | [] => false
            | (entry, x) :: rest =>
                if String.eqb entry "." || String.eqb entry ".." then loop rest
                else if bool_decide (entry ∈ default_file_names) then loop rest
                else
                  match x with
                  | Dir _ => readdir_throws default_file_names x || loop rest
                  | File _ => loop rest
                  end
            end) entries
  end.

(** ** Requests, responses and the interpreter *)

(** An entry of [files]: [{ filename, b64_data }], either possibly missing. *)
Record FileEntry := { filename : option string; b64_data : option string }.

(** An entry of [output_files]. *)
Record OutputFile := { out_filename : string; out_b64_data : string }.

(** [error: { type, message }]. *)
Record ErrorInfo := { error_type : option string; error_message : string }.

(** The value of the last expression, as the interpreter hands it over. *)
Inductive PyValue :=
| PyNumber (z : Z)
| PyString (s : string)
| PyProxy.

Record CodeExecutionResponse := {
  success : bool;
  final_expression : option PyValue;
  output_files : option (list OutputFile);
  error : option ErrorInfo;
  std_out : option string;
  std_err : option string;
  code_runtime : option Z
}.

(** [{ success: true }]. *)
Definition initial_result : CodeExecutionResponse :=
  {| success := true; final_expression := None; output_files := None;
     error := None; std_out := None; std_err := None; code_runtime := None |}.

Definition with_success (b : bool) (r : CodeExecutionResponse) :=
  {| success := b; final_expression := final_expression r;
     output_files := output_files r; error := error r; std_out := std_out r;
     std_err := std_err r; code_runtime := code_runtime r |}.

Definition with_final_expression (v : option PyValue) (r : CodeExecutionResponse) :=
  {| success := success r; final_expression := v;
     output_files := output_files r; error := error r; std_out := std_out r;
     std_err := std_err r; code_runtime := code_runtime r |}.

Definition with_output_files (fs : list OutputFile) (r : CodeExecutionResponse) :=
  {| success := success r; final_expression := final_expression r;
     output_files := Some fs; error := error r; std_out := std_out r;
     std_err := std_err r; code_runtime := code_runtime r |}.

Definition with_error (e : ErrorInfo) (r : CodeExecutionResponse) :=
  {| success := success r; final_expression := final_expression r;
     output_files := output_files r; error := Some e; std_out := std_out r;
     std_err := std_err r; code_runtime := code_runtime r |}.

Definition with_std (out err : string) (millis : Z) (r : CodeExecutionResponse) :=
  {| success := success r; final_expression := final_expression r;
     output_files := output_files r; error := error r; std_out := Some out;
     std_err := Some err; code_runtime := Some millis |}.

(** One run of [runPythonAsync]: it returns a value ([None] is
    [undefined]) or throws, leaves a file system behind, and has sent
    messages to the [stdout] and [stderr] callbacks. *)
Record PyRun := {
  py_outcome : JsError + option PyValue;
  py_fs : node;
  py_stdout : list string;
  py_stderr : list string
}.

(** What lies outside the repository: the interpreter, [JSON.stringify] on
    a file entry and the clock; the most arguments a call of the engine
    takes; and what [JSON.stringify] throws, if it throws, on a result
    whose final value is a proxy of a Python object. *)
Record Host := {
  loadPyodide : JsError + node;
  loadPackage : option JsError;
  loadPackagesFromImports : string -> option JsError;
  runPythonAsync : string -> node -> PyRun;
  JSON_stringify : FileEntry -> string;
  Date_now : nat -> Z;
  max_arguments : N;
  JSON_stringify_proxy : option JsError
}.

(** The calls made on the interpreter, in order. *)
Inductive Event :=
| LoadPackagesFromImports (code : string)
| WriteFile (path : string) (data : list byte)
| RunPythonAsync (code : string).

(** The state [runCode] works on: the file system of [this.pyodide], the
    two accumulators, the local [result] object, the calls made so far and
    the number of clock readings. *)
Record State := {
  fs : node;
  out_string : string;
  err_string : string;
  result : CodeExecutionResponse;
  trace : list Event;
  ticks : nat
}.

Definition with_fs (x : node) (s : State) :=
  {| fs := x; out_string := out_string s; err_string := err_string s;
     result := result s; trace := trace s; ticks := ticks s |}.

Definition with_result (r : CodeExecutionResponse) (s : State) :=
  {| fs := fs s; out_string := out_string s; err_string := err_string s;
     result := r; trace := trace s; ticks := ticks s |}.

Definition with_event (e : Event) (s : State) :=
  {| fs := fs s; out_string := out_string s; err_string := err_string s;
     result := result s; trace := trace s ++ [e]; ticks := ticks s |}.

Definition with_output (out err : list string) (s : State) :=
  {| fs := fs s;
     out_string := out_string s +:+ String.concat "" (List.map (fun m => m +:+ Js.nl) out);
     err_string := err_string s +:+ String.concat "" (List.map (fun m => m +:+ Js.nl) err);
     result := result s; trace := trace s; ticks := ticks s |}.

Definition with_tick (s : State) :=
  {| fs := fs s; out_string := out_string s; err_string := err_string s;
     result := result s; trace := trace s; ticks := S (ticks s) |}.

(** Computations that read and write the state and may throw. *)
Definition M (A : Type) : Type := State -> (JsError + A) * State.

#[export] Instance M_ret : MRet M := fun A a s => (inr a, s).

#[export] Instance M_bind : MBind M := fun A B k m s =>
  match m s with
  | (inr a, s') => k a s'
  | (inl e, s') => (inl e, s')
  end.

Definition throw {A} (e : JsError) : M A := fun s => (inl e, s).

(** [try { body } catch (error) { handler }]. *)
Definition try_catch {A} (body : M A) (handler : JsError -> M A) : M A :=
  fun s =>
    match body s with
    | (inl e, s') => handler e s'
    | r => r
    end.

Definition get : M State := fun s => (inr s, s).

Definition modify (f : State -> State) : M unit := fun s => (inr tt, f s).

Definition update_result (f : CodeExecutionResponse -> CodeExecutionResponse)
  : M unit :=
  modify (fun s => with_result (f (result s)) s).

(** [arr.forEach(f)]. *)
Fixpoint forEach {A} (arr : list A) (f : A -> M unit) : M unit :=
  match arr with
  | [] => mret tt
  | x :: rest => f x ;; forEach rest f
  end.

(** [arr.map(f)] for an [f] that may throw. *)
Fixpoint mapArr {A B} (arr : list A) (f : A -> M B) : M (list B) :=
  match arr with
  | [] => mret []
  | x :: rest => y ← f x; ys ← mapArr rest f; mret (y :: ys)
  end.

(** ** [runCode] *)

Definition InvalidCharacterError : JsError :=
  {| err_type := None;
     err_text := "InvalidCharacterError: The string to be decoded is not correctly encoded." |}.

(** What a call with too many arguments throws. *)
Definition RangeError : JsError :=
  {| err_type := None; err_text := "RangeError: Maximum call stack size exceeded" |}.

Section RunCode.

Variable h : Host.

(** [Date.now()]. *)
Definition now : M Z :=
  fun s => (inr (Date_now h (ticks s)), with_tick s).

(** [await pyodide.loadPackagesFromImports(code)]. *)
Definition py_loadPackagesFromImports (code : string) : M unit :=
  fun s =>
    let s := with_event (LoadPackagesFromImports code) s in
    match loadPackagesFromImports h code with
    | Some e => (inl e, s)
    | None => (inr tt, s)
    end.

(** [pyodide.FS.writeFile(path, data)]. *)
Definition FS_writeFile (path : string) (data : list byte) : M unit :=
  fun s =>
    let s := with_event (WriteFile path data) s in
    match FS.writeFile (fs s) path data with
    | inl e => (inl e, s)
    | inr root => (inr tt, with_fs root s)
    end.

(** [await pyodide.runPythonAsync(code)]. *)
Definition py_runPythonAsync (code : string) : M (option PyValue) :=
  fun s =>
    let run := runPythonAsync h code (fs s) in
    (py_outcome run,
     with_output (py_stdout run) (py_stderr run)
       (with_fs (py_fs run) (with_event (RunPythonAsync code) s))).

(** [this.listFilesRecursive(pythonEnvironmentHomeDir)]; [FS.readdir]
    throws when the directory is not there, and when a directory that is
    listed has an entry named [hasOwnProperty]. *)
Definition listHome (default_file_names : gset string) : M (list string) :=
  fun s =>
    match FS.lookup (fs s) (FS.components pythonEnvironmentHomeDir) with
    | Some (Dir entries) =>
        if readdir_throws default_file_names (Dir entries)
        then (inl FS.NotAFunction, s)
        else (inr (listFilesRecursive default_file_names pythonEnvironmentHomeDir
                     (Dir entries)), s)
    | _ => (inl FS.ErrnoError, s)
    end.

(** [this.readFileAsBase64(filePath)]. *)
Definition readFileAsBase64 (filePath : string) : M string :=
  fun s =>
    match FS.readFile (fs s) filePath with
    | inr fileData =>
        match bytesToBase64 (max_arguments h) fileData with
        | Some b64 => (inr b64, s)
        | None => (inl RangeError, s)
        end
    | inl e => (inl e, s)
    end.

(** The callback of [files.forEach]. Its [return result] ends the
    callback for this entry; the loop goes on with the next entry. *)
Definition writeInputFile (f : FileEntry) : M unit :=
  match filename f, b64_data f with
  | Some name, Some b64 =>
      let path := PATH.join2 pythonEnvironmentHomeDir name in
      match base64ToBytes b64 with
      | Some data => FS_writeFile path data
      | None => throw InvalidCharacterError
      end
  | _, _ =>
      update_result (with_success false) ;;
      update_result
        (with_error
           {| error_type := Some "parsing";
              error_message := "file data is missing for: " +:+ JSON_stringify h f |})
  end.

(** [f.slice(pythonEnvironmentHomeDir.length + 1)]. *)
Definition relative (f : string) : string :=
  Js.slice_from (String.length pythonEnvironmentHomeDir + 1) f.

(** The body of [try]. *)
Definition runCode_try (default_file_names : gset string) (code : string)
  (files : list FileEntry) : M unit :=
  py_loadPackagesFromImports code ;;
  forEach files writeInputFile ;;
  interpreterResult ← py_runPythonAsync code;
  allFiles ← listHome default_file_names;
  let input_file_names := List.map filename files in
  new_files ←
    mapArr (List.filter (fun f => negb (Js.includes input_file_names (relative f)))
                        allFiles)
           (fun f =>
              b64 ← readFileAsBase64 f;
              mret {| out_filename := relative f; out_b64_data := b64 |});
  update_result (with_output_files new_files) ;;
  update_result (with_final_expression interpreterResult) ;;
  update_result (with_success true).

(** The body of [catch (error)]. *)
Definition runCode_catch (code : string) (error : JsError) : M unit :=
  let errorMsg := enrich code (err_text error) in
  update_result
    (with_error {| error_type := err_type error; error_message := errorMsg |}) ;;
  update_result (with_success false).

(** [runCode(code, files)], entered with [this.pyodide] loaded. *)
Definition runCode (default_file_names : gset string) (code : string)
  (files : list FileEntry) : M CodeExecutionResponse :=
  startCode ← now;
  update_result (fun _ => initial_result) ;;
  try_catch (runCode_try default_file_names code files) (runCode_catch code) ;;
  endCode ← now;
  s ← get;
  update_result (with_std (out_string s) (err_string s) (endCode - startCode)) ;;
  s ← get;
  mret (result s).

End RunCode.

(** ** The environment object and its life cycle *)

(** Node's [path.basename] and [path.join] on POSIX paths. *)
Module NodePath.

(** The last component, without closing slashes; [""] when there is none. *)
Definition basename (path : string) : string :=
  List.last (List.filter PATH.nonempty (Js.split "/" path)) "".

(** Two segments joined by ["/"] (an empty one is left out) and
    normalised; Emscripten's [PATH.normalize] is the normalisation of
    Node's POSIX [path]. *)
Definition join (a b : string) : string :=
  PATH.normalize (if PATH.nonempty b then a +:+ "/" +:+ b else a).

End NodePath.

Definition defaultDirectoryOuterPath : string := "default_python_home".

Record PyodidePythonEnvironment := {
  env_out_string : string;
  env_err_string : string;
  default_files : list (string * list byte);
  default_file_names : gset string;
  pyodide : option node;
  interrupt : N
}.

(** [new PyodidePythonEnvironment()]. *)
Definition new_environment : PyodidePythonEnvironment :=
  {| env_out_string := ""; env_err_string := ""; default_files := [];
     default_file_names := ∅; pyodide := None; interrupt := 0 |}.

(** [prepareEnvironment()]: [files] is the seed directory as
    [fs.readdir] and [fs.readFile] give it, names and contents. *)
Definition prepareEnvironment (files : list (string * list byte))
  (env : PyodidePythonEnvironment) : PyodidePythonEnvironment :=
  fold_left
    (fun env file =>
       let filePath := NodePath.join defaultDirectoryOuterPath (fst file) in
       let filename := NodePath.basename filePath in
       {| env_out_string := env_out_string env;
          env_err_string := env_err_string env;
          default_files := default_files env ++ [(filename, snd file)];
          default_file_names := default_file_names env ∪ {[filename]};
          pyodide := pyodide env; interrupt := interrupt env |})
    files env.

Definition preload_imports : string :=
  "import matplotlib.pyplot as plt" +:+ Js.nl +:+ "import pandas as pd"
    +:+ Js.nl +:+ "import numpy as np".

Section Environment.

Variable h : Host.

Definition fresh_state (root : node) (out err : string) : State :=
  {| fs := root; out_string := out; err_string := err;
     result := initial_result; trace := []; ticks := 0 |}.

(** What [loadEnvironment] does once [loadPyodide] has given the new
    instance. *)
Definition loadEnvironment_body (files : list (string * list byte)) : M unit :=
  forEach files
    (fun f => FS_writeFile (PATH.join2 pythonEnvironmentHomeDir (fst f)) (snd f)) ;;
  (fun s => match loadPackage h with
            | Some e => (inl e, s)
            | None => (inr tt, s)
            end) ;;
  py_runPythonAsync h preload_imports ;;
  mret tt.

(** [loadEnvironment()]: the rejection, if any, and the object after it. *)
Definition loadEnvironment (env : PyodidePythonEnvironment)
  : option JsError * PyodidePythonEnvironment :=
  match loadPyodide h with
  | inl e =>
      (Some e,
       {| env_out_string := ""; env_err_string := "";
          default_files := default_files env;
          default_file_names := default_file_names env;
          pyodide := pyodide env; interrupt := 0 |})
  | inr root =>
      let '(r, s) := loadEnvironment_body (default_files env) (fresh_state root "" "") in
      (match r with inl e => Some e | inr _ => None end,
       {| env_out_string := out_string s; env_err_string := err_string s;
          default_files := default_files env;
          default_file_names := default_file_names env;
          pyodide := Some (fs s); interrupt := 0 |})
  end.

(** [terminate()]. *)
Definition terminate (env : PyodidePythonEnvironment) : PyodidePythonEnvironment :=
  {| env_out_string := env_out_string env; env_err_string := env_err_string env;
     default_files := default_files env;
     default_file_names := default_file_names env;
     pyodide := pyodide env; interrupt := 1 |}.

(** [cleanup()]. *)
Definition cleanup := loadEnvironment.

(** [init()], on the seed directory [seed] as [prepareEnvironment] reads
    it. *)
Definition init (seed : list (string * list byte))
  : option JsError * PyodidePythonEnvironment :=
  loadEnvironment (prepareEnvironment seed new_environment).

Definition not_loaded : JsError :=
  {| err_type := None; err_text := "pyodide is still not loaded after waiting" |}.

(** The loop of [waitForReady]. [pyodide_at k] is [this.pyodide] as it is
    after [k] waits of 100 ms; [remaining] is [100 - max_tries]. The
    result is [max_tries] when the loop ends. *)
Fixpoint wait_loop (pyodide_at : nat -> option node) (remaining : nat) : nat :=
  match remaining with
  | O => 100
  | S remaining' =>
      let max_tries := 100 - remaining in
      match pyodide_at max_tries with
      | None => wait_loop pyodide_at remaining'
      | Some _ => max_tries
      end
  end.

(** [waitForReady()]: the instance, or the rejection. *)
Definition waitForReady (pyodide_at : nat -> option node) : JsError + node :=
  let max_tries :=
    match pyodide_at 0 with
    | None => wait_loop pyodide_at 100
    | Some _ => 0
    end in
  match pyodide_at max_tries with
  | None => inl not_loaded
  | Some root => inr root
  end.

End Environment.

(** ** The request handler ([index.ts]) *)

(** [req.body]: [code] and [files], either possibly missing. Bodies whose
    [code] is not a string or whose [files] is not an array of objects are
    outside the model. *)
Record Request := { req_code : option string; req_files : option (list FileEntry) }.

(** What a call of [runRequest] leaves: the JSON bodies written to the
    response, whether the response was ended, the rejection of the returned
    promise if any, the calls [runCode] made on the interpreter, and the
    environment object. *)
Record Outcome := {
  written : list CodeExecutionResponse;
  ended : bool;
  rejected : option JsError;
  calls : list Event;
  env_after : PyodidePythonEnvironment
}.

Definition no_code_provided : CodeExecutionResponse :=
  with_error {| error_type := Some "parsing"; error_message := "no code provided" |}
    (with_success false initial_result).

(** What [f.b64_data.slice(0, 10)] throws when [b64_data] is missing. *)
Definition slice_of_undefined : JsError :=
  {| err_type := None;
     err_text := "TypeError: Cannot read properties of undefined (reading 'slice')" |}.

(** [Number.MAX_SAFE_INTEGER], 2^53 - 1. *)
Definition MAX_SAFE_INTEGER : Z := 9007199254740991.

(** A Python [int] that is not a safe integer is handed over as a
    [BigInt]. *)
Definition is_BigInt (v : PyValue) : bool :=
  match v with
  | PyNumber z => negb (Z.abs z <=? MAX_SAFE_INTEGER)%Z
  | _ => false
  end.

(** What [JSON.stringify] throws on a [BigInt]. *)
Definition BigInt_TypeError : JsError :=
  {| err_type := None; err_text := "TypeError: Do not know how to serialize a BigInt" |}.

Section Server.

Variable h : Host.

(** What [JSON.stringify(result)] throws, if it throws: the strings,
    numbers and booleans of a result are serialised; a [BigInt] is not; a
    proxy is as the host has it. *)
Definition stringify_throws (result : CodeExecutionResponse) : option JsError :=
  match final_expression result with
  | Some PyProxy => JSON_stringify_proxy h
  | Some v => if is_BigInt v then Some BigInt_TypeError else None
  | None => None
  end.

Definition with_instance (root : node) (out err : string)
  (env : PyodidePythonEnvironment) : PyodidePythonEnvironment :=
  {| env_out_string := out; env_err_string := err;
     default_files := default_files env;
     default_file_names := default_file_names env;
     pyodide := Some root; interrupt := interrupt env |}.

(** [runRequest(req, res)]. [pyodide_at] is the field [this.pyodide] as
    the waiting loop sees it. *)
Definition runRequest (env : PyodidePythonEnvironment)
  (pyodide_at : nat -> option node) (req : Request) : Outcome :=
  match waitForReady pyodide_at with
  | inl e =>
      {| written := []; ended := false; rejected := Some e; calls := [];
         env_after := env |}
  | inr root =>
      let env := with_instance root (env_out_string env) (env_err_string env) env in
      let no_code :=
        {| written := [no_code_provided]; ended := true; rejected := None;
           calls := []; env_after := env |} in
      match req_code req with
      | None => no_code
      | Some code =>
          if String.eqb (Js.trim code) "" then no_code
          else
            let files := default [] (req_files req) in
            if existsb (fun f => bool_decide (b64_data f = None)) files then
              {| written := []; ended := false;
                 rejected := Some slice_of_undefined; calls := [];
                 env_after := env |}
            else
              let '(r, s) :=
                runCode h (default_file_names env) code files
                  (fresh_state root (env_out_string env) (env_err_string env)) in
              let env := with_instance (fs s) (out_string s) (err_string s) env in
              match r with
              | inl e =>
                  {| written := []; ended := false; rejected := Some e;
                     calls := trace s; env_after := env |}
              | inr result =>
                  match stringify_throws result with
                  | Some e =>
                      {| written := []; ended := false; rejected := Some e;
                         calls := trace s; env_after := env |}
                  | None =>
                      let '(failure, env) := cleanup h (terminate env) in
                      {| written := [result];
                         ended := bool_decide (failure = None);
                         rejected := failure; calls := trace s;
                         env_after := env |}
                  end
              end
      end
  end.

(** The route handler, [await doWithLock('python-request', () =>
    runRequest(req, res))]: [doWithLock] throws again what its task
    throws, and the handler catches nothing. *)
Definition post (env : PyodidePythonEnvironment)
  (pyodide_at : nat -> option node) (req : Request) : Outcome :=
  runRequest env pyodide_at req.

End Server.

(** ** [doWithLock] ([async-utils.ts]) *)

Module Lock.

(** Where a call of [doWithLock] stands: suspended at [await
    predecessorLock]; its task started and not yet settled; or through
    its [finally] block, the task having returned or thrown. *)
Inductive Phase := Waiting | Running | Finished (threw : bool).

(** A call of [doWithLock]. Its promise [newLock] is named by the index
    of the call; [resolved] tells whether [unlock()] has run. *)
Record Call := {
  lockName : string;
  predecessorLock : option nat;
  phase : Phase;
  resolved : bool
}.

(** The map [locksByName], the calls made so far, and the calls whose
    task has been started, in the order of the starts. The array of a name
    is created once and shared by all calls under the name: updating the
    entry of the map is mutating that array. *)
Record LockState := {
  locksByName : gmap string (list nat);
  calls : list Call;
  started : list nat
}.

Definition initial : LockState :=
  {| locksByName := ∅; calls := []; started := [] |}.

#[export] Instance Phase_eq_dec : EqDecision Phase.
Proof. solve_decision. Defined.

(** The synchronous part of a call: from the entry to [await
    predecessorLock], or to the start of the task when the call is the
    first one. *)
Definition doWithLock_enter (name : string) (st : LockState) : LockState :=
  let locks := default [] (locksByName st !! name) in
  let isFirst := bool_decide (length locks = 0) in
  let newLock := length (calls st) in
  let locks := locks ++ [newLock] in
  let predecessorLock := if isFirst then None else locks !! (length locks - 2) in
  {| locksByName := <[name := locks]> (locksByName st);
     calls := calls st ++ [{| lockName := name; predecessorLock := predecessorLock;
                              phase := if isFirst then Running else Waiting;
                              resolved := false |}];
     started := if isFirst then started st ++ [newLock] else started st |}.

Definition is_resolved (st : LockState) (lock : nat) : bool :=
  match calls st !! lock with
  | Some c => resolved c
  | None => false
  end.

(** The continuation of [await predecessorLock]: the task starts. *)
Definition doWithLock_resume (id : nat) (st : LockState) : option LockState :=
  match calls st !! id with
  | Some c =>
      match phase c, predecessorLock c with
      | Waiting, Some p =>
          if is_resolved st p then
            Some {| locksByName := locksByName st;
                    calls := <[id := {| lockName := lockName c;
                                        predecessorLock := predecessorLock c;
                                        phase := Running;
                                        resolved := resolved c |}]> (calls st);
                    started := started st ++ [id] |}
          else None
      | _, _ => None
      end
  | None => None
  end.

(** The task of call [id] settles, by returning or by throwing, and the
    [finally] block runs: [locks.splice(0, 1)], then [unlock()]. *)
Definition doWithLock_finally (id : nat) (threw : bool) (st : LockState)
  : option LockState :=
  match calls st !! id with
  | Some c =>
      match phase c with
      | Running =>
          let locks := default [] (locksByName st !! lockName c) in
          Some {| locksByName := <[lockName c := drop 1 locks]> (locksByName st);
                  calls := <[id := {| lockName := lockName c;
                                      predecessorLock := predecessorLock c;
                                      phase := Finished threw;
                                      resolved := true |}]> (calls st);
                  started := started st |}
      | _ => None
      end
  | None => None
  end.

(** What the event loop may do next. *)
Inductive Step :=
| DoWithLock (name : string)
| Resume (id : nat)
| Settle (id : nat) (threw : bool).

Definition step (e : Step) (st : LockState) : option LockState :=
  match e with
  | DoWithLock name => Some (doWithLock_enter name st)
  | Resume id => doWithLock_resume id st
  | Settle id threw => doWithLock_finally id threw st
  end.

Fixpoint run (es : list Step) (st : LockState) : option LockState :=
  match es with
  | [] => Some st
  | e :: es' =>
      match step e st with
      | Some st' => run es' st'
      | None => None
      end
  end.

(** The array [locksByName[name]], empty when it is not there yet. *)
Definition queue (st : LockState) (name : string) : list nat :=
  default [] (locksByName st !! name).

(** The calls made under [name], in the order they were made. *)
Definition acquired (name : string) (st : LockState) : list nat :=
  List.filter (fun i => match calls st !! i with
                        | Some c => bool_decide (lockName c = name)
                        | None => false
                        end) (seq 0 (length (calls st))).

(** The calls under [name] whose task has started, in the order of the
    starts. *)
Definition started_under (name : string) (st : LockState) : list nat :=
  List.filter (fun i => match calls st !! i with
                        | Some c => bool_decide (lockName c = name)
                        | None => false
                        end) (started st).

(** The task of call [i] is in progress. *)
Definition in_progress (st : LockState) (i : nat) : Prop :=
  exists c, calls st !! i = Some c /\ phase c = Running.

End Lock.

(** ** Definitions that follow the words of the specification *)

(** The inclusive window [[max(1, N-4), min(lastLine, N+4)]] of line
    numbers. *)
Definition context_window (code : string) (N : Z) : list Z :=
  let lastLine := Z.of_nat (length (Js.split (ascii_of_nat 10) code)) in
  let lo := Z.max 1 (N - 4) in
  let hi := Z.min lastLine (N + 4) in
  List.map (fun i => (lo + Z.of_nat i)%Z) (seq 0 (Z.to_nat (hi - lo + 1))).

(** Line [k] of the source, counted from 1. *)
Definition source_line (code : string) (k : Z) : string :=
  nth (Z.to_nat (k - 1)) (Js.split (ascii_of_nat 10) code) "".

(** The lines of the window, each prefixed with its line number, joined
    with newlines. *)
Definition code_context (code : string) (N : Z) : string :=
  Js.join Js.nl
    (List.map (fun k => Js.toString k +:+ ": " +:+ source_line code k)
              (context_window code N)).

(** The files of a tree, each as the names on the way to it. *)
Fixpoint file_paths (d : node) : list (list string) :=
  match d with
  | File _ => [[]]
  | Dir entries =>
      (fix go (entries : list (string * node)) : list (list string) :=
         match entries with
         | [] => []
         | (name, x) :: rest => List.map (cons name) (file_paths x) ++ go rest
         end) entries
  end.

(** The tree without the entries, files and directories alike, whose name
    is a default file name, at every depth. *)
Fixpoint prune (default_file_names : gset string) (d : node) : node :=
  match d with
  | File contents => File contents
  | Dir entries =>
      Dir ((fix go (entries : list (string * node)) : list (string * node) :=
              match entries with
              | [] => []
              | (name, x) :: rest =>
                  if bool_decide (name ∈ default_file_names) then go rest
                  else (name, prune default_file_names x) :: go rest
              end) entries)
  end.

(** A name that is neither a directory marker nor a default file name. *)
Definition listed (default_file_names : gset string) (name : string) : bool :=
  negb (String.eqb name "." || String.eqb name "..")
  && negb (bool_decide (name ∈ default_file_names)).

(** A name as a file system has them: not empty and without ["/"]. *)
Definition is_name (name : string) : bool :=
  PATH.nonempty name
  && forallb (fun c => negb (Ascii.eqb c "/")) (list_ascii_of_string name).

(** Every entry of the tree has such a name. *)
Fixpoint well_named (d : node) : bool :=
  match d with
  | File _ => true
  | Dir entries =>
      (fix go (entries : list (string * node)) : bool :=
         match entries with
         | [] => true
         | (name, x) :: rest => is_name name && well_named x && go rest
         end) entries
  end.

(** The message has the marker [File "<exec>", line ] followed by a digit
    somewhere. *)
Definition cites_a_line (errorMsg : string) : Prop :=
  exists pre d post,
    errorMsg = pre +:+ line_marker +:+ String d post /\ Js.is_digit d = true.

(** ** Hosts for the examples *)

(** A file system with the home directory holding [home_entries]. *)
Definition example_root (home_entries : list (string * node)) : node :=
  Dir [("tmp", Dir []); ("home", Dir [("earth", Dir home_entries)])].

(** [JSON.stringify] of a file entry whose strings need no escaping. *)
Definition example_stringify (f : FileEntry) : string :=
  let field k v :=
    match v with
    | Some v => [Js.dquote +:+ k +:+ Js.dquote +:+ ":" +:+ Js.dquote +:+ v +:+ Js.dquote]
    | None => []
    end in
  "{" +:+ Js.join "," (field "filename" (filename f) ++ field "b64_data" (b64_data f))
      +:+ "}".

(** A host whose packages load and whose program, whatever the code,
    changes the file system by [effect] and then ends with [outcome]. *)
Definition example_host (effect : node -> node)
  (outcome : JsError + option PyValue) : Host :=
  {| loadPyodide := inr (example_root []);
     loadPackage := None;
     loadPackagesFromImports := fun _ => None;
     runPythonAsync := fun _ root =>
       {| py_outcome := outcome; py_fs := effect root;
          py_stdout := []; py_stderr := [] |};
     JSON_stringify := example_stringify;
     Date_now := fun n => Z.of_nat (16 * n);
     max_arguments := 130000;
     JSON_stringify_proxy := None |}.

(** The program creates the file [path] with [data]. *)
Definition creates (path : string) (data : list byte) (root : node) : node :=
  match FS.writeFile root path data with
  | inr root' => root'
  | inl _ => root
  end.

(** The environment once loaded with the seed file ["seed.txt"]. *)
Definition seeded_root : node := example_root [("seed.txt", File ["s"%byte])].
Definition seeded_files : list (string * list byte) := [("seed.txt", ["s"%byte])].
Definition seeded_names : gset string :=
  default_file_names (prepareEnvironment seeded_files new_environment).

(** A Python exception as the interpreter throws it. *)
Definition ZeroDivisionError : JsError :=
  {| err_type := Some "ZeroDivisionError";
     err_text := "PythonError: Traceback (most recent call last):" +:+ Js.nl
                 +:+ "  " +:+ line_marker +:+ "2, in <module>" +:+ Js.nl
                 +:+ "ZeroDivisionError: division by zero" +:+ Js.nl |}.

(** The program leaves a directory ["sub"] with a file that has the name
    of the seed file and one that has not. *)
Definition sub_effect (_ : node) : node :=
  example_root [("seed.txt", File ["s"%byte]);
                ("sub", Dir [("seed.txt", File ["x"%byte]);
                             ("out.txt", File ["y"%byte])])].

(** The run of ["1 + 1"] with the input file ["a.txt"] on the seeded
    environment, by a program that creates ["b.txt"]. *)
Definition exclusion_run : (JsError + CodeExecutionResponse) * State :=
  runCode (example_host (creates "/home/earth/b.txt" ["B"%byte])
                        (inr (Some (PyNumber 2))))
          seeded_names "1 + 1"
          [{| filename := Some "a.txt"; b64_data := Some "QQ==" |}]
          (fresh_state seeded_root "" "").

(** The run of a program that leaves ["sub/seed.txt"] and ["sub/out.txt"]. *)
Definition sub_run : (JsError + CodeExecutionResponse) * State :=
  runCode (example_host sub_effect (inr None)) seeded_names "import os" []
          (fresh_state seeded_root "" "").

(** The response of a run that returned one. *)
Definition response_of (run : (JsError + CodeExecutionResponse) * State)
  : CodeExecutionResponse :=
  match fst run with
  | inr r => r
  | inl _ => initial_result
  end.

(** The host of a program that evaluates to 2 and leaves the file system
    as it is. *)
Definition plain_host : Host := example_host (fun root => root) (inr (Some (PyNumber 2))).

(** An entry without [filename], and a complete one. *)
Definition nameless_entry : FileEntry := {| filename := None; b64_data := Some "QQ==" |}.
Definition a_txt : FileEntry := {| filename := Some "a.txt"; b64_data := Some "QQ==" |}.

(** The run of ["1 + 1"] with the entry without [filename] followed by
    ["a.txt"]. *)
Definition malformed_run : (JsError + CodeExecutionResponse) * State :=
  runCode plain_host seeded_names "1 + 1" [nameless_entry; a_txt]
          (fresh_state seeded_root "" "").

(** The run of ["1 + 1"] with an input file named ["../x.txt"]. *)
Definition escaping_run : (JsError + CodeExecutionResponse) * State :=
  runCode plain_host seeded_names "1 + 1"
          [{| filename := Some "../x.txt"; b64_data := Some "QQ==" |}]
          (fresh_state seeded_root "" "").

(** The run of a program that creates ["partial.txt"] and then divides by
    zero in its second line. *)
Definition failing_code : string := "open('partial.txt', 'w').write('p')" +:+ Js.nl +:+ "1/0".
Definition failing_run : (JsError + CodeExecutionResponse) * State :=
  runCode (example_host (creates "/home/earth/partial.txt" ["p"%byte])
                        (inl ZeroDivisionError))
          seeded_names failing_code [] (fresh_state seeded_root "" "").


(** The environment object with the seed file, loaded. *)
Definition seeded_environment : PyodidePythonEnvironment :=
  {| env_out_string := ""; env_err_string := "";
     default_files := seeded_files; default_file_names := seeded_names;
     pyodide := Some seeded_root; interrupt := 0 |}.

(** The request with the code ["1 + 1"] and no files. *)
Definition one_plus_one : Request := {| req_code := Some "1 + 1"; req_files := None |}.

(** An interpreter that is never loaded while the request waits. *)
Definition never_loaded : nat -> option node := fun _ => None.

(** An interpreter that is loaded when the request arrives. *)
Definition loaded (root : node) : nat -> option node := fun _ => Some root.

(** Three requests under one name and one under another; the first task
    throws, the second returns. *)
Definition lock_events : list Lock.Step :=
  [Lock.DoWithLock "python-request"; Lock.DoWithLock "python-request";
   Lock.DoWithLock "other"; Lock.Settle 0 true; Lock.Resume 1;
   Lock.DoWithLock "python-request"].

Definition lock_state : Lock.LockState :=
  default Lock.initial (Lock.run lock_events Lock.initial).

(** ** Definitions for the proofs *)


(** The match attempted at the first character. *)
Definition match_here (errorMsg : string) : option string :=
  match Js.after_prefix line_marker errorMsg with
  | Some rest =>
      match Js.digits_prefix rest with
      | EmptyString => None
      | ds => Some ds
      end
  | None => None
  end.

(** Induction on a tree, with the hypothesis for every entry of a
    directory. *)
Fixpoint node_induction (P : node -> Prop)
  (HFile : forall contents, P (File contents))
  (HDir : forall entries, Forall (fun e => P (snd e)) entries -> P (Dir entries))
  (d : node) : P d :=
  match d with
  | File contents => HFile contents
  | Dir entries =>
      HDir entries
        ((fix go (entries : list (string * node))
            : Forall (fun e => P (snd e)) entries :=
            match entries with
            | [] => @List.Forall_nil _ _
            | e :: rest =>
                @List.Forall_cons _ _ e rest
                  (node_induction P HFile HDir (snd e)) (go rest)
            end) entries)
  end.

(** What one entry contributes to the listing of its directory. *)
Definition entry_files (D : gset string) (dir : string) (e : string * node)
  : list string :=
  if listed D (fst e) then
    match snd e with
    | Dir _ => listFilesRecursive D (PATH.join2 dir (fst e)) (snd e)
    | File _ => [PATH.join2 dir (fst e)]
    end
  else [].

(** The listing that starts at a node: a file is itself. *)
Definition files_at (D : gset string) (path : string) (d : node) : list string :=
  match d with
  | Dir _ => listFilesRecursive D path d
  | File _ => [path]
  end.

Definition slash : ascii := "/"%char.

(** The string has no ["/"]. *)
Definition no_slash (name : string) : bool :=
  forallb (fun c => negb (Ascii.eqb c slash)) (list_ascii_of_string name).

(** A name that [PATH.normalize] leaves alone. *)
Definition plain (name : string) : bool :=
  is_name name && negb (String.eqb name "." || String.eqb name "..").

(** The absolute path with the components [cs]. *)
Definition absolute (cs : list string) : string := "/" +:+ Js.join "/" cs.

(** The end of [runCode], from the state [s1] the [try] statement leaves. *)
Definition finish (h : Host) (s s1 : State) : (JsError + CodeExecutionResponse) * State :=
  let r := with_std (out_string s1) (err_string s1)
             (Date_now h (ticks s1) - Date_now h (ticks s)) (result s1) in
  (inr r, with_result r (with_tick s1)).

(** The state the [catch] block leaves. *)
Definition caught (code : string) (e : JsError) (s1 : State) : State :=
  with_result
    (with_success false
       (with_error {| error_type := err_type e;
                      error_message := enrich code (err_text e) |} (result s1)))
    s1.

(** The two fields of [result] that only the end of [try] assigns. *)
Definition same_outputs (s s' : State) : Prop :=
  output_files (result s') = output_files (result s)
  /\ final_expression (result s') = final_expression (result s).

(** The callback of [new_files]. *)
Definition read_output (h : Host) (f : string) : M OutputFile :=
  b64 ← readFileAsBase64 h f;
  mret {| out_filename := relative f; out_b64_data := b64 |}.

(** The state after [runPythonAsync(code)] on the state [s2]. *)
Definition after_run (h : Host) (code : string) (s2 : State) : State :=
  let run := runPythonAsync h code (fs s2) in
  with_output (py_stdout run) (py_stderr run)
    (with_fs (py_fs run) (with_event (RunPythonAsync code) s2)).

(** The files of the home directory that are not input files. *)
Definition new_paths (D : gset string) (files : list FileEntry)
  (entries : list (string * node)) : list string :=
  List.filter (fun f => negb (Js.includes (List.map filename files) (relative f)))
              (listFilesRecursive D pythonEnvironmentHomeDir (Dir entries)).

(** An entry with both fields. *)
Definition complete (f : FileEntry) : Prop :=
  filename f <> None /\ b64_data f <> None.

(** *** The invariant of the lock *)

Section LockInvariant.

Import Lock.

(** Call [j] waits for call [prev], made before it under the same name. *)
Definition waiting_on (st : LockState) (name : string) (prev j : nat) : Prop :=
  calls st !! j = Some {| lockName := name; predecessorLock := Some prev;
                          phase := Waiting; resolved := false |}
  /\ (prev < j)%nat.

(** Each call of [rest] waits for the one before it, the first for [prev]. *)
Fixpoint chain (st : LockState) (name : string) (prev : nat) (rest : list nat)
  : Prop :=
  match rest with
  | [] => True
  | j :: rest' => waiting_on st name prev j /\ chain st name j rest'
  end.

(** The call at index 0: its task runs, or its predecessor has unlocked
    and its continuation is due. *)
Definition head_ok (st : LockState) (name : string) (i : nat) : Prop :=
  exists c, calls st !! i = Some c /\ lockName c = name /\ resolved c = false
            /\ (phase c = Running
                \/ (phase c = Waiting
                    /\ exists p, predecessorLock c = Some p
                                 /\ is_resolved st p = true)).

(** The queue under [m] is as it should be. *)
Definition queue_ok (st : LockState) (m : string) : Prop :=
  match queue st m with
  | [] => True
  | i :: rest => head_ok st m i /\ chain st m i rest
  end.

Definition is_waiting (st : LockState) (i : nat) : bool :=
  match calls st !! i with
  | Some c => bool_decide (phase c = Waiting)
  | None => false
  end.

(** The calls under [name] whose task has not started, in queue order. *)
Definition waiting_ids (st : LockState) (name : string) : list nat :=
  match queue st name with
  | [] => []
  | i :: rest => (if is_waiting st i then [i] else []) ++ rest
  end.

Record Inv (st : LockState) : Prop := {
  inv_queue : forall name, queue_ok st name;
  inv_settled : forall i c,
    calls st !! i = Some c -> i ∉ queue st (lockName c) ->
    (exists b, phase c = Finished b) /\ resolved c = true;
  inv_fifo : forall name,
    acquired name st = started_under name st ++ waiting_ids st name;
  inv_started : forall i, i ∈ started st -> (i < length (calls st))%nat
}.

(** Call [i] was made under [name]. *)
Definition under (name : string) (st : LockState) (i : nat) : bool :=
  match calls st !! i with
  | Some c => bool_decide (lockName c = name)
  | None => false
  end.

Definition started_call (c : Call) : Call :=
  {| lockName := lockName c; predecessorLock := predecessorLock c;
     phase := Running; resolved := resolved c |}.

Definition settled_call (threw : bool) (c : Call) : Call :=
  {| lockName := lockName c; predecessorLock := predecessorLock c;
     phase := Finished threw; resolved := true |}.

End LockInvariant.

(** *** The calls, the streams and the files of a run *)

(** The state in which [runCode] calls [runPythonAsync], when it gets
    there: the packages of the code have loaded and the loop over the
    input files has ended without a throw. *)
Definition before_run (h : Host) (code : string) (files : list FileEntry)
  (s : State) : option State :=
  match loadPackagesFromImports h code with
  | Some _ => None
  | None =>
      match forEach files (writeInputFile h)
              (with_event (LoadPackagesFromImports code)
                 (with_result initial_result (with_tick s))) with
      | (inr _, s2) => Some s2
      | (inl _, _) => None
      end
  end.

(** The entries with both fields and a payload that decodes, by file name
    and bytes, in the order of the entries. *)
Definition input_writes (files : list FileEntry) : list (string * list byte) :=
  omap (fun f => match filename f, b64_data f with
                 | Some name, Some b64 =>
                     match base64ToBytes b64 with
                     | Some data => Some (name, data)
                     | None => None
                     end
                 | _, _ => None
                 end) files.

(** The call that writes an input file. *)
Definition write_event (w : string * list byte) : Event :=
  WriteFile (PATH.join2 pythonEnvironmentHomeDir (fst w)) (snd w).

(** What the [stdout] or [stderr] callback appends for the messages. *)
Definition stream_text (msgs : list string) : string :=
  String.concat "" (List.map (fun m => m +:+ Js.nl) msgs).

(** The entries of a directory after the files [ws] have been written
    into it, one after the other. *)
Definition put_all (ws : list (string * list byte)) (entries : list (string * node))
  : list (string * node) :=
  fold_left (fun entries w => FS.put (fst w) (File (snd w)) entries) ws entries.

(** The bytes of the last of the files [ws] that has the name. *)
Definition last_write (name : string) (ws : list (string * list byte))
  : option (list byte) :=
  snd <$> List.find (fun w => String.eqb (fst w) name) (rev ws).

(** No directory has the name among the entries. *)
Definition no_dir (name : string) (entries : list (string * node)) : bool :=
  match FS.find name entries with
  | Some (Dir _) => false
  | _ => true
  end.





(** *** Requests and lock names *)

(** The code has white space only. *)
Definition blank (code : string) : bool :=
  forallb Js.is_white_space (list_ascii_of_string code).

(** A host whose program creates ["leak.txt"] and has the value 2^64, and
    a request for it. *)
Definition bigint_host : Host :=
  example_host (creates "/home/earth/leak.txt" ["L"%byte])
               (inr (Some (PyNumber 18446744073709551616))).
Definition bigint_request : Request :=
  {| req_code := Some "open('leak.txt', 'w').write('L'); 2**64";
     req_files := None |}.

(** A request with an entry that has no payload. *)
Definition no_payload_request : Request :=
  {| req_code := Some "1 + 1";
     req_files := Some [a_txt; {| filename := Some "b.txt"; b64_data := None |}] |}.

(** The lock name a step of the event loop works under. *)
Definition step_name (st : Lock.LockState) (e : Lock.Step) : option string :=
  match e with
  | Lock.DoWithLock name => Some name
  | Lock.Resume id | Lock.Settle id _ =>
      match Lock.calls st !! id with
      | Some c => Some (Lock.lockName c)
      | None => None
      end
  end.

(** Two calls under ["a"], one under ["b"]; the first task has thrown. *)
Definition two_names_events : list Lock.Step :=
  [Lock.DoWithLock "a"; Lock.DoWithLock "b"; Lock.DoWithLock "a";
   Lock.Settle 0 true].
Definition two_names_state : Lock.LockState :=
  default Lock.initial (Lock.run two_names_events Lock.initial).

(* ================================================================== *)
(** * Part II: properties *)
(* ================================================================== *)

(** ** Base64 *)

Section Base64Facts.
Import Base64.

















End Base64Facts.




(** ** Error enrichment *)

Section EnrichFacts.

Lemma parseInt_nonneg (digits : string) : (0 <= Js.parseInt digits)%Z.
Proof.
  unfold Js.parseInt.
  assert (H : forall l acc, (0 <= acc)%Z ->
            (0 <= fold_left (fun acc c => acc * 10 + Z.of_N (N_of_ascii c - 48)) l acc)%Z).
  { induction l as [|c l IH]; intros acc Hacc; cbn [fold_left]; [exact Hacc|].
    apply IH. lia. }
  apply H. lia.
Qed.

Lemma imap_window {A B} (f : nat -> A -> B) (d : A) (l : list A) (k n : nat) :
  (k + n <= length l)%nat ->
  imap f (firstn n (skipn k l))
  = List.map (fun i => f i (nth (k + i) l d)) (seq 0 n).
Proof.
  revert f k. induction n as [|n IH]; intros f k Hlen; [reflexivity|].
  destruct (skipn k l) as [|x rest] eqn:E.
  { assert (length (skipn k l) = 0%nat) by (rewrite E; reflexivity).
    rewrite length_skipn in *. lia. }
  cbn [firstn]. rewrite imap_cons. cbn [seq List.map].
  assert (Hx : nth (k + 0) l d = x).
  { rewrite <- (firstn_skipn k l) at 1. rewrite E.
    rewrite app_nth2; rewrite length_firstn; [|lia].
    replace (k + 0 - Init.Nat.min k (length l))%nat with 0%nat by lia. reflexivity. }
  rewrite Hx. f_equal.
  assert (Hrest : rest = skipn (S k) l).
  { replace (S k) with (1 + k)%nat by lia.
    rewrite <- skipn_skipn, E. reflexivity. }
  rewrite Hrest, (IH (f ∘ S) (S k)) by lia.
  rewrite <- seq_shift, List.map_map.
  apply List.map_ext. intros i. unfold compose.
  replace (S k + i)%nat with (k + S i)%nat by lia. reflexivity.
Qed.

Lemma context_lines (lines : list string) (N : Z) :
  (0 <= N)%Z ->
  let startLine := Z.max 1 (N - 4) in
  let endLine := Z.min (Z.of_nat (length lines)) (N + 4) in
  imap (fun idx line => Js.toString (startLine + Z.of_nat idx) +:+ ": " +:+ line)
       (Js.Array_slice (startLine - 1) endLine lines)
  = List.map (fun k => Js.toString k +:+ ": " +:+ nth (Z.to_nat (k - 1)) lines "")
             (List.map (fun i => (startLine + Z.of_nat i)%Z)
                       (seq 0 (Z.to_nat (endLine - startLine + 1)))).
Proof.
  intros HN startLine endLine.
  unfold Js.Array_slice, Js.rel_index.
  destruct (Z.ltb_spec (startLine - 1) 0) as [Hneg|_]; [subst startLine; lia|].
  destruct (Z.ltb_spec endLine 0) as [Hneg|_]; [subst endLine; lia|].
  replace (Z.min endLine (Z.of_nat (length lines))) with endLine
    by (subst endLine; lia).
  destruct (Z.le_gt_cases (startLine - 1) (Z.of_nat (length lines))) as [Hin|Hout].
  - replace (Z.min (startLine - 1) (Z.of_nat (length lines))) with (startLine - 1)%Z by lia.
    replace (endLine - (startLine - 1))%Z with (endLine - startLine + 1)%Z by lia.
    rewrite (imap_window _ "") by (subst endLine; lia).
    rewrite List.map_map. apply List.map_ext_in. intros i Hi.
    apply in_seq in Hi.
    replace (Z.to_nat (startLine + Z.of_nat i - 1)) with (Z.to_nat (startLine - 1) + i)%nat
      by lia.
    reflexivity.
  - replace (Z.to_nat (endLine - Z.min (startLine - 1) (Z.of_nat (length lines))))
      with 0%nat by (subst endLine; lia).
    replace (Z.to_nat (endLine - startLine + 1)) with 0%nat by (subst endLine; lia).
    reflexivity.
Qed.

Lemma append_assoc (a b c : string) : (a +:+ b) +:+ c = a +:+ (b +:+ c).
Proof.
  unfold String.app. induction a as [|x a IH]; simpl; [reflexivity|].
  now rewrite IH.
Qed.

Lemma append_nil_r (a : string) : a +:+ "" = a.
Proof.
  unfold String.app. induction a as [|x a IH]; simpl; [reflexivity|].
  now rewrite IH.
Qed.

Lemma length_append (a b : string) :
  String.length (a +:+ b) = (String.length a + String.length b)%nat.
Proof.
  unfold String.app. induction a as [|x a IH]; simpl; [reflexivity|].
  now rewrite IH.
Qed.

Lemma after_prefix_spec (p s rest : string) :
  Js.after_prefix p s = Some rest <-> s = p +:+ rest.
Proof.
  revert s. induction p as [|a p IH]; intros s; cbn.
  - split; [intros [= ->] | intros ->]; reflexivity.
  - destruct s as [|b s]; [split; discriminate|].
    destruct (Ascii.eqb_spec a b) as [->|Hne].
    + rewrite IH. split; [intros -> | intros [= ->]]; reflexivity.
    + split; [discriminate | intros [= ? _]; congruence].
Qed.

Lemma lineMatch_unfold (errorMsg : string) :
  lineMatch errorMsg =
  match match_here errorMsg with
  | Some ds => Some ds
  | None =>
      match errorMsg with
      | String _ rest => lineMatch rest
      | EmptyString => None
      end
  end.
Proof. destruct errorMsg; reflexivity. Qed.

Lemma digits_prefix_split (s : string) :
  exists post, s = Js.digits_prefix s +:+ post
               /\ Js.digits_prefix (Js.digits_prefix s +:+ post) = Js.digits_prefix s.
Proof.
  induction s as [|c s (post & E1 & E2)]; cbn [Js.digits_prefix].
  - exists "". split; reflexivity.
  - destruct (Js.is_digit c) eqn:Hc.
    + exists post. unfold String.app in *. cbn [append Js.digits_prefix].
      rewrite Hc, E2. split; [f_equal; exact E1 | reflexivity].
    + exists (String c s). unfold String.app. cbn [append Js.digits_prefix].
      rewrite Hc. split; reflexivity.
Qed.

Lemma digits_prefix_head (s : string) :
  Js.digits_prefix s <> "" ->
  exists d post, s = String d post /\ Js.is_digit d = true.
Proof.
  destruct s as [|c s]; cbn [Js.digits_prefix]; [congruence|].
  destruct (Js.is_digit c) eqn:Hc; [eauto | congruence].
Qed.

Lemma digits_prefix_digit (d : ascii) (post : string) :
  Js.is_digit d = true -> Js.digits_prefix (String d post) <> "".
Proof. intros Hd. cbn [Js.digits_prefix]. rewrite Hd. discriminate. Qed.

Lemma match_here_Some (errorMsg ds : string) :
  match_here errorMsg = Some ds ->
  exists post, errorMsg = line_marker +:+ ds +:+ post
               /\ Js.digits_prefix (ds +:+ post) = ds /\ ds <> "".
Proof.
  unfold match_here.
  destruct (Js.after_prefix line_marker errorMsg) as [rest|] eqn:E; [|discriminate].
  apply after_prefix_spec in E. subst errorMsg.
  destruct (digits_prefix_split rest) as (post & E1 & E2).
  destruct (Js.digits_prefix rest) as [|d ds'] eqn:Ed; [discriminate|].
  intros [= <-]. exists post.
  split; [rewrite <- E1; reflexivity | split; [exact E2 | discriminate]].
Qed.

Lemma match_here_None (errorMsg : string) :
  match_here errorMsg = None <->
  ~ exists d post, errorMsg = line_marker +:+ String d post /\ Js.is_digit d = true.
Proof.
  split.
  - intros Hn (d & post & -> & Hd). unfold match_here in Hn.
    rewrite (proj2 (after_prefix_spec _ _ _) eq_refl) in Hn.
    pose proof (digits_prefix_digit d post Hd) as Hne.
    destruct (Js.digits_prefix (String d post)); [congruence | discriminate].
  - intros Hn. destruct (match_here errorMsg) as [ds|] eqn:E; [|reflexivity].
    exfalso. apply Hn. unfold match_here in E.
    destruct (Js.after_prefix line_marker errorMsg) as [rest|] eqn:Ea; [|discriminate].
    apply after_prefix_spec in Ea. subst errorMsg.
    destruct (digits_prefix_head rest) as (d & post & -> & Hd).
    { destruct (Js.digits_prefix rest); [discriminate | discriminate]. }
    eauto.
Qed.

Lemma lineMatch_None (errorMsg : string) :
  lineMatch errorMsg = None <-> ~ cites_a_line errorMsg.
Proof.
  induction errorMsg as [|c rest IH]; rewrite lineMatch_unfold.
  - destruct (match_here "") eqn:E; [discriminate E|].
    split; [|reflexivity]. intros _ (pre & d & post & Heq & _).
    destruct pre; discriminate Heq.
  - destruct (match_here (String c rest)) as [ds|] eqn:E.
    + split; [discriminate|]. intros H. exfalso. apply H.
      destruct (match_here_Some _ _ E) as (post & Heq & Hd & Hne).
      destruct ds as [|d ds]; [congruence|].
      exists "", d, (ds +:+ post). split; [exact Heq|].
      unfold String.app in Hd. cbn [append Js.digits_prefix] in Hd.
      destruct (Js.is_digit d); [reflexivity | discriminate].
    + rewrite IH. apply match_here_None in E.
      split; intros H (pre & d & post & Heq & Hd).
      * destruct pre as [|x pre].
        { apply E. exists d, post. split; assumption. }
        injection Heq as -> Heq. apply H. exists pre, d, post. split; assumption.
      * apply H. exists (String c pre), d, post.
        split; [unfold String.app in *; cbn [append]; f_equal|]; assumption.
Qed.

(** A match is leftmost, and its digits are all the digits that follow
    the marker. *)
Lemma lineMatch_Some (errorMsg digits : string) :
  lineMatch errorMsg = Some digits ->
  exists pre post,
    errorMsg = pre +:+ line_marker +:+ digits +:+ post
    /\ Js.digits_prefix (digits +:+ post) = digits /\ digits <> ""
    /\ forall pre' d post',
         errorMsg = pre' +:+ line_marker +:+ String d post' ->
         Js.is_digit d = true -> (String.length pre <= String.length pre')%nat.
Proof.
  induction errorMsg as [|c rest IH]; rewrite lineMatch_unfold.
  - destruct (match_here "") eqn:E; discriminate.
  - destruct (match_here (String c rest)) as [ds|] eqn:E.
    + intros [= ->].
      destruct (match_here_Some _ _ E) as (post & Heq & Hd & Hne).
      exists "", post. repeat split; try assumption. intros; cbn; lia.
    + intros Hm. destruct (IH Hm) as (pre & post & Heq & Hd & Hne & Hleft).
      exists (String c pre), post. repeat split; try assumption.
      * unfold String.app in *. cbn [append]. f_equal. exact Heq.
      * intros pre' d post' Heq' Hdig.
        destruct pre' as [|x pre'].
        { exfalso. apply (proj1 (match_here_None _) E). eauto. }
        injection Heq' as -> Heq'. cbn [String.length].
        apply le_n_S. eapply Hleft; eassumption.
Qed.

End EnrichFacts.

(** C8. When the message has a line marker citing line [N], the enriched
    message is the message followed by a ["Code context:"] block with the
    source lines of the inclusive window [[max(1, N-4), min(lastLine, N+4)]],
    each prefixed with its 1-based number and joined with newlines; the
    marker used is the leftmost one and [N] is read from all its digits.
    Without a marker the message is unchanged. The [catch] block that
    enriches always completes. *)
Theorem enrich_spec (code errorMsg : string) :
  enrich code errorMsg =
    match lineMatch errorMsg with
    | Some digits =>
        errorMsg +:+ Js.nl +:+ Js.nl +:+ "Code context:" +:+ Js.nl
          +:+ code_context code (Js.parseInt digits)
    | None => errorMsg
    end
  /\ (lineMatch errorMsg = None <-> ~ cites_a_line errorMsg)
  /\ (forall digits,
        lineMatch errorMsg = Some digits ->
        exists pre post,
          errorMsg = pre +:+ line_marker +:+ digits +:+ post
          /\ Js.digits_prefix (digits +:+ post) = digits /\ digits <> ""
          /\ forall pre' d post',
               errorMsg = pre' +:+ line_marker +:+ String d post' ->
               Js.is_digit d = true ->
               (String.length pre <= String.length pre')%nat)
  /\ (forall error s, exists s', runCode_catch code error s = (inr tt, s')).
Proof.
  split; [|split; [apply lineMatch_None | split; [apply lineMatch_Some|]]].
  - unfold enrich. destruct (lineMatch errorMsg) as [digits|]; [|reflexivity].
    do 5 f_equal. unfold code_context, context_window, source_line. f_equal.
    apply context_lines, parseInt_nonneg.
  - intros error s. eexists. reflexivity.
Qed.

(** The example of the specification: the source ["x\ny = 1/0\nz"] and an
    error citing line 2 give a context block with lines 1 to 3. *)
Example enrich_lines_1_to_3 :
  let code := "x" +:+ Js.nl +:+ "y = 1/0" +:+ Js.nl +:+ "z" in
  let errorMsg := "PythonError: Traceback (most recent call last):" +:+ Js.nl
                  +:+ "  " +:+ line_marker +:+ "2, in <module>" +:+ Js.nl
                  +:+ "ZeroDivisionError: division by zero" in
  enrich code errorMsg =
    errorMsg +:+ Js.nl +:+ Js.nl +:+ "Code context:" +:+ Js.nl
      +:+ "1: x" +:+ Js.nl +:+ "2: y = 1/0" +:+ Js.nl +:+ "3: z".
Proof. vm_compute. reflexivity. Qed.

(** ** Listing the files *)

Section ListingFacts.

Variable default_file_names : gset string.

Lemma listFilesRecursive_Dir (D : gset string) (dir : string)
  (entries : list (string * node)) :
  listFilesRecursive D dir (Dir entries) = flat_map (entry_files D dir) entries.
Proof.
  cbn [listFilesRecursive].
  induction entries as [|[name x] rest IH]; [reflexivity|].
  cbn [flat_map]. rewrite <- IH. unfold entry_files, listed. cbn [fst snd].
  destruct (String.eqb name "." || String.eqb name ".."); [reflexivity|].
  destruct (bool_decide (name ∈ D)); [reflexivity|].
  destruct x; reflexivity.
Qed.

Lemma file_paths_Dir (entries : list (string * node)) :
  file_paths (Dir entries)
  = flat_map (fun e => List.map (cons (fst e)) (file_paths (snd e))) entries.
Proof.
  cbn [file_paths].
  induction entries as [|[name x] rest IH]; [reflexivity|].
  cbn [flat_map fst snd]. now rewrite <- IH.
Qed.

Lemma listed_empty (name : string) :
  listed ∅ name = negb (String.eqb name "." || String.eqb name "..").
Proof.
  unfold listed. rewrite bool_decide_eq_false_2 by set_solver.
  apply andb_true_r.
Qed.

Lemma listed_not_default (name : string) :
  listed default_file_names name = true -> name ∉ default_file_names.
Proof.
  unfold listed. intros H. apply andb_prop in H as [_ H].
  apply negb_true_iff in H. now apply bool_decide_eq_false in H.
Qed.

Lemma entry_files_at (D : gset string) (dir : string) (e : string * node) :
  entry_files D dir e
  = if listed D (fst e) then files_at D (PATH.join2 dir (fst e)) (snd e) else [].
Proof. unfold entry_files, files_at. destruct (snd e); reflexivity. Qed.

Lemma filter_cons_paths (D : gset string) (name : string)
  (paths : list (list string)) :
  List.filter (forallb (listed D)) (List.map (cons name) paths)
  = if listed D name then List.map (cons name) (List.filter (forallb (listed D)) paths)
    else [].
Proof.
  induction paths as [|p paths IH]; cbn [List.map List.filter forallb].
  - destruct (listed D name); reflexivity.
  - rewrite IH. destruct (listed D name); cbn [andb]; [|reflexivity].
    destruct (forallb (listed D) p); reflexivity.
Qed.

Lemma filter_flat_map {A B} (P : B -> bool) (f : A -> list B) (l : list A) :
  List.filter P (flat_map f l) = flat_map (fun x => List.filter P (f x)) l.
Proof.
  induction l as [|x l IH]; cbn [flat_map]; [reflexivity|].
  now rewrite List.filter_app, IH.
Qed.

Lemma map_flat_map {A B C} (g : B -> C) (f : A -> list B) (l : list A) :
  List.map g (flat_map f l) = flat_map (fun x => List.map g (f x)) l.
Proof.
  induction l as [|x l IH]; cbn [flat_map]; [reflexivity|].
  now rewrite List.map_app, IH.
Qed.

Lemma flat_map_flat_map {A B C} (g : B -> list C) (f : A -> list B) (l : list A) :
  flat_map g (flat_map f l) = flat_map (fun x => flat_map g (f x)) l.
Proof.
  induction l as [|x l IH]; cbn [flat_map]; [reflexivity|].
  now rewrite flat_map_app, IH.
Qed.

Lemma flat_map_ext_Forall {A B} (f g : A -> list B) (l : list A) :
  Forall (fun x => f x = g x) l -> flat_map f l = flat_map g l.
Proof. induction 1 as [|x l Hx _ IH]; cbn [flat_map]; congruence. Qed.

(** The listing is the files of the tree whose names on the way are all
    listed, each rendered by joining the names onto the directory. *)
Lemma files_at_paths (D : gset string) (d : node) :
  forall path,
    files_at D path d
    = List.map (fun names => fold_left PATH.join2 names path)
               (List.filter (forallb (listed D)) (file_paths d)).
Proof.
  induction d as [contents|entries IH] using node_induction; intros path.
  - reflexivity.
  - cbn [files_at]. rewrite listFilesRecursive_Dir, file_paths_Dir.
    rewrite filter_flat_map, map_flat_map.
    apply flat_map_ext_Forall.
    eapply List.Forall_impl; [|exact IH]. intros [name x] Hx. cbn [fst snd] in *.
    rewrite entry_files_at, filter_cons_paths. cbn [fst snd].
    destruct (listed D name); [|reflexivity].
    rewrite Hx, List.map_map. reflexivity.
Qed.

Lemma prune_Dir (D : gset string) (entries : list (string * node)) :
  prune D (Dir entries)
  = Dir (flat_map (fun e => if bool_decide (fst e ∈ D) then []
                            else [(fst e, prune D (snd e))]) entries).
Proof.
  cbn [prune]. f_equal.
  induction entries as [|[name x] rest IH]; [reflexivity|].
  cbn [flat_map fst snd]. rewrite <- IH.
  destruct (bool_decide (name ∈ D)); reflexivity.
Qed.

(** Listing with the exclusion is listing the pruned tree without it. *)
Lemma files_at_prune (D : gset string) (d : node) :
  forall path, files_at D path d = files_at ∅ path (prune D d).
Proof.
  induction d as [contents|entries IH] using node_induction; intros path.
  - reflexivity.
  - rewrite prune_Dir. cbn [files_at]. rewrite !listFilesRecursive_Dir.
    rewrite flat_map_flat_map.
    apply flat_map_ext_Forall.
    eapply List.Forall_impl; [|exact IH]. intros [name x] Hx. cbn [fst snd] in *.
    destruct (bool_decide (name ∈ D)) eqn:Hd.
    + rewrite entry_files_at. unfold listed. cbn [fst]. rewrite Hd.
      rewrite andb_false_r. reflexivity.
    + cbn [flat_map]. rewrite app_nil_r, !entry_files_at. cbn [fst snd].
      rewrite listed_empty. unfold listed. rewrite Hd. cbn [negb].
      rewrite andb_true_r.
      destruct (negb _); [apply Hx | reflexivity].
Qed.

End ListingFacts.

(** ** Paths *)

Section PathFacts.

Lemma split_nonempty (sep : ascii) (s : string) : Js.split sep s <> [].
Proof.
  destruct s as [|c s]; cbn [Js.split]; [discriminate|].
  destruct (Ascii.eqb c sep); [discriminate|].
  destruct (Js.split sep s); discriminate.
Qed.

Lemma split_append (sep : ascii) (a b : string) :
  Js.split sep (a +:+ String sep b) = Js.split sep a ++ Js.split sep b.
Proof.
  unfold String.app.
  induction a as [|c a IH]; cbn [append Js.split].
  - rewrite Ascii.eqb_refl. reflexivity.
  - destruct (Ascii.eqb c sep); [now rewrite IH|].
    rewrite IH. pose proof (split_nonempty sep a) as Hne.
    destruct (Js.split sep a); [congruence | reflexivity].
Qed.

Lemma split_no_slash (name : string) :
  no_slash name = true -> Js.split slash name = [name].
Proof.
  unfold no_slash.
  induction name as [|c name IH]; cbn [list_ascii_of_string forallb Js.split];
    [reflexivity|].
  intros H. apply andb_prop in H as [Hc Hrest].
  apply negb_true_iff in Hc. rewrite Hc, (IH Hrest). reflexivity.
Qed.

Lemma is_name_no_slash (name : string) : is_name name = true -> no_slash name = true.
Proof. unfold is_name. intros H. now apply andb_prop in H as [_ H]. Qed.

Lemma is_name_nonempty (name : string) :
  is_name name = true -> PATH.nonempty name = true.
Proof. unfold is_name. intros H. now apply andb_prop in H as [H _]. Qed.

Lemma components_append (a b : string) :
  FS.components (a +:+ "/" +:+ b) = FS.components a ++ FS.components b.
Proof.
  unfold FS.components.
  change (a +:+ "/" +:+ b) with (a +:+ String slash b).
  now rewrite split_append, List.filter_app.
Qed.

Lemma components_name (name : string) :
  is_name name = true -> FS.components name = [name].
Proof.
  intros H. unfold FS.components.
  change "/"%char with slash.
  rewrite (split_no_slash _ (is_name_no_slash _ H)). cbn [List.filter].
  now rewrite (is_name_nonempty _ H).
Qed.

Lemma join_cons (sep x y : string) (rest : list string) :
  Js.join sep (x :: y :: rest) = x +:+ sep +:+ Js.join sep (y :: rest).
Proof. reflexivity. Qed.

Lemma components_join (cs : list string) :
  Forall (fun c => is_name c = true) cs ->
  FS.components (Js.join "/" cs) = cs.
Proof.
  induction 1 as [|c cs Hc Hcs IH]; [reflexivity|].
  destruct cs as [|c' cs].
  - cbn [Js.join String.concat]. apply components_name, Hc.
  - rewrite join_cons, components_append, IH, (components_name _ Hc). reflexivity.
Qed.

Lemma components_absolute (cs : list string) :
  Forall (fun c => is_name c = true) cs -> FS.components (absolute cs) = cs.
Proof.
  intros H. unfold absolute.
  change ("/" +:+ Js.join "/" cs) with ("" +:+ "/" +:+ Js.join "/" cs).
  rewrite components_append, (components_join _ H). reflexivity.
Qed.

Lemma normalizeArray_plain (cs : list string) :
  Forall (fun c => plain c = true) cs -> PATH.normalizeArray cs false = cs.
Proof.
  intros H. unfold PATH.normalizeArray.
  assert (E : fold_right PATH.scan ([], O) cs = (cs, O)).
  { induction H as [|c cs Hc _ IH]; [reflexivity|].
    cbn [fold_right]. rewrite IH. unfold PATH.scan.
    unfold plain in Hc. apply andb_prop in Hc as [_ Hc].
    apply negb_true_iff, orb_false_iff in Hc as [H1 H2].
    now rewrite H1, H2. }
  now rewrite E.
Qed.

Lemma ends_with_slash_append (a b : string) :
  PATH.nonempty b = true ->
  PATH.ends_with_slash (a +:+ b) = PATH.ends_with_slash b.
Proof.
  intros Hb. induction a as [|c a IH]; [reflexivity|].
  change (String c a +:+ b) with (String c (a +:+ b)).
  assert (Hne : a +:+ b <> "").
  { destruct a; [destruct b; [discriminate Hb | discriminate] | discriminate]. }
  destruct (a +:+ b) as [|x r] eqn:E; [congruence|].
  exact IH.
Qed.

Lemma ends_with_slash_name (name : string) :
  no_slash name = true -> PATH.ends_with_slash name = false.
Proof.
  unfold no_slash.
  induction name as [|c name IH]; [reflexivity|].
  cbn [list_ascii_of_string forallb PATH.ends_with_slash].
  intros H. apply andb_prop in H as [Hc Hrest]. apply negb_true_iff in Hc.
  destruct name; [exact Hc | exact (IH Hrest)].
Qed.

Lemma join_nonempty (c : string) (cs : list string) :
  PATH.nonempty c = true -> PATH.nonempty (Js.join "/" (c :: cs)) = true.
Proof.
  intros Hc. destruct cs as [|c' cs].
  - exact Hc.
  - rewrite join_cons. destruct c; [discriminate | reflexivity].
Qed.

(** Joining a plain name onto an absolute path of plain names adds the
    name as the last component. *)
Lemma join2_plain (cs : list string) (name : string) :
  Forall (fun c => plain c = true) cs -> plain name = true ->
  PATH.join2 (absolute cs) name = absolute (cs ++ [name]).
Proof.
  intros Hcs Hname.
  assert (Hnames : Forall (fun c => is_name c = true) cs).
  { eapply List.Forall_impl; [|exact Hcs]. intros c Hc. unfold plain in Hc.
    now apply andb_prop in Hc as [Hc _]. }
  assert (Hn : is_name name = true).
  { unfold plain in Hname. now apply andb_prop in Hname as [Hn _]. }
  unfold PATH.join2, PATH.normalize.
  assert (Hc : List.filter PATH.nonempty (Js.split "/" (absolute cs +:+ "/" +:+ name))
               = cs ++ [name]).
  { change (List.filter PATH.nonempty (Js.split "/" ?p)) with (FS.components p).
    rewrite components_append, (components_absolute _ Hnames), (components_name _ Hn).
    reflexivity. }
  rewrite Hc.
  assert (Habs : PATH.isAbs (absolute cs +:+ "/" +:+ name) = true) by reflexivity.
  rewrite Habs. cbn [negb].
  rewrite normalizeArray_plain by (apply Forall_app; split; [exact Hcs | now constructor]).
  rewrite andb_false_r.
  assert (Hend : PATH.ends_with_slash (absolute cs +:+ "/" +:+ name) = false).
  { rewrite <- append_assoc, ends_with_slash_append by (apply is_name_nonempty, Hn).
    apply ends_with_slash_name, is_name_no_slash, Hn. }
  rewrite Hend, andb_false_r. reflexivity.
Qed.

Lemma fold_join2_plain (names cs : list string) :
  Forall (fun c => plain c = true) cs ->
  Forall (fun c => plain c = true) names ->
  fold_left PATH.join2 names (absolute cs) = absolute (cs ++ names).
Proof.
  revert cs. induction names as [|n names IH]; intros cs Hcs Hnames.
  - now rewrite app_nil_r.
  - inversion Hnames as [|? ? Hn Hrest]; subst. cbn [fold_left].
    rewrite (join2_plain _ _ Hcs Hn), IH; [| |exact Hrest].
    + now rewrite <- app_assoc.
    + apply Forall_app. split; [exact Hcs | now constructor].
Qed.

End PathFacts.

(** ** [runCode] *)

Section RunCodeFacts.

Variable h : Host.

Lemma runCode_unfold (D : gset string) (code : string) (files : list FileEntry)
  (s : State) :
  runCode h D code files s =
  match runCode_try h D code files (with_result initial_result (with_tick s)) with
  | (inr _, s1) => finish h s s1
  | (inl e, s1) => finish h s (caught code e s1)
  end.
Proof.
  unfold runCode, mbind, M_bind, now, update_result, modify, try_catch, get,
    mret, M_ret, finish, caught, runCode_catch.
  cbn [ticks with_tick with_result].
  destruct (runCode_try h D code files _) as [[e|[]] s1]; reflexivity.
Qed.

(** [runCode] returns: nothing is thrown out of it. *)
Lemma runCode_returns (D : gset string) (code : string) (files : list FileEntry)
  (s : State) :
  exists r s', runCode h D code files s = (inr r, s').
Proof.
  rewrite runCode_unfold.
  destruct (runCode_try h D code files _) as [[e|[]] s1]; unfold finish; eauto.
Qed.

Lemma writeInputFile_outputs (f : FileEntry) (s : State) :
  same_outputs s (snd (writeInputFile h f s)).
Proof.
  unfold writeInputFile, same_outputs.
  destruct (filename f) as [name|], (b64_data f) as [b64|];
    try (cbn; split; reflexivity).
  destruct (base64ToBytes b64) as [data|]; [|cbn; split; reflexivity].
  unfold FS_writeFile.
  destruct (FS.writeFile _ _ _); cbn; split; reflexivity.
Qed.

Lemma forEach_write_outputs (files : list FileEntry) (s : State) :
  same_outputs s (snd (forEach files (writeInputFile h) s)).
Proof.
  revert s. induction files as [|f files IH]; intros s; [split; reflexivity|].
  cbn [forEach]. unfold mbind, M_bind.
  pose proof (writeInputFile_outputs f s) as [H1 H2].
  destruct (writeInputFile h f s) as [[e|[]] s2]; cbn [snd] in *.
  - split; assumption.
  - destruct (IH s2) as [H3 H4]. split; congruence.
Qed.

Lemma bind_eq {A B} (m : M A) (k : A -> M B) (s : State) :
  (m ≫= k) s = match m s with
               | (inr a, s') => k a s'
               | (inl e, s') => (inl e, s')
               end.
Proof. reflexivity. Qed.

Lemma read_output_eq (f : string) (s : State) :
  read_output h f s =
  (match FS.readFile (fs s) f with
   | inl e => inl e
   | inr data =>
       match bytesToBase64 (max_arguments h) data with
       | Some b64 => inr {| out_filename := relative f; out_b64_data := b64 |}
       | None => inl RangeError
       end
   end, s).
Proof.
  unfold read_output. rewrite bind_eq. unfold readFileAsBase64.
  destruct (FS.readFile (fs s) f) as [e|data]; [reflexivity|].
  destruct (bytesToBase64 (max_arguments h) data); reflexivity.
Qed.

Lemma mapArr_read (l : list string) (s : State) :
  exists r, mapArr l (read_output h) s = (r, s)
            /\ forall outs, r = inr outs ->
                            List.map out_filename outs = List.map relative l.
Proof.
  induction l as [|f l (r & E & Hr)].
  - exists (inr []). split; [reflexivity|]. now intros outs [= <-].
  - cbn [mapArr]. rewrite bind_eq, read_output_eq.
    destruct (FS.readFile (fs s) f) as [e|data].
    + exists (inl e). split; [reflexivity | discriminate].
    + destruct (bytesToBase64 (max_arguments h) data) as [b64|].
      2: { exists (inl RangeError). split; [reflexivity | discriminate]. }
      rewrite bind_eq, E. destruct r as [e|outs'].
      * exists (inl e). split; [reflexivity | discriminate].
      * eexists. split; [reflexivity|]. intros outs [= <-].
        cbn [List.map out_filename]. f_equal. now apply Hr.
Qed.

(** The [try] block, stage by stage. *)
Lemma runCode_try_eq (D : gset string) (code : string) (files : list FileEntry)
  (s0 : State) :
  runCode_try h D code files s0 =
  let s1 := with_event (LoadPackagesFromImports code) s0 in
  match loadPackagesFromImports h code with
  | Some e => (inl e, s1)
  | None =>
      match forEach files (writeInputFile h) s1 with
      | (inl e, s2) => (inl e, s2)
      | (inr _, s2) =>
          let s3 := after_run h code s2 in
          match py_outcome (runPythonAsync h code (fs s2)) with
          | inl e => (inl e, s3)
          | inr interpreterResult =>
              match FS.lookup (fs s3) (FS.components pythonEnvironmentHomeDir) with
              | Some (Dir entries) =>
                  if readdir_throws D (Dir entries) then (inl FS.NotAFunction, s3)
                  else
                    match mapArr (new_paths D files entries) (read_output h) s3 with
                    | (inl e, s4) => (inl e, s4)
                    | (inr new_files, s4) =>
                        (inr tt,
                         with_result
                           (with_success true
                              (with_final_expression interpreterResult
                                 (with_output_files new_files (result s4)))) s4)
                    end
              | _ => (inl FS.ErrnoError, s3)
              end
          end
      end
  end.
Proof.
  unfold runCode_try. rewrite bind_eq. unfold py_loadPackagesFromImports.
  cbn zeta. destruct (loadPackagesFromImports h code); [reflexivity|].
  rewrite bind_eq.
  destruct (forEach files (writeInputFile h) _) as [[e|[]] s2]; [reflexivity|].
  rewrite bind_eq. unfold py_runPythonAsync. fold (after_run h code s2).
  destruct (py_outcome (runPythonAsync h code (fs s2))) as [e|v]; [reflexivity|].
  rewrite bind_eq. unfold listHome.
  destruct (FS.lookup (fs (after_run h code s2)) _) as [[contents|entries]|];
    try reflexivity.
  destruct (readdir_throws D (Dir entries)); reflexivity.
Qed.

(** When the [try] block throws, [output_files] and [final_expression]
    have not been assigned. *)
Lemma runCode_try_throws (D : gset string) (code : string)
  (files : list FileEntry) (s0 s1 : State) (e : JsError) :
  runCode_try h D code files s0 = (inl e, s1) -> same_outputs s0 s1.
Proof.
  rewrite runCode_try_eq. cbn zeta.
  destruct (loadPackagesFromImports h code).
  { intros [= _ <-]. split; reflexivity. }
  pose proof (forEach_write_outputs files
                (with_event (LoadPackagesFromImports code) s0)) as Hw.
  destruct (forEach files (writeInputFile h) _) as [[e2|[]] s2]; cbn [snd] in Hw.
  { intros [= _ <-]. exact Hw. }
  destruct (py_outcome (runPythonAsync h code (fs s2))) as [e3|v].
  { intros [= _ <-]. exact Hw. }
  destruct (FS.lookup (fs (after_run h code s2)) _) as [[contents|entries]|];
    try (intros [= _ <-]; exact Hw).
  destruct (readdir_throws D (Dir entries)); [intros [= _ <-]; exact Hw|].
  destruct (mapArr_read (new_paths D files entries) (after_run h code s2))
    as (r & E & _).
  rewrite E. destruct r; [intros [= _ <-]; exact Hw | discriminate].
Qed.

(** When the [try] block completes, the files it reports are the files of
    the home directory that are not input files, by their paths relative
    to the home directory. *)
Lemma runCode_try_completes (D : gset string) (code : string)
  (files : list FileEntry) (s0 s1 : State) :
  runCode_try h D code files s0 = (inr tt, s1) ->
  success (result s1) = true
  /\ exists entries outs,
       FS.lookup (fs s1) (FS.components pythonEnvironmentHomeDir) = Some (Dir entries)
       /\ output_files (result s1) = Some outs
       /\ List.map out_filename outs = List.map relative (new_paths D files entries).
Proof.
  rewrite runCode_try_eq. cbn zeta.
  destruct (loadPackagesFromImports h code); [discriminate|].
  destruct (forEach files (writeInputFile h) _) as [[e2|[]] s2]; [discriminate|].
  destruct (py_outcome (runPythonAsync h code (fs s2))) as [e3|v]; [discriminate|].
  destruct (FS.lookup (fs (after_run h code s2)) _) as [[contents|entries]|] eqn:El;
    try discriminate.
  destruct (readdir_throws D (Dir entries)); [discriminate|].
  destruct (mapArr_read (new_paths D files entries) (after_run h code s2))
    as (r & E & Hr).
  rewrite E. destruct r as [e|outs]; [discriminate|].
  intros [= <-]. split; [reflexivity|].
  exists entries, outs. cbn [fs result with_result output_files with_success
                              with_final_expression with_output_files].
  repeat split; [exact El | now apply Hr].
Qed.

End RunCodeFacts.

(** ** The output files *)

Section OutputFacts.

Variable h : Host.
Variable D : gset string.

Lemma runCode_output_files (code : string) (files : list FileEntry)
  (s s' : State) (r : CodeExecutionResponse) (outs : list OutputFile) :
  runCode h D code files s = (inr r, s') ->
  output_files r = Some outs ->
  exists entries,
    FS.lookup (fs s') (FS.components pythonEnvironmentHomeDir) = Some (Dir entries)
    /\ List.map out_filename outs = List.map relative (new_paths D files entries).
Proof.
  rewrite runCode_unfold.
  destruct (runCode_try h D code files _) as [[e|[]] s1] eqn:E;
    unfold finish; intros [= <- <-]; cbn [output_files with_std fs with_result with_tick].
  - apply runCode_try_throws in E as [E _].
    cbn [caught result with_result output_files with_success with_error].
    rewrite E. discriminate.
  - apply runCode_try_completes in E as (_ & entries & outs' & El & Eo & Em).
    rewrite Eo. intros [= <-]. eauto.
Qed.

Lemma includes_false (arr : list (option string)) (x : string) :
  Js.includes arr x = false -> ~ In (Some x) arr.
Proof.
  unfold Js.includes. intros H Hin.
  assert (Ht : existsb (fun y => match y with
                                 | Some y => String.eqb y x
                                 | None => false
                                 end) arr = true).
  { apply existsb_exists. exists (Some x). split; [exact Hin | apply String.eqb_refl]. }
  congruence.
Qed.

Lemma file_paths_nonempty (entries : list (string * node)) (names : list string) :
  In names (file_paths (Dir entries)) -> names <> [].
Proof.
  rewrite file_paths_Dir, in_flat_map. intros ([name x] & _ & Hin).
  apply in_map_iff in Hin as (rest & <- & _). discriminate.
Qed.

Lemma well_named_Dir (entries : list (string * node)) :
  well_named (Dir entries) = true <->
  Forall (fun e => is_name (fst e) = true /\ well_named (snd e) = true) entries.
Proof.
  cbn [well_named].
  induction entries as [|[name x] rest IH].
  - split; [constructor | reflexivity].
  - rewrite !andb_true_iff, IH. split.
    + intros [[H1 H2] H3]. constructor; [split|]; assumption.
    + intros H. inversion H as [|? ? [H1 H2] H3]; subst. repeat split; assumption.
Qed.

Lemma well_named_paths (d : node) :
  well_named d = true ->
  forall names, In names (file_paths d) -> Forall (fun n => is_name n = true) names.
Proof.
  induction d as [contents|entries IH] using node_induction; intros Hwf names Hin.
  - destruct Hin as [<-|[]]. constructor.
  - rewrite file_paths_Dir in Hin. apply in_flat_map in Hin as ([name x] & He & Hin).
    apply in_map_iff in Hin as (rest & <- & Hrest). cbn [fst snd] in *.
    apply well_named_Dir in Hwf.
    rewrite List.Forall_forall in IH, Hwf.
    destruct (Hwf _ He) as [Hn Hx]. constructor; [exact Hn|].
    apply (IH _ He Hx), Hrest.
Qed.

Lemma well_named_find (name : string) (entries : list (string * node)) (x : node) :
  well_named (Dir entries) = true -> FS.find name entries = Some x ->
  well_named x = true.
Proof.
  rewrite well_named_Dir.
  induction 1 as [|[n y] rest [_ Hy] _ IH]; cbn [FS.find]; [discriminate|].
  destruct (String.eqb n name); [now intros [= <-] | exact IH].
Qed.

Lemma well_named_lookup (parts : list string) (root x : node) :
  well_named root = true -> FS.lookup root parts = Some x -> well_named x = true.
Proof.
  revert root. induction parts as [|name parts IH]; intros root Hwf; cbn [FS.lookup].
  - now intros [= <-].
  - destruct root as [contents|entries]; [discriminate|].
    destruct (FS.find name entries) as [y|] eqn:E; [|discriminate].
    apply IH. eapply well_named_find; eassumption.
Qed.

Lemma relative_home (names : list string) :
  names <> [] ->
  relative (absolute (["home"; "earth"] ++ names)) = Js.join "/" names.
Proof. destruct names as [|n names]; [congruence | reflexivity]. Qed.

Lemma join_has_slash (n1 n2 : string) (rest : list string) :
  no_slash (Js.join "/" (n1 :: n2 :: rest)) = false.
Proof.
  rewrite join_cons. unfold no_slash.
  induction n1 as [|c n1 IH].
  - reflexivity.
  - change (String c n1 +:+ "/" +:+ Js.join "/" (n2 :: rest))
      with (String c (n1 +:+ "/" +:+ Js.join "/" (n2 :: rest))).
    cbn [list_ascii_of_string forallb]. rewrite IH. apply andb_false_r.
Qed.

(** A file reported by a completed run: where it lies in the tree and
    what its name is. *)
Lemma output_file_origin (code : string) (files : list FileEntry)
  (s s' : State) (r : CodeExecutionResponse) (outs : list OutputFile)
  (o : OutputFile) :
  runCode h D code files s = (inr r, s') ->
  output_files r = Some outs -> In o outs ->
  exists entries names,
    FS.lookup (fs s') (FS.components pythonEnvironmentHomeDir) = Some (Dir entries)
    /\ In names (file_paths (Dir entries))
    /\ forallb (listed D) names = true
    /\ out_filename o = relative (fold_left PATH.join2 names pythonEnvironmentHomeDir)
    /\ Js.includes (List.map filename files) (out_filename o) = false.
Proof.
  intros Hrun Hout Hin.
  destruct (runCode_output_files _ _ _ _ _ _ Hrun Hout) as (entries & El & Em).
  assert (Ho : In (out_filename o) (List.map out_filename outs))
    by (apply in_map, Hin).
  rewrite Em in Ho. apply in_map_iff in Ho as (f & Ef & Hf).
  unfold new_paths in Hf. apply filter_In in Hf as [Hf Hinc].
  apply negb_true_iff in Hinc.
  change (listFilesRecursive D pythonEnvironmentHomeDir (Dir entries))
    with (files_at D pythonEnvironmentHomeDir (Dir entries)) in Hf.
  rewrite files_at_paths in Hf. apply in_map_iff in Hf as (names & <- & Hn).
  apply filter_In in Hn as [Hn Hl].
  exists entries, names. rewrite <- Ef. repeat split; assumption.
Qed.

Lemma lookup_app (parts rest : list string) (root x : node) :
  FS.lookup root parts = Some x ->
  FS.lookup root (parts ++ rest) = FS.lookup x rest.
Proof.
  revert root. induction parts as [|name parts IH]; intros root; cbn [FS.lookup app].
  - now intros [= <-].
  - destruct root as [contents|entries]; [discriminate|].
    destruct (FS.find name entries) as [y|]; [apply IH | discriminate].
Qed.

(** The recursion of [listFilesRecursive] on the tree reads what the code
    reads by path: for a directory at the absolute path of the plain names
    [cs], [FS.readdir] lists the two markers and the names of its entries,
    unless one of them is named [hasOwnProperty], and [FS.stat] of the
    joined path of an entry finds the node of that entry. *)
Lemma listing_reads_the_tree (root : node) (cs : list string)
  (entries : list (string * node)) (name : string) (x : node) :
  Forall (fun c => plain c = true) cs -> plain name = true ->
  FS.lookup root cs = Some (Dir entries) ->
  FS.find name entries = Some x ->
  FS.readdir root (absolute cs)
  = (if FS.shadowed entries then inl FS.NotAFunction
     else inr ("." :: ".." :: List.map fst entries))
  /\ FS.lookup root (FS.components (PATH.join2 (absolute cs) name)) = Some x
  /\ FS.isDir root (PATH.join2 (absolute cs) name)
     = inr (match x with Dir _ => true | File _ => false end).
Proof.
  intros Hcs Hname Hl Hf.
  assert (Hnames : forall l, Forall (fun c => plain c = true) l ->
                             Forall (fun c => is_name c = true) l).
  { intros l Hpl. eapply List.Forall_impl; [|exact Hpl]. intros c Hc.
    unfold plain in Hc. now apply andb_prop in Hc as [Hc _]. }
  assert (Hlook : FS.lookup root (FS.components (PATH.join2 (absolute cs) name))
                  = Some x).
  { rewrite join2_plain by assumption.
    rewrite components_absolute
      by (apply Hnames, Forall_app; split; [exact Hcs | now constructor]).
    rewrite (lookup_app _ _ _ _ Hl). cbn [FS.lookup]. now rewrite Hf. }
  split; [|split].
  - unfold FS.readdir. rewrite components_absolute by (apply Hnames, Hcs).
    now rewrite Hl.
  - exact Hlook.
  - unfold FS.isDir. rewrite Hlook. destruct x; reflexivity.
Qed.

End OutputFacts.

Section DefaultNames.

Lemma split_parts_no_slash (s : string) :
  Forall (fun part => no_slash part = true) (Js.split slash s).
Proof.
  induction s as [|c s IH]; cbn [Js.split].
  - repeat constructor.
  - destruct (Ascii.eqb c slash) eqn:Ec.
    + constructor; [reflexivity | exact IH].
    + destruct (Js.split slash s) as [|part parts].
      * constructor; [|constructor]. unfold no_slash.
        cbn [list_ascii_of_string forallb]. now rewrite Ec.
      * inversion IH as [|? ? Hp Hps]; subst. constructor; [|exact Hps].
        unfold no_slash in *. cbn [list_ascii_of_string forallb]. now rewrite Ec, Hp.
Qed.

Lemma basename_no_slash (path : string) : no_slash (NodePath.basename path) = true.
Proof.
  unfold NodePath.basename. change "/"%char with slash.
  pose proof (split_parts_no_slash path) as H.
  assert (Hf : Forall (fun part => no_slash part = true)
                      (List.filter PATH.nonempty (Js.split slash path))).
  { apply List.Forall_forall. intros part Hin. apply filter_In in Hin as [Hin _].
    rewrite List.Forall_forall in H. now apply H. }
  induction Hf as [|part parts Hp Hps IH]; [reflexivity|].
  destruct parts; [exact Hp | exact IH].
Qed.

(** The default file names are base names. *)
Lemma prepareEnvironment_base_names (seed : list (string * list byte)) :
  forall env,
    (forall n, n ∈ default_file_names env -> no_slash n = true) ->
    forall n, n ∈ default_file_names (prepareEnvironment seed env) ->
              no_slash n = true.
Proof.
  unfold prepareEnvironment.
  induction seed as [|file seed IH]; intros env Henv; [exact Henv|].
  cbn [fold_left]. apply IH. cbn [default_file_names].
  intros n Hn. apply elem_of_union in Hn as [Hn|Hn]; [now apply Henv|].
  apply elem_of_singleton in Hn. subst n. apply basename_no_slash.
Qed.

(** The name of a reported file is the names on the way to it, joined by
    ["/"]; none of them is a directory marker or a default file name. *)
Lemma output_file_name h (D : gset string) code files s r s' outs o :
  runCode h D code files s = (inr r, s') ->
  well_named (fs s') = true ->
  output_files r = Some outs -> In o outs ->
  exists names,
    out_filename o = Js.join "/" names
    /\ names <> []
    /\ Forall (fun n => is_name n = true) names
    /\ forallb (listed D) names = true
    /\ Js.includes (List.map filename files) (out_filename o) = false.
Proof.
  intros Hrun Hwf Hout Hin.
  destruct (output_file_origin h D _ _ _ _ _ _ _ Hrun Hout Hin)
    as (entries & names & El & Hn & Hl & Ho & Hinc).
  assert (Hnames : Forall (fun n => is_name n = true) names).
  { eapply well_named_paths; [|exact Hn].
    eapply well_named_lookup; eassumption. }
  assert (Hplain : Forall (fun n => plain n = true) names).
  { apply List.Forall_forall. intros n Hnin.
    rewrite List.Forall_forall in Hnames. rewrite forallb_forall in Hl.
    unfold plain. rewrite (Hnames _ Hnin). cbn [andb].
    specialize (Hl _ Hnin). unfold listed in Hl.
    now apply andb_prop in Hl as [Hl _]. }
  assert (Hne : names <> []) by (eapply file_paths_nonempty; eassumption).
  change pythonEnvironmentHomeDir with (absolute ["home"; "earth"]) in Ho.
  rewrite fold_join2_plain in Ho; [|repeat constructor|exact Hplain].
  rewrite relative_home in Ho by exact Hne.
  exists names. repeat split; assumption.
Qed.

Lemma output_names_excluded h (D : gset string) code files s r s' outs o :
  (forall n, n ∈ D -> no_slash n = true) ->
  runCode h D code files s = (inr r, s') ->
  well_named (fs s') = true ->
  output_files r = Some outs -> In o outs ->
  (out_filename o ∉ D)
  /\ ~ In (Some (out_filename o)) (List.map filename files).
Proof.
  intros HD Hrun Hwf Hout Hin.
  destruct (output_file_name h D _ _ _ _ _ _ _ Hrun Hwf Hout Hin)
    as (names & Ho & Hne & _ & Hl & Hinc).
  split; [|apply includes_false, Hinc].
  rewrite Ho. rewrite forallb_forall in Hl.
  destruct names as [|n1 [|n2 rest]].
  - congruence.
  - cbn [Js.join String.concat].
    apply listed_not_default, Hl. left. reflexivity.
  - intros HinD. apply HD in HinD. rewrite join_has_slash in HinD. discriminate.
Qed.

End DefaultNames.

(** C10. The exclusion of the default file names works on the name of
    every entry at every depth: listing with the exclusion is listing the
    tree from which every entry with a default name, file or directory with
    all below it, is removed; the listed files are those reached through
    listed names only; and every file a run reports lies in the home
    directory on a way without any default name, so that, the entries
    having names without ["/"], no component of a reported file name is a
    default file name. *)
Theorem default_names_excluded_at_every_depth (D : gset string) :
  (forall dir entries,
      listFilesRecursive D dir (Dir entries)
      = listFilesRecursive ∅ dir (prune D (Dir entries)))
  /\ (forall dir entries,
        listFilesRecursive D dir (Dir entries)
        = List.map (fun names => fold_left PATH.join2 names dir)
                   (List.filter (forallb (listed D)) (file_paths (Dir entries))))
  /\ (forall h code files s r s' outs o,
        runCode h D code files s = (inr r, s') ->
        output_files r = Some outs -> In o outs ->
        exists entries names,
          FS.lookup (fs s') (FS.components pythonEnvironmentHomeDir)
            = Some (Dir entries)
          /\ In names (file_paths (Dir entries))
          /\ Forall (fun n => n ∉ D) names
          /\ out_filename o
             = relative (fold_left PATH.join2 names pythonEnvironmentHomeDir))
  /\ (forall h code files s r s' outs o,
        runCode h D code files s = (inr r, s') ->
        well_named (fs s') = true ->
        output_files r = Some outs -> In o outs ->
        exists names,
          out_filename o = Js.join "/" names
          /\ names <> []
          /\ Forall (fun n => is_name n = true /\ n ∉ D) names).
Proof.
  split; [|split; [|split]].
  - intros dir entries.
    pose proof (files_at_prune D (Dir entries) dir) as H.
    rewrite prune_Dir in *. exact H.
  - intros dir entries. exact (files_at_paths D (Dir entries) dir).
  - intros h code files s r s' outs o Hrun Hout Hin.
    destruct (output_file_origin h D _ _ _ _ _ _ _ Hrun Hout Hin)
      as (entries & names & El & Hn & Hl & Ho & _).
    exists entries, names. repeat split; try assumption.
    rewrite forallb_forall in Hl. apply List.Forall_forall.
    intros n Hnin. apply listed_not_default, Hl, Hnin.
  - intros h code files s r s' outs o Hrun Hwf Hout Hin.
    destruct (output_file_name h D _ _ _ _ _ _ _ Hrun Hwf Hout Hin)
      as (names & Ho & Hne & Hnames & Hl & _).
    exists names. repeat split; try assumption.
    rewrite forallb_forall in Hl. rewrite List.Forall_forall in Hnames.
    apply List.Forall_forall. intros n Hnin.
    split; [apply Hnames, Hnin | apply listed_not_default, Hl, Hnin].
Qed.

Lemma default_names_excluded_witness :
  output_files (response_of sub_run)
  = Some [{| out_filename := "sub/out.txt"; out_b64_data := "eQ==" |}]
  /\ (exists entries names,
        FS.lookup (fs (snd sub_run)) (FS.components pythonEnvironmentHomeDir)
          = Some (Dir entries)
        /\ In names (file_paths (Dir entries))
        /\ Forall (fun n => n ∉ seeded_names) names
        /\ "sub/out.txt"
           = relative (fold_left PATH.join2 names pythonEnvironmentHomeDir))
  /\ (exists names,
        "sub/out.txt" = Js.join "/" names
        /\ names <> []
        /\ Forall (fun n => is_name n = true /\ n ∉ seeded_names) names).
Proof.
  split; [vm_compute; reflexivity | split].
  - apply (proj1 (proj2 (proj2 (default_names_excluded_at_every_depth seeded_names)))
             (example_host sub_effect (inr None)) "import os" []
             (fresh_state seeded_root "" "") (response_of sub_run) (snd sub_run)
             [{| out_filename := "sub/out.txt"; out_b64_data := "eQ==" |}]
             {| out_filename := "sub/out.txt"; out_b64_data := "eQ==" |}).
    + vm_compute. reflexivity.
    + vm_compute. reflexivity.
    + left. reflexivity.
  - apply (proj2 (proj2 (proj2 (default_names_excluded_at_every_depth seeded_names)))
             (example_host sub_effect (inr None)) "import os" []
             (fresh_state seeded_root "" "") (response_of sub_run) (snd sub_run)
             [{| out_filename := "sub/out.txt"; out_b64_data := "eQ==" |}]
             {| out_filename := "sub/out.txt"; out_b64_data := "eQ==" |}).
    + vm_compute. reflexivity.
    + vm_compute. reflexivity.
    + vm_compute. reflexivity.
    + left. reflexivity.
Defined.

(** C7. The files a run reports never have a name that is a default file
    name, as [prepareEnvironment] collects them from the seed directory,
    or the file name of an input entry; the entries of the interpreter's
    file system have names without ["/"]. With the input file ["a.txt"]
    and the seed file ["seed.txt"], a program that creates ["b.txt"] has
    exactly ["b.txt"] reported. *)
Theorem output_files_exclude_defaults_and_inputs :
  (forall h seed code files s r s' outs o,
      let D := default_file_names (prepareEnvironment seed new_environment) in
      runCode h D code files s = (inr r, s') ->
      well_named (fs s') = true ->
      output_files r = Some outs -> In o outs ->
      (out_filename o ∉ D)
      /\ ~ In (Some (out_filename o)) (List.map filename files))
  /\ fst exclusion_run
     = inr {| success := true; final_expression := Some (PyNumber 2);
              output_files :=
                Some [{| out_filename := "b.txt"; out_b64_data := "Qg==" |}];
              error := None; std_out := Some ""; std_err := Some "";
              code_runtime := Some 16%Z |}.
Proof.
  split; [|vm_compute; reflexivity].
  intros h seed code files s r s' outs o D. apply output_names_excluded.
  apply prepareEnvironment_base_names. intros n Hn. cbn in Hn. set_solver.
Qed.

Lemma output_files_exclude_witness :
  ("b.txt" ∉ seeded_names)
  /\ ~ In (Some "b.txt")
          (List.map filename [{| filename := Some "a.txt"; b64_data := Some "QQ==" |}]).
Proof.
  apply (proj1 output_files_exclude_defaults_and_inputs
           (example_host (creates "/home/earth/b.txt" ["B"%byte])
                         (inr (Some (PyNumber 2))))
           seeded_files "1 + 1"
           [{| filename := Some "a.txt"; b64_data := Some "QQ==" |}]
           (fresh_state seeded_root "" "") (response_of exclusion_run)
           (snd exclusion_run)
           [{| out_filename := "b.txt"; out_b64_data := "Qg==" |}]
           {| out_filename := "b.txt"; out_b64_data := "Qg==" |}).
  - vm_compute. reflexivity.
  - vm_compute. reflexivity.
  - vm_compute. reflexivity.
  - left. reflexivity.
Defined.

(** ** The result of [runCode] *)

Section ResultFacts.

Variable h : Host.

Lemma writeInputFile_complete (f : FileEntry) (s : State) :
  complete f -> result (snd (writeInputFile h f s)) = result s.
Proof.
  intros [Hn Hb]. unfold writeInputFile.
  destruct (filename f) as [name|]; [|congruence].
  destruct (b64_data f) as [b64|]; [|congruence].
  destruct (base64ToBytes b64) as [data|]; [|reflexivity].
  unfold FS_writeFile. destruct (FS.writeFile _ _ _); reflexivity.
Qed.

Lemma forEach_write_complete (files : list FileEntry) (s : State) :
  Forall complete files ->
  result (snd (forEach files (writeInputFile h) s)) = result s.
Proof.
  intros H. revert s. induction H as [|f files Hf _ IH]; intros s; [reflexivity|].
  cbn [forEach]. rewrite bind_eq.
  pose proof (writeInputFile_complete f s Hf) as E.
  destruct (writeInputFile h f s) as [[e|[]] s2]; cbn [snd] in *; [exact E|].
  now rewrite IH.
Qed.

(** When every entry is complete, the result has an error exactly when it
    is not a success. *)
Lemma complete_entries_one_of (D : gset string) (code : string)
  (files : list FileEntry) (s : State) :
  Forall complete files ->
  let r := response_of (runCode h D code files s) in
  (success r = true /\ error r = None) \/ (success r = false /\ error r <> None).
Proof.
  intros Hc. rewrite runCode_unfold.
  destruct (runCode_try h D code files _) as [[e|[]] s1] eqn:E.
  - right. cbn. split; [reflexivity | discriminate].
  - left. revert E. rewrite runCode_try_eq. cbn zeta.
    destruct (loadPackagesFromImports h code); [discriminate|].
    pose proof (forEach_write_complete files
                  (with_event (LoadPackagesFromImports code)
                     (with_result initial_result (with_tick s))) Hc) as Hr.
    destruct (forEach files (writeInputFile h) _) as [[e2|[]] s2]; [discriminate|].
    cbn [snd] in Hr.
    destruct (py_outcome (runPythonAsync h code (fs s2))) as [e3|v]; [discriminate|].
    destruct (FS.lookup (fs (after_run h code s2)) _) as [[contents|entries]|];
      try discriminate.
    destruct (readdir_throws D (Dir entries)); [discriminate|].
    destruct (mapArr_read h (new_paths D files entries) (after_run h code s2))
      as (r & Em & _).
    rewrite Em. destruct r as [e|outs]; [discriminate|].
    intros [= <-]. unfold response_of, finish. cbn. rewrite Hr. split; reflexivity.
Qed.

End ResultFacts.

(** C1 (the code differs). A request with an entry that lacks its
    [filename], whose code then runs well, gets a result with
    [success = true] and the ["parsing"] error together. *)
Theorem malformed_entry_success_and_error :
  let r :=
    {| success := true; final_expression := Some (PyNumber 2);
       output_files := Some [];
       error := Some {| error_type := Some "parsing";
                        error_message :=
                          "file data is missing for: {" +:+ Js.dquote
                            +:+ "b64_data" +:+ Js.dquote +:+ ":" +:+ Js.dquote
                            +:+ "QQ==" +:+ Js.dquote +:+ "}" |};
       std_out := Some ""; std_err := Some ""; code_runtime := Some 16%Z |} in
  fst malformed_run = inr r
  /\ written (post plain_host seeded_environment (loaded seeded_root)
                {| req_code := Some "1 + 1";
                   req_files := Some [nameless_entry; a_txt] |})
     = [r].
Proof. vm_compute. split; reflexivity. Qed.

(** The answer to [{"code": "1 + 1"}]: a success with the value 2, no
    files and no error. *)
Example one_plus_one_answer :
  written (post plain_host seeded_environment (loaded seeded_root) one_plus_one)
  = [{| success := true; final_expression := Some (PyNumber 2);
        output_files := Some []; error := None;
        std_out := Some ""; std_err := Some ""; code_runtime := Some 16%Z |}].
Proof. vm_compute. reflexivity. Qed.

(** C2 (the code differs). After the entry that lacks its [filename], the
    next entry is still written into the file system and the code is run
    by the interpreter; the result is a success with the value of the
    code. *)
Theorem malformed_entry_does_not_abort :
  trace (snd malformed_run)
  = [LoadPackagesFromImports "1 + 1";
     WriteFile "/home/earth/a.txt" ["A"%byte];
     RunPythonAsync "1 + 1"]
  /\ FS.readFile (fs (snd malformed_run)) "/home/earth/a.txt" = inr ["A"%byte]
  /\ success (response_of malformed_run) = true
  /\ final_expression (response_of malformed_run) = Some (PyNumber 2).
Proof. vm_compute. repeat split; reflexivity. Qed.

(** ** The loop over the input files and the state of a run *)

Section RunFacts.

Variable h : Host.

(** What the loop over the input files leaves alone. *)
Lemma writeInputFile_frame (f : FileEntry) (s : State) :
  let s' := snd (writeInputFile h f s) in
  out_string s' = out_string s /\ err_string s' = err_string s
  /\ ticks s' = ticks s.
Proof.
  unfold writeInputFile.
  destruct (filename f) as [name|], (b64_data f) as [b64|];
    try (cbn; repeat split; reflexivity).
  destruct (base64ToBytes b64) as [data|]; [|cbn; repeat split; reflexivity].
  unfold FS_writeFile.
  destruct (FS.writeFile _ _ _); cbn; repeat split; reflexivity.
Qed.

Lemma forEach_write_frame (files : list FileEntry) (s : State) :
  let s' := snd (forEach files (writeInputFile h) s) in
  out_string s' = out_string s /\ err_string s' = err_string s
  /\ ticks s' = ticks s.
Proof.
  revert s. induction files as [|f files IH]; intros s; [repeat split; reflexivity|].
  cbn [forEach]. rewrite bind_eq.
  pose proof (writeInputFile_frame f s) as (H1 & H2 & H3). cbn zeta in *.
  destruct (writeInputFile h f s) as [[e|[]] s2]; cbn [snd] in *.
  - repeat split; assumption.
  - destruct (IH s2) as (H4 & H5 & H6). cbn zeta in *.
    repeat split; congruence.
Qed.

Lemma input_writes_cons (f : FileEntry) (files : list FileEntry) :
  input_writes (f :: files)
  = match filename f, b64_data f with
    | Some name, Some b64 =>
        match base64ToBytes b64 with
        | Some data => (name, data) :: input_writes files
        | None => input_writes files
        end
    | _, _ => input_writes files
    end.
Proof.
  unfold input_writes. cbn.
  destruct (filename f), (b64_data f); try reflexivity.
  destruct (base64ToBytes _); reflexivity.
Qed.

(** The calls of the loop over the input files. *)
Lemma forEach_write_trace (files : list FileEntry) (s : State) :
  exists ws,
    (ws `prefix_of` input_writes files)
    /\ trace (snd (forEach files (writeInputFile h) s))
       = trace s ++ List.map write_event ws
    /\ (forall s2, forEach files (writeInputFile h) s = (inr tt, s2) ->
                   ws = input_writes files).
Proof.
  revert s. induction files as [|f files IH]; intros s.
  - exists []. split; [reflexivity|]. split; [cbn; now rewrite app_nil_r | reflexivity].
  - cbn [forEach]. rewrite bind_eq, input_writes_cons.
    destruct (writeInputFile h f s) as [[e|[]] s1] eqn:EW; cbn [snd].
    + unfold writeInputFile in EW.
      destruct (filename f) as [name|]; [destruct (b64_data f) as [b64|]|];
        try discriminate EW.
      destruct (base64ToBytes b64) as [data|].
      * unfold FS_writeFile in EW. cbn zeta in EW.
        destruct (FS.writeFile _ _ data) as [e'|root]; [|discriminate EW].
        injection EW as _ <-.
        exists [(name, data)]. split; [|split].
        -- exists (input_writes files). reflexivity.
        -- reflexivity.
        -- discriminate.
      * injection EW as _ <-.
        exists []. split; [apply prefix_nil|]. split; [cbn; now rewrite app_nil_r|].
        discriminate.
    + destruct (IH s1) as (ws & Hp & Ht & Hall).
      unfold writeInputFile in EW.
      destruct (filename f) as [name|]; [destruct (b64_data f) as [b64|]|].
      * destruct (base64ToBytes b64) as [data|]; [|discriminate EW].
        unfold FS_writeFile in EW. cbn zeta in EW.
        destruct (FS.writeFile _ _ data) as [e'|root]; [discriminate EW|].
        injection EW as <-.
        exists ((name, data) :: ws). split; [|split].
        -- now apply prefix_cons.
        -- rewrite Ht. cbn. now rewrite <- app_assoc.
        -- intros s2 E. f_equal. now apply (Hall s2).
      * injection EW as <-.
        exists ws. split; [exact Hp|]. split; [exact Ht | exact Hall].
      * injection EW as <-.
        exists ws. split; [exact Hp|]. split; [exact Ht | exact Hall].
Qed.

(** The state the [try] statement leaves, when the interpreter is reached
    and when it is not. *)
Lemma runCode_try_frame (D : gset string) (code : string) (files : list FileEntry)
  (s : State) :
  let s0 := with_result initial_result (with_tick s) in
  let s1 := snd (runCode_try h D code files s0) in
  ticks s1 = S (ticks s)
  /\ match before_run h code files s with
     | Some s2 =>
         let run := runPythonAsync h code (fs s2) in
         out_string s1 = out_string s +:+ stream_text (py_stdout run)
         /\ err_string s1 = err_string s +:+ stream_text (py_stderr run)
     | None => out_string s1 = out_string s /\ err_string s1 = err_string s
     end
  /\ match loadPackagesFromImports h code with
     | Some _ => trace s1 = trace s ++ [LoadPackagesFromImports code]
     | None =>
         trace s1
         = trace (snd (forEach files (writeInputFile h)
                         (with_event (LoadPackagesFromImports code) s0)))
             ++ match before_run h code files s with
                | Some _ => [RunPythonAsync code]
                | None => []
                end
     end.
Proof.
  cbn zeta. rewrite runCode_try_eq. unfold before_run. cbn zeta.
  destruct (loadPackagesFromImports h code) as [e|] eqn:El.
  { cbn. repeat split; reflexivity. }
  pose proof (forEach_write_frame files
                (with_event (LoadPackagesFromImports code)
                   (with_result initial_result (with_tick s)))) as (Ho & He & Ht).
  cbn zeta in *.
  destruct (forEach files (writeInputFile h) _) as [[e2|[]] s2]; cbn [snd] in *.
  { cbn in *. rewrite app_nil_r. repeat split; assumption. }
  assert (Hafter : ticks (after_run h code s2) = S (ticks s)
                   /\ (out_string (after_run h code s2)
                       = out_string s
                           +:+ stream_text (py_stdout (runPythonAsync h code (fs s2)))
                       /\ err_string (after_run h code s2)
                          = err_string s
                              +:+ stream_text (py_stderr (runPythonAsync h code (fs s2))))
                   /\ trace (after_run h code s2) = trace s2 ++ [RunPythonAsync code]).
  { unfold after_run, stream_text. cbn in *. rewrite Ho, He, Ht.
    repeat split; reflexivity. }
  destruct (py_outcome (runPythonAsync h code (fs s2))) as [e3|v].
  { cbn [snd]. exact Hafter. }
  destruct (FS.lookup (fs (after_run h code s2)) _) as [[contents|entries]|];
    try (cbn [snd]; exact Hafter).
  destruct (readdir_throws D (Dir entries)); [cbn [snd]; exact Hafter|].
  destruct (mapArr_read h (new_paths D files entries) (after_run h code s2))
    as (r & E & _).
  rewrite E. destruct r as [e|outs]; cbn [snd]; exact Hafter.
Qed.

End RunFacts.

(** ** Input files *)

Section InputFacts.

(** A file name that starts with [".."] leaves the home directory. *)
Lemma join2_parent (name : string) :
  plain name = true ->
  PATH.join2 pythonEnvironmentHomeDir ("../" +:+ name) = "/home/" +:+ name.
Proof.
  intros Hp.
  assert (Hn : is_name name = true).
  { unfold plain in Hp. now apply andb_prop in Hp as [Hn _]. }
  assert (Hdots : String.eqb name "." = false /\ String.eqb name ".." = false).
  { unfold plain in Hp. apply andb_prop in Hp as [_ Hp].
    now apply negb_true_iff, orb_false_iff in Hp. }
  destruct Hdots as [Hd1 Hd2].
  unfold PATH.join2, PATH.normalize.
  assert (Hc : List.filter PATH.nonempty
                 (Js.split "/" (pythonEnvironmentHomeDir +:+ "/" +:+ "../" +:+ name))
               = ["home"; "earth"; ".."; name]).
  { change (List.filter PATH.nonempty (Js.split "/" ?p)) with (FS.components p).
    change ("../" +:+ name) with (".." +:+ "/" +:+ name).
    rewrite !components_append, (components_name _ Hn). reflexivity. }
  rewrite Hc.
  assert (Ha : PATH.normalizeArray ["home"; "earth"; ".."; name] false
               = ["home"; name]).
  { unfold PATH.normalizeArray. cbn [fold_right]. unfold PATH.scan at 4.
    rewrite Hd1, Hd2. reflexivity. }
  change (PATH.isAbs (pythonEnvironmentHomeDir +:+ "/" +:+ "../" +:+ name)) with true.
  cbn [negb]. rewrite Ha, andb_false_r.
  assert (Hend : PATH.ends_with_slash
                   (pythonEnvironmentHomeDir +:+ "/" +:+ "../" +:+ name) = false).
  { change (pythonEnvironmentHomeDir +:+ "/" +:+ "../" +:+ name)
      with ("/home/earth/../" +:+ name).
    rewrite ends_with_slash_append by (apply is_name_nonempty, Hn).
    apply ends_with_slash_name, is_name_no_slash, Hn. }
  rewrite Hend, andb_false_r. reflexivity.
Qed.

Lemma writeInputFile_written h (f : FileEntry) (name b64 : string)
  (data : list byte) (s : State) :
  filename f = Some name -> b64_data f = Some b64 ->
  base64ToBytes b64 = Some data ->
  writeInputFile h f s = FS_writeFile (PATH.join2 pythonEnvironmentHomeDir name) data s.
Proof. intros Hn Hb Hd. unfold writeInputFile. now rewrite Hn, Hb, Hd. Qed.

Lemma trace_finish h (s s1 : State) : trace (snd (finish h s s1)) = trace s1.
Proof. reflexivity. Qed.

Lemma forEach_app {A} (l1 l2 : list A) (f : A -> M unit) (s : State) :
  forEach (l1 ++ l2) f s
  = match forEach l1 f s with
    | (inr _, s') => forEach l2 f s'
    | (inl e, s') => (inl e, s')
    end.
Proof.
  revert s. induction l1 as [|x l1 IH]; intros s; [reflexivity|].
  cbn [app forEach]. rewrite !bind_eq.
  destruct (f x s) as [[e|[]] s']; [reflexivity | apply IH].
Qed.

Lemma trace_runCode h (D : gset string) (code : string) (files : list FileEntry)
  (s : State) :
  trace (snd (runCode h D code files s))
  = trace (snd (runCode_try h D code files
                  (with_result initial_result (with_tick s)))).
Proof.
  rewrite runCode_unfold.
  destruct (runCode_try h D code files _) as [[e|[]] s1]; reflexivity.
Qed.

(** When the loop over the input files reaches an entry that has a file
    name and a payload that decodes, the write at the joined path is
    among the calls of the run. *)
Lemma runCode_writes_reached_entry h (D : gset string) (code : string)
  (before after : list FileEntry) (f : FileEntry) (name b64 : string)
  (data : list byte) (s s2 : State) :
  filename f = Some name -> b64_data f = Some b64 ->
  base64ToBytes b64 = Some data ->
  before_run h code before s = Some s2 ->
  In (WriteFile (PATH.join2 pythonEnvironmentHomeDir name) data)
     (trace (snd (runCode h D code (before ++ f :: after) s))).
Proof.
  intros Hn Hb Hd Hreach. rewrite trace_runCode.
  pose proof (runCode_try_frame h D code (before ++ f :: after) s) as (_ & _ & Ht).
  cbn zeta in Ht. unfold before_run in Hreach.
  destruct (loadPackagesFromImports h code); [discriminate|].
  rewrite Ht. apply in_or_app. left.
  rewrite forEach_app.
  destruct (forEach before (writeInputFile h) _) as [[e|[]] s2'];
    [discriminate|]. injection Hreach as ->.
  cbn [forEach]. rewrite bind_eq.
  rewrite (writeInputFile_written h f name b64 data s2 Hn Hb Hd).
  unfold FS_writeFile. cbn zeta.
  destruct (FS.writeFile _ _ data) as [e|root]; cbn [snd].
  - cbn [trace with_event]. apply in_or_app. right. left. reflexivity.
  - match goal with
    | |- context [forEach after _ ?s3] =>
        destruct (forEach_write_trace h after s3) as (ws & _ & -> & _)
    end.
    apply in_or_app. left. cbn [trace with_fs with_event].
    apply in_or_app. right. left. reflexivity.
Qed.

End InputFacts.

(** C3, as the code has it. No file name is checked or rejected. Whenever
    the loop over the input files reaches an entry that has a file name
    and a payload that decodes, that is, the packages of the code have
    loaded and no entry before it has made the loop throw, [runCode]
    calls [FS.writeFile] with the decoded bytes at
    [PATH.join2(home, filename)], whatever the file name. A file name
    [../name] is the path [/home/name], outside the home directory, and
    [FS.writeFile] is called there. *)
Theorem input_file_written_at_joined_path :
  (forall h f name b64 data s,
      filename f = Some name -> b64_data f = Some b64 ->
      base64ToBytes b64 = Some data ->
      writeInputFile h f s
      = FS_writeFile (PATH.join2 pythonEnvironmentHomeDir name) data s)
  /\ (forall h (D : gset string) code before after f name b64 data s s2,
        filename f = Some name -> b64_data f = Some b64 ->
        base64ToBytes b64 = Some data ->
        before_run h code before s = Some s2 ->
        In (WriteFile (PATH.join2 pythonEnvironmentHomeDir name) data)
           (trace (snd (runCode h D code (before ++ f :: after) s))))
  /\ (forall name,
        plain name = true ->
        PATH.join2 pythonEnvironmentHomeDir ("../" +:+ name) = "/home/" +:+ name)
  /\ (forall h (D : gset string) code before after name b64 data s s2,
        plain name = true -> base64ToBytes b64 = Some data ->
        before_run h code before s = Some s2 ->
        In (WriteFile ("/home/" +:+ name) data)
           (trace (snd (runCode h D code
                          (before ++ {| filename := Some ("../" +:+ name);
                                        b64_data := Some b64 |} :: after) s)))).
Proof.
  split; [exact writeInputFile_written|].
  split; [exact runCode_writes_reached_entry|].
  split; [exact join2_parent|].
  intros h D code before after name b64 data s s2 Hp Hd Hreach.
  rewrite <- (join2_parent _ Hp).
  exact (runCode_writes_reached_entry h D code before after
           {| filename := Some ("../" +:+ name); b64_data := Some b64 |}
           ("../" +:+ name) b64 data s s2 eq_refl eq_refl Hd Hreach).
Qed.

Lemma input_file_written_witness :
  In (WriteFile "/home/x.txt" ["A"%byte])
     (trace (snd (runCode plain_host seeded_names "1 + 1"
                    ([a_txt] ++ {| filename := Some "../x.txt";
                                   b64_data := Some "QQ==" |} :: [a_txt])
                    (fresh_state seeded_root "" "")))).
Proof.
  apply (proj2 (proj2 (proj2 input_file_written_at_joined_path))
           plain_host seeded_names "1 + 1" [a_txt] [a_txt] "x.txt" "QQ=="
           ["A"%byte] (fresh_state seeded_root "" "")
           (default (fresh_state seeded_root "" "")
              (before_run plain_host "1 + 1" [a_txt]
                 (fresh_state seeded_root "" "")))).
  - vm_compute. reflexivity.
  - vm_compute. reflexivity.
  - vm_compute. reflexivity.
Defined.

(** C3 as stated fails: the entry named ["../x.txt"] is not rejected; the
    run succeeds without an error and the file is in [/home], not in the
    home directory. *)
Lemma escaping_filename_is_written :
  fst escaping_run
  = inr {| success := true; final_expression := Some (PyNumber 2);
           output_files := Some []; error := None;
           std_out := Some ""; std_err := Some ""; code_runtime := Some 16%Z |}
  /\ FS.readFile (fs (snd escaping_run)) "/home/x.txt" = inr ["A"%byte]
  /\ FS.readFile (fs (snd escaping_run)) "/home/earth/x.txt" = inl FS.ErrnoError
  /\ trace (snd escaping_run)
     = [LoadPackagesFromImports "1 + 1"; WriteFile "/home/x.txt" ["A"%byte];
        RunPythonAsync "1 + 1"].
Proof. vm_compute. repeat split; reflexivity. Qed.

(** C4, as the code has it. When the [try] block throws, the result has
    [success = false] and the error with the type of the thrown value and
    its enriched message; [output_files] and [final_expression] are
    absent. *)
Theorem failure_result h (D : gset string) (code : string)
  (files : list FileEntry) (s s1 : State) (e : JsError) :
  runCode_try h D code files (with_result initial_result (with_tick s)) = (inl e, s1) ->
  let r := response_of (runCode h D code files s) in
  success r = false
  /\ error r = Some {| error_type := err_type e;
                       error_message := enrich code (err_text e) |}
  /\ output_files r = None
  /\ final_expression r = None.
Proof.
  intros E. rewrite runCode_unfold, E.
  apply runCode_try_throws in E as [E1 E2].
  unfold response_of, finish. cbn. rewrite E1, E2. repeat split; reflexivity.
Qed.

Lemma failure_result_witness :
  success (response_of failing_run) = false
  /\ error (response_of failing_run)
     = Some {| error_type := Some "ZeroDivisionError";
               error_message := enrich failing_code (err_text ZeroDivisionError) |}
  /\ output_files (response_of failing_run) = None
  /\ final_expression (response_of failing_run) = None.
Proof.
  apply (failure_result
           (example_host (creates "/home/earth/partial.txt" ["p"%byte])
                         (inl ZeroDivisionError))
           seeded_names failing_code [] (fresh_state seeded_root "" "")
           (snd (runCode_try
                   (example_host (creates "/home/earth/partial.txt" ["p"%byte])
                                 (inl ZeroDivisionError))
                   seeded_names failing_code []
                   (with_result initial_result
                      (with_tick (fresh_state seeded_root "" "")))))
           ZeroDivisionError).
  vm_compute. reflexivity.
Defined.

(** C4 as stated fails: the program wrote ["partial.txt"] before it
    failed, the file is in the home directory, and the result has no
    [output_files]. *)
Lemma failed_run_without_output_files :
  FS.readFile (fs (snd failing_run)) "/home/earth/partial.txt" = inr ["p"%byte]
  /\ output_files (response_of failing_run) = None
  /\ success (response_of failing_run) = false.
Proof. vm_compute. repeat split; reflexivity. Qed.

(** ** The request handler *)

Section ServerFacts.

Variable h : Host.

Lemma wait_loop_exhausted (pyodide_at : nat -> option node) (remaining : nat) :
  (forall k, (k <= 100)%nat -> pyodide_at k = None) ->
  wait_loop pyodide_at remaining = 100%nat.
Proof.
  intros Hnone. induction remaining as [|remaining IH]; [reflexivity|].
  cbn [wait_loop]. rewrite Hnone by lia. exact IH.
Qed.

(** [waitForReady] gives up after the hundred waits. *)
Lemma waitForReady_timeout (pyodide_at : nat -> option node) :
  (forall k, (k <= 100)%nat -> pyodide_at k = None) ->
  waitForReady pyodide_at = inl not_loaded.
Proof.
  intros Hnone. unfold waitForReady.
  rewrite (Hnone 0%nat) by lia. rewrite wait_loop_exhausted by exact Hnone.
  now rewrite Hnone by lia.
Qed.

Lemma waitForReady_loaded (root : node) :
  waitForReady (loaded root) = inr root.
Proof. reflexivity. Qed.

Lemma all_have_b64_data (files : list FileEntry) :
  Forall (fun f => b64_data f <> None) files ->
  existsb (fun f => bool_decide (b64_data f = None)) files = false.
Proof.
  induction 1 as [|f files Hf _ IH]; [reflexivity|].
  cbn [existsb]. rewrite IH, orb_false_r. now apply bool_decide_eq_false.
Qed.

End ServerFacts.

(** C5, as the code has it. A request without code, or with blank code,
    is answered with the structured ["no code provided"] failure. A
    failure thrown while [runCode] works on the request is answered with
    a structured response that has [success = false] and the error. The
    rejection of [waitForReady] after the hundred waits is not caught: the
    promise of the handler is rejected with it and nothing is written to
    the response. *)
Theorem request_failures h (env : PyodidePythonEnvironment)
  (pyodide_at : nat -> option node) (req : Request) :
  ((forall k, (k <= 100)%nat -> pyodide_at k = None) ->
   let o := post h env pyodide_at req in
   written o = [] /\ ended o = false /\ rejected o = Some not_loaded)
  /\ (forall root,
        waitForReady pyodide_at = inr root ->
        req_code req = None
        \/ (exists code, req_code req = Some code /\ Js.trim code = "") ->
        let o := post h env pyodide_at req in
        written o = [no_code_provided] /\ ended o = true /\ rejected o = None
        /\ calls o = [])
  /\ (forall root code e s1,
        waitForReady pyodide_at = inr root ->
        req_code req = Some code -> Js.trim code <> "" ->
        Forall (fun f => b64_data f <> None) (default [] (req_files req)) ->
        runCode_try h (default_file_names env) code (default [] (req_files req))
          (with_result initial_result
             (with_tick (fresh_state root (env_out_string env) (env_err_string env))))
        = (inl e, s1) ->
        let o := post h env pyodide_at req in
        exists r,
          written o = [r] /\ success r = false
          /\ error r = Some {| error_type := err_type e;
                               error_message := enrich code (err_text e) |}).
Proof.
  split; [|split].
  - intros Hnone. unfold post, runRequest.
    rewrite (waitForReady_timeout _ Hnone). repeat split; reflexivity.
  - intros root Hready Hcode. unfold post, runRequest. rewrite Hready.
    destruct Hcode as [->|(code & -> & Ht)].
    + repeat split; reflexivity.
    + rewrite Ht. repeat split; reflexivity.
  - intros root code e s1 Hready Hcode Ht Hfiles E.
    unfold post, runRequest. rewrite Hready, Hcode.
    destruct (String.eqb_spec (Js.trim code) "") as [Heq|_]; [contradiction|].
    rewrite (all_have_b64_data _ Hfiles).
    cbn [default_file_names env_out_string env_err_string with_instance].
    rewrite runCode_unfold, E. unfold finish.
    apply runCode_try_throws in E as [_ E2].
    unfold stringify_throws.
    cbn [final_expression with_std caught with_result with_success with_error
         result].
    rewrite E2. cbn [final_expression result with_result with_tick initial_result].
    destruct (cleanup h _) as [failure env'].
    eexists. cbn [written]. split; [reflexivity|]. cbn. split; reflexivity.
Qed.

Lemma request_failures_witness :
  (written (post plain_host seeded_environment never_loaded one_plus_one) = []
   /\ ended (post plain_host seeded_environment never_loaded one_plus_one) = false
   /\ rejected (post plain_host seeded_environment never_loaded one_plus_one)
      = Some not_loaded)
  /\ (written (post plain_host seeded_environment (loaded seeded_root)
                 {| req_code := Some "  "; req_files := None |})
      = [no_code_provided])
  /\ exists r,
       written (post (example_host (fun root => root) (inl ZeroDivisionError))
                  seeded_environment (loaded seeded_root)
                  {| req_code := Some failing_code; req_files := Some [a_txt] |})
       = [r]
       /\ success r = false
       /\ error r = Some {| error_type := Some "ZeroDivisionError";
                            error_message :=
                              enrich failing_code (err_text ZeroDivisionError) |}.
Proof.
  split; [|split].
  - apply (proj1 (request_failures plain_host seeded_environment never_loaded
                    one_plus_one)).
    intros k _. reflexivity.
  - apply (proj1 (proj2 (request_failures plain_host seeded_environment
                           (loaded seeded_root)
                           {| req_code := Some "  "; req_files := None |}))
             seeded_root).
    + reflexivity.
    + right. exists "  ". split; reflexivity.
  - apply (proj2 (proj2 (request_failures
                           (example_host (fun root => root) (inl ZeroDivisionError))
                           seeded_environment (loaded seeded_root)
                           {| req_code := Some failing_code;
                              req_files := Some [a_txt] |}))
             seeded_root failing_code ZeroDivisionError
             (snd (runCode_try
                     (example_host (fun root => root) (inl ZeroDivisionError))
                     seeded_names failing_code [a_txt]
                     (with_result initial_result
                        (with_tick (fresh_state seeded_root "" "")))))).
    + reflexivity.
    + reflexivity.
    + vm_compute. discriminate.
    + repeat constructor. discriminate.
    + vm_compute. reflexivity.
Defined.

(** C5 as stated fails: when the interpreter is not loaded within the
    hundred waits, the handler's promise is rejected and the response
    stays empty and open. *)
Lemma readiness_timeout_escapes :
  post plain_host seeded_environment never_loaded one_plus_one
  = {| written := []; ended := false; rejected := Some not_loaded;
       calls := []; env_after := seeded_environment |}.
Proof. reflexivity. Qed.

(** ** The lock *)

Section LockFacts.

Import Lock.

Lemma chain_ext (st st' : LockState) (name : string) (prev : nat) (rest : list nat) :
  (forall j, j ∈ rest -> calls st' !! j = calls st !! j) ->
  chain st name prev rest -> chain st' name prev rest.
Proof.
  revert prev. induction rest as [|j rest IH]; intros prev Hext; [trivial|].
  cbn [chain]. intros [[Hj Hlt] Hrest]. split.
  - split; [|exact Hlt]. rewrite Hext; [exact Hj | left].
  - apply IH; [|exact Hrest]. intros k Hk. apply Hext. now right.
Qed.

Lemma chain_lt (st : LockState) (name : string) (prev : nat) (rest : list nat) :
  chain st name prev rest -> forall j, j ∈ rest -> (prev < j)%nat.
Proof.
  revert prev. induction rest as [|k rest IH]; intros prev Hc j Hj.
  - inversion Hj.
  - destruct Hc as [[_ Hlt] Hrest]. apply elem_of_cons in Hj as [->|Hj]; [exact Hlt|].
    specialize (IH _ Hrest _ Hj). lia.
Qed.

Lemma chain_elem (st : LockState) (name : string) (prev : nat) (rest : list nat) :
  chain st name prev rest ->
  forall j, j ∈ rest ->
    exists p, waiting_on st name p j /\ (p = prev \/ p ∈ rest).
Proof.
  revert prev. induction rest as [|k rest IH]; intros prev Hc j Hj.
  - inversion Hj.
  - destruct Hc as [Hk Hrest]. apply elem_of_cons in Hj as [->|Hj].
    + exists prev. split; [exact Hk | now left].
    + destruct (IH _ Hrest _ Hj) as (p & Hp & [->|Hin]).
      * exists k. split; [exact Hp | right; left].
      * exists p. split; [exact Hp | right; now right].
Qed.

Lemma last_default (a d d' : nat) (l : list nat) :
  List.last (a :: l) d = List.last (a :: l) d'.
Proof.
  revert a. induction l as [|b l IH]; intros a; [reflexivity|].
  change (List.last (a :: b :: l) d) with (List.last (b :: l) d).
  change (List.last (a :: b :: l) d') with (List.last (b :: l) d').
  apply IH.
Qed.

Lemma chain_snoc (st : LockState) (name : string) (prev : nat) (rest : list nat)
  (j : nat) :
  chain st name prev rest -> waiting_on st name (List.last rest prev) j ->
  chain st name prev (rest ++ [j]).
Proof.
  revert prev. induction rest as [|k rest IH]; intros prev Hc Hj.
  - cbn in *. split; [exact Hj | trivial].
  - destruct Hc as [Hk Hrest]. cbn [app chain]. split; [exact Hk|].
    apply IH; [exact Hrest|].
    destruct rest as [|n rest]; [exact Hj|].
    rewrite (last_default n k prev).
    exact Hj.
Qed.

Lemma lookup_last (prev : nat) (rest : list nat) :
  (prev :: rest) !! length rest = Some (List.last rest prev).
Proof.
  revert prev. induction rest as [|k rest IH]; intros prev; [reflexivity|].
  cbn [length]. change ((prev :: k :: rest) !! S (length rest))
    with ((k :: rest) !! length rest).
  rewrite IH. destruct rest as [|n rest]; [reflexivity|].
  f_equal. apply (last_default n k prev).
Qed.

Lemma last_elem (prev : nat) (rest : list nat) :
  List.last rest prev ∈ prev :: rest.
Proof.
  apply list_elem_of_lookup. exists (length rest). apply lookup_last.
Qed.

Section WithInv.

Variable st : LockState.
Hypothesis HI : Inv st.

(** A call in a queue is a call under that name which has not unlocked. *)
Lemma in_queue (name : string) (j : nat) :
  j ∈ queue st name ->
  exists c, calls st !! j = Some c /\ lockName c = name /\ resolved c = false
            /\ (forall b, phase c <> Finished b).
Proof.
  intros Hj. pose proof (inv_queue st HI name) as Hq. unfold queue_ok in Hq.
  destruct (queue st name) as [|i rest]; [inversion Hj|].
  destruct Hq as [(c & Hc & Hn & Hr & Hp) Hchain].
  apply elem_of_cons in Hj as [->|Hj].
  - exists c. repeat split; try assumption.
    intros b Hb. destruct Hp as [Hp|[Hp _]]; congruence.
  - destruct (chain_elem _ _ _ _ Hchain _ Hj) as (p & [Hw _] & _).
    eexists. split; [exact Hw|]. repeat split. discriminate.
Qed.

Lemma in_queue_lt (name : string) (j : nat) :
  j ∈ queue st name -> (j < length (calls st))%nat.
Proof.
  intros Hj. destruct (in_queue _ _ Hj) as (c & Hc & _).
  eapply lookup_lt_Some, Hc.
Qed.

Lemma unfinished_in_queue (i : nat) (c : Call) :
  calls st !! i = Some c -> (forall b, phase c <> Finished b) ->
  i ∈ queue st (lockName c).
Proof.
  intros Hc Hp. destruct (decide (i ∈ queue st (lockName c))) as [Hin|Hout];
    [exact Hin|].
  destruct (inv_settled st HI _ _ Hc Hout) as [[b Hb] _]. now apply Hp in Hb.
Qed.

(** A call whose task runs is at index 0 of its queue. *)
Lemma running_is_head (i : nat) (c : Call) :
  calls st !! i = Some c -> phase c = Running ->
  exists rest, queue st (lockName c) = i :: rest.
Proof.
  intros Hc Hp.
  assert (Hin : i ∈ queue st (lockName c)).
  { apply (unfinished_in_queue _ _ Hc). intros b. rewrite Hp. discriminate. }
  pose proof (inv_queue st HI (lockName c)) as Hq. unfold queue_ok in Hq.
  destruct (queue st (lockName c)) as [|k rest]; [inversion Hin|].
  destruct Hq as [_ Hchain].
  apply elem_of_cons in Hin as [->|Hin]; [eauto|].
  destruct (chain_elem _ _ _ _ Hchain _ Hin) as (p & [Hw _] & _).
  rewrite Hc in Hw. injection Hw as Heq. rewrite Heq in Hp. discriminate Hp.
Qed.

(** A waiting call whose predecessor has unlocked is at index 0. *)
Lemma signalled_is_head (i : nat) (c : Call) (p : nat) :
  calls st !! i = Some c -> phase c = Waiting -> predecessorLock c = Some p ->
  is_resolved st p = true ->
  exists rest, queue st (lockName c) = i :: rest.
Proof.
  intros Hc Hp Hpred Hres.
  assert (Hin : i ∈ queue st (lockName c)).
  { apply (unfinished_in_queue _ _ Hc). intros b. rewrite Hp. discriminate. }
  pose proof (inv_queue st HI (lockName c)) as Hq. unfold queue_ok in Hq.
  destruct (queue st (lockName c)) as [|k rest] eqn:Eq; [inversion Hin|].
  destruct Hq as [_ Hchain].
  apply elem_of_cons in Hin as [->|Hin]; [eauto|].
  destruct (chain_elem _ _ _ _ Hchain _ Hin) as (q & [Hw _] & Hq).
  rewrite Hc in Hw. injection Hw as Heq. rewrite Heq in Hpred.
  cbn in Hpred. injection Hpred as <-.
  assert (Hqin : q ∈ queue st (lockName c)).
  { rewrite Eq. destruct Hq as [->|Hq]; [left | now right]. }
  destruct (in_queue _ _ Hqin) as (cq & Hcq & _ & Hr & _).
  unfold is_resolved in Hres. rewrite Hcq in Hres. congruence.
Qed.

End WithInv.

Lemma filter_under_ext (name : string) (st st' : LockState) (l : list nat) :
  (forall i, i ∈ l -> under name st' i = under name st i) ->
  List.filter (under name st') l = List.filter (under name st) l.
Proof.
  intros H. apply List.filter_ext_in. intros i Hi. apply H.
  now apply list_elem_of_In.
Qed.

Lemma is_resolved_lt (st : LockState) (p : nat) :
  is_resolved st p = true -> (p < length (calls st))%nat.
Proof.
  unfold is_resolved. destruct (calls st !! p) as [c|] eqn:E; [|discriminate].
  intros _. eapply lookup_lt_Some, E.
Qed.

Lemma head_ok_ext (st st' : LockState) (name : string) (i : nat) :
  calls st' !! i = calls st !! i ->
  (forall p, is_resolved st p = true -> is_resolved st' p = true) ->
  head_ok st name i -> head_ok st' name i.
Proof.
  intros Hi Hres (c & Hc & Hn & Hr & Hp). exists c. rewrite Hi.
  repeat split; try assumption.
  destruct Hp as [Hp|(Hp & p & Hpred & Hpr)]; [now left | right].
  split; [exact Hp|]. exists p. split; [exact Hpred | now apply Hres].
Qed.

(** *** A new call *)

Section Acquire.

Variable st : LockState.
Variable name : string.
Hypothesis HI : Inv st.

Let id := length (calls st).
Let st' := doWithLock_enter name st.

Lemma acquire_queue : queue st' name = queue st name ++ [id].
Proof. unfold queue, st', doWithLock_enter. cbn [locksByName]. now rewrite lookup_insert_eq. Qed.

Lemma acquire_queue_ne (m : string) : m <> name -> queue st' m = queue st m.
Proof.
  intros Hm. unfold queue, st', doWithLock_enter. cbn [locksByName].
  now rewrite lookup_insert_ne.
Qed.

Lemma acquire_lookup_old (i : nat) :
  (i < id)%nat -> calls st' !! i = calls st !! i.
Proof. intros Hi. unfold st', doWithLock_enter. cbn [calls]. now apply lookup_app_l. Qed.

Lemma acquire_lookup_new :
  exists c, calls st' !! id = Some c /\ lockName c = name /\ resolved c = false
            /\ match queue st name with
               | [] => phase c = Running /\ predecessorLock c = None
               | i :: rest =>
                   phase c = Waiting
                   /\ predecessorLock c = Some (List.last rest i)
               end.
Proof.
  unfold st', doWithLock_enter. cbn [calls]. fold (queue st name).
  eexists. split; [apply list_lookup_middle; reflexivity|].
  cbn [lockName resolved phase predecessorLock]. repeat split.
  destruct (queue st name) as [|i rest]; [split; reflexivity|].
  rewrite bool_decide_eq_false_2 by discriminate. split; [reflexivity|].
  rewrite length_app. cbn [length].
  replace (S (length rest) + 1 - 2)%nat with (length rest) by lia.
  rewrite lookup_app_l by (cbn; lia). apply lookup_last.
Qed.

Lemma acquire_started :
  started st' = started st ++ (if queue st name is [] then [id] else []).
Proof.
  unfold st', doWithLock_enter. cbn [started]. fold (queue st name).
  destruct (queue st name); [reflexivity|].
  rewrite bool_decide_eq_false_2 by discriminate. now rewrite app_nil_r.
Qed.

Lemma acquire_resolved (p : nat) :
  is_resolved st p = true -> is_resolved st' p = true.
Proof.
  intros Hp. unfold is_resolved.
  rewrite acquire_lookup_old by (apply is_resolved_lt, Hp). exact Hp.
Qed.

Lemma acquire_under_old (m : string) (i : nat) :
  (i < id)%nat -> under m st' i = under m st i.
Proof. intros Hi. unfold under. now rewrite acquire_lookup_old. Qed.

Lemma acquire_under_new (m : string) : under m st' id = bool_decide (name = m).
Proof.
  destruct acquire_lookup_new as (c & Hc & Hn & _).
  unfold under. rewrite Hc, Hn. reflexivity.
Qed.

Lemma acquire_acquired (m : string) :
  acquired m st' = acquired m st ++ (if bool_decide (name = m) then [id] else []).
Proof.
  unfold acquired. fold (under m st') (under m st).
  unfold st' at 2, doWithLock_enter. cbn [calls]. rewrite length_app. cbn [length].
  rewrite seq_app, List.filter_app. cbn [seq List.filter]. fold id.
  change (doWithLock_enter name st) with st'. rewrite acquire_under_new. f_equal.
  apply filter_under_ext. intros i Hi. apply acquire_under_old.
  apply list_elem_of_In, in_seq in Hi. unfold id. lia.
Qed.

Lemma acquire_started_under (m : string) :
  started_under m st'
  = started_under m st
    ++ (if queue st name is [] then if bool_decide (name = m) then [id] else []
        else []).
Proof.
  unfold started_under. fold (under m st') (under m st).
  rewrite acquire_started, List.filter_app. f_equal.
  - apply filter_under_ext. intros i Hi. apply acquire_under_old.
    apply (inv_started st HI), Hi.
  - destruct (queue st name); [|reflexivity].
    cbn [List.filter]. rewrite acquire_under_new. reflexivity.
Qed.

Lemma acquire_is_waiting_old (i : nat) :
  (i < id)%nat -> is_waiting st' i = is_waiting st i.
Proof. intros Hi. unfold is_waiting. now rewrite acquire_lookup_old. Qed.

Lemma acquire_inv : Inv st'.
Proof.
  destruct acquire_lookup_new as (cnew & Hnew & Hname & Hres & Hshape).
  constructor.
  - intros m. unfold queue_ok. destruct (decide (m = name)) as [->|Hm].
    + rewrite acquire_queue. pose proof (inv_queue st HI name) as Hq. unfold queue_ok in Hq.
      destruct (queue st name) as [|i rest] eqn:Eq.
      * cbn [app]. destruct Hshape as [Hp _]. split; [|exact I].
        exists cnew. repeat split; try assumption. now left.
      * destruct Hq as [Hh Hc]. destruct Hshape as [Hp Hpred].
        assert (Hlt : forall j, j ∈ i :: rest -> (j < id)%nat).
        { intros j Hj. apply (in_queue_lt st HI name). now rewrite Eq. }
        cbn [app]. split.
        -- apply (head_ok_ext st); [apply acquire_lookup_old, Hlt; left
                                    | apply acquire_resolved | exact Hh].
        -- apply chain_snoc.
           ++ apply (chain_ext st); [|exact Hc].
              intros j Hj. apply acquire_lookup_old, Hlt. now right.
           ++ split; [|apply Hlt, last_elem].
              rewrite Hnew. f_equal. destruct cnew; cbn in *. congruence.
    + rewrite (acquire_queue_ne _ Hm). pose proof (inv_queue st HI m) as Hq. unfold queue_ok in Hq.
      destruct (queue st m) as [|i rest] eqn:Eq; [exact I|].
      destruct Hq as [Hh Hc].
      assert (Hlt : forall j, j ∈ i :: rest -> (j < id)%nat).
      { intros j Hj. apply (in_queue_lt st HI m). now rewrite Eq. }
      split.
      * apply (head_ok_ext st); [apply acquire_lookup_old, Hlt; left
                                 | apply acquire_resolved | exact Hh].
      * apply (chain_ext st); [|exact Hc].
        intros j Hj. apply acquire_lookup_old, Hlt. now right.
  - intros i c Hc Hout.
    destruct (decide (i = id)) as [->|Hi].
    + exfalso. apply Hout. rewrite Hnew in Hc. injection Hc as <-.
      rewrite Hname, acquire_queue. apply elem_of_app. right. left.
    + assert (Hlt : (i < id)%nat).
      { apply lookup_lt_Some in Hc. unfold st', doWithLock_enter in Hc. cbn [calls] in Hc.
        rewrite length_app in Hc. cbn [length] in Hc. unfold id. lia. }
      rewrite acquire_lookup_old in Hc by exact Hlt.
      apply (inv_settled st HI _ _ Hc). intros Hin. apply Hout.
      destruct (decide (lockName c = name)) as [Heq|Hne].
      * rewrite Heq in *. rewrite acquire_queue. apply elem_of_app. now left.
      * now rewrite (acquire_queue_ne _ Hne).
  - intros m. rewrite acquire_acquired, acquire_started_under, (inv_fifo st HI m).
    unfold waiting_ids.
    destruct (decide (name = m)) as [<-|Hm].
    + rewrite bool_decide_eq_true_2 by reflexivity. rewrite acquire_queue.
      destruct (queue st name) as [|i rest] eqn:Eq.
      * cbn [app]. destruct Hshape as [Hp _].
        unfold is_waiting. rewrite Hnew, Hp.
        rewrite bool_decide_eq_false_2 by discriminate.
        now rewrite !app_nil_r.
      * cbn [app]. rewrite acquire_is_waiting_old
          by (apply (in_queue_lt st HI name); rewrite Eq; left).
        now rewrite !app_nil_r, !app_assoc.
    + rewrite bool_decide_eq_false_2 by exact Hm.
      rewrite acquire_queue_ne by congruence.
      assert (Hnil : (if queue st name is [] then @nil nat else []) = [])
        by (destruct (queue st name); reflexivity).
      rewrite Hnil, !app_nil_r. f_equal.
      destruct (queue st m) as [|i rest] eqn:Eq; [reflexivity|].
      rewrite acquire_is_waiting_old
        by (apply (in_queue_lt st HI m); rewrite Eq; left).
      reflexivity.
  - intros i Hi. rewrite acquire_started in Hi.
    unfold st', doWithLock_enter. cbn [calls]. rewrite length_app. cbn [length]. fold id.
    apply elem_of_app in Hi as [Hi|Hi].
    + apply (inv_started st HI) in Hi. fold id in Hi. lia.
    + destruct (queue st name); [|inversion Hi].
      apply list_elem_of_singleton in Hi. lia.
Qed.

End Acquire.

(** *** A call goes on: its task starts or has settled *)

Lemma queue_ok_frame (st st' : LockState) (m : string) :
  queue st' m = queue st m ->
  (forall j, j ∈ queue st m -> calls st' !! j = calls st !! j) ->
  (forall p, is_resolved st p = true -> is_resolved st' p = true) ->
  queue_ok st m -> queue_ok st' m.
Proof.
  unfold queue_ok. intros -> Hframe Hres.
  destruct (queue st m) as [|i rest]; [trivial|].
  intros [Hh Hc]. split.
  - apply (head_ok_ext st); [apply Hframe; left | exact Hres | exact Hh].
  - apply (chain_ext st); [|exact Hc]. intros j Hj. apply Hframe. now right.
Qed.

Section Replace.

Variable st st' : LockState.
Variable id : nat.
Variable c c' : Call.
Hypothesis HI : Inv st.
Hypothesis Hc : calls st !! id = Some c.
Hypothesis Hcalls : calls st' = <[id := c']> (calls st).
Hypothesis Hname : lockName c' = lockName c.

Lemma replace_lookup_same : calls st' !! id = Some c'.
Proof. rewrite Hcalls. apply list_lookup_insert_eq. eapply lookup_lt_Some, Hc. Qed.

Lemma replace_lookup_other (j : nat) : j <> id -> calls st' !! j = calls st !! j.
Proof. intros Hj. rewrite Hcalls. now apply list_lookup_insert_ne. Qed.

Lemma replace_length : length (calls st') = length (calls st).
Proof. rewrite Hcalls. apply length_insert. Qed.

Lemma replace_under (m : string) (i : nat) : under m st' i = under m st i.
Proof.
  unfold under. destruct (decide (i = id)) as [->|Hi].
  - now rewrite replace_lookup_same, Hc, Hname.
  - now rewrite replace_lookup_other.
Qed.

Lemma replace_acquired (m : string) : acquired m st' = acquired m st.
Proof.
  unfold acquired. fold (under m st') (under m st). rewrite replace_length.
  apply filter_under_ext. intros i _. apply replace_under.
Qed.

Lemma replace_filter (m : string) (l : list nat) :
  List.filter (under m st') l = List.filter (under m st) l.
Proof. apply filter_under_ext. intros i _. apply replace_under. Qed.

Lemma replace_resolved (p : nat) :
  (resolved c = true -> resolved c' = true) ->
  is_resolved st p = true -> is_resolved st' p = true.
Proof.
  intros Hmono. unfold is_resolved. destruct (decide (p = id)) as [->|Hp].
  - rewrite replace_lookup_same, Hc. exact Hmono.
  - now rewrite replace_lookup_other.
Qed.

Lemma replace_is_waiting (j : nat) : j <> id -> is_waiting st' j = is_waiting st j.
Proof. intros Hj. unfold is_waiting. now rewrite replace_lookup_other. Qed.

(** The call is not in the queue of another name. *)
Lemma replace_not_in_other (m : string) : m <> lockName c -> id ∉ queue st m.
Proof.
  intros Hm Hin. destruct (in_queue st HI _ _ Hin) as (c0 & Hc0 & Hn & _).
  rewrite Hc in Hc0. injection Hc0 as <-. congruence.
Qed.

Lemma replace_queue_ok_other (m : string) :
  m <> lockName c -> queue st' m = queue st m ->
  (resolved c = true -> resolved c' = true) ->
  queue_ok st' m.
Proof.
  intros Hm Hq Hmono. apply (queue_ok_frame st); [exact Hq| | |].
  - intros j Hj. apply replace_lookup_other. intros ->.
    now apply (replace_not_in_other m).
  - intros p. now apply replace_resolved.
  - apply (inv_queue st HI m).
Qed.

Lemma replace_waiting_ids_other (m : string) :
  m <> lockName c -> queue st' m = queue st m ->
  waiting_ids st' m = waiting_ids st m.
Proof.
  intros Hm Hq. unfold waiting_ids. rewrite Hq.
  pose proof (replace_not_in_other m Hm) as Hout.
  destruct (queue st m) as [|i rest]; [reflexivity|].
  rewrite replace_is_waiting; [reflexivity|].
  intros ->. apply Hout. left.
Qed.

End Replace.

Lemma wake_Some (id : nat) (st st' : LockState) :
  doWithLock_resume id st = Some st' ->
  exists c p,
    calls st !! id = Some c /\ phase c = Waiting /\ predecessorLock c = Some p
    /\ is_resolved st p = true
    /\ st' = {| locksByName := locksByName st;
                calls := <[id := started_call c]> (calls st);
                started := started st ++ [id] |}.
Proof.
  unfold doWithLock_resume. destruct (calls st !! id) as [c|]; [|discriminate].
  destruct (phase c) eqn:Hp; try discriminate.
  destruct (predecessorLock c) as [p|] eqn:Hpred; [|discriminate].
  destruct (is_resolved st p) eqn:Hr; [|discriminate].
  intros [= <-]. exists c, p. unfold started_call. rewrite Hpred.
  repeat split; assumption.
Qed.

Lemma settle_Some (id : nat) (threw : bool) (st st' : LockState) :
  doWithLock_finally id threw st = Some st' ->
  exists c,
    calls st !! id = Some c /\ phase c = Running
    /\ st' = {| locksByName :=
                  <[lockName c := drop 1 (queue st (lockName c))]> (locksByName st);
                calls := <[id := settled_call threw c]> (calls st);
                started := started st |}.
Proof.
  unfold doWithLock_finally. destruct (calls st !! id) as [c|]; [|discriminate].
  destruct (phase c) eqn:Hp; try discriminate.
  intros [= <-]. exists c. split; [reflexivity | split; [exact Hp | reflexivity]].
Qed.

Lemma wake_inv (id : nat) (st st' : LockState) :
  Inv st -> doWithLock_resume id st = Some st' -> Inv st'.
Proof.
  intros HI Hw.
  destruct (wake_Some _ _ _ Hw) as (c & p & Hc & Hp & Hpred & Hres & ->).
  set (st' := {| locksByName := locksByName st;
                 calls := <[id := started_call c]> (calls st);
                 started := started st ++ [id] |}).
  assert (Hcalls : calls st' = <[id := started_call c]> (calls st)) by reflexivity.
  assert (Hname : lockName (started_call c) = lockName c) by reflexivity.
  assert (Hq : forall m, queue st' m = queue st m) by reflexivity.
  destruct (signalled_is_head st HI _ _ _ Hc Hp Hpred Hres) as (rest & Eq).
  pose proof (inv_queue st HI (lockName c)) as Hhead. unfold queue_ok in Hhead. rewrite Eq in Hhead.
  destruct Hhead as [(c0 & Hc0 & _ & Hr0 & _) Hchain].
  rewrite Hc in Hc0. injection Hc0 as <-.
  constructor.
  - intros m. fold (queue_ok st' m).
    destruct (decide (m = lockName c)) as [->|Hm].
    + unfold queue_ok. rewrite Hq, Eq. split.
      * exists (started_call c).
        rewrite (replace_lookup_same st st' id c _ Hc Hcalls).
        repeat split; [exact Hr0 | now left].
      * apply (chain_ext st); [|exact Hchain]. intros j Hj.
        apply (replace_lookup_other st st' id _ Hcalls).
        pose proof (chain_lt _ _ _ _ Hchain _ Hj). lia.
    + apply (replace_queue_ok_other st st' id c _ HI Hc Hcalls m Hm (Hq m)).
      trivial.
  - intros i ci Hci Hout. destruct (decide (i = id)) as [->|Hi].
    + exfalso. apply Hout.
      rewrite (replace_lookup_same st st' id c _ Hc Hcalls) in Hci.
      injection Hci as <-. rewrite Hq. cbn [lockName started_call]. rewrite Eq. left.
    + rewrite (replace_lookup_other st st' id _ Hcalls _ Hi) in Hci.
      apply (inv_settled st HI _ _ Hci). now rewrite <- Hq.
  - intros m. rewrite (replace_acquired st st' id c _ Hc Hcalls Hname).
    unfold started_under. fold (under m st') (under m st). cbn [started st'].
    rewrite (replace_filter st st' id c _ Hc Hcalls Hname), List.filter_app.
    cbn [List.filter]. fold (started_under m st). rewrite (inv_fifo st HI m).
    destruct (decide (m = lockName c)) as [->|Hm].
    + unfold under. rewrite Hc. rewrite bool_decide_eq_true_2 by reflexivity.
      unfold waiting_ids. rewrite Hq, Eq.
      unfold is_waiting at 2. rewrite (replace_lookup_same st st' id c _ Hc Hcalls).
      cbn [phase started_call]. rewrite bool_decide_eq_false_2 by discriminate.
      unfold is_waiting. rewrite Hc, Hp. rewrite bool_decide_eq_true_2 by reflexivity.
      now rewrite <- app_assoc.
    + unfold under. rewrite Hc. rewrite bool_decide_eq_false_2 by congruence.
      rewrite app_nil_r.
      now rewrite (replace_waiting_ids_other st st' id c _ HI Hc Hcalls m Hm (Hq m)).
  - intros i Hi. rewrite (replace_length st st' id _ Hcalls).
    cbn [started st'] in Hi. apply elem_of_app in Hi as [Hi|Hi].
    + now apply (inv_started st HI).
    + apply list_elem_of_singleton in Hi. subst i. eapply lookup_lt_Some, Hc.
Qed.

Lemma settle_inv (id : nat) (threw : bool) (st st' : LockState) :
  Inv st -> doWithLock_finally id threw st = Some st' -> Inv st'.
Proof.
  intros HI Hs.
  destruct (settle_Some _ _ _ _ Hs) as (c & Hc & Hp & ->).
  set (st' := {| locksByName :=
                   <[lockName c := drop 1 (queue st (lockName c))]> (locksByName st);
                 calls := <[id := settled_call threw c]> (calls st);
                 started := started st |}).
  assert (Hcalls : calls st' = <[id := settled_call threw c]> (calls st))
    by reflexivity.
  assert (Hname : lockName (settled_call threw c) = lockName c) by reflexivity.
  destruct (running_is_head st HI _ _ Hc Hp) as (rest & Eq).
  assert (Hq : queue st' (lockName c) = rest).
  { unfold queue, st'. cbn [locksByName]. rewrite lookup_insert_eq. cbn [default].
    fold (queue st (lockName c)). now rewrite Eq. }
  assert (Hqo : forall m, m <> lockName c -> queue st' m = queue st m).
  { intros m Hm. unfold queue, st'. cbn [locksByName].
    now rewrite lookup_insert_ne by congruence. }
  pose proof (inv_queue st HI (lockName c)) as Hhead. unfold queue_ok in Hhead. rewrite Eq in Hhead.
  destruct Hhead as [_ Hchain].
  assert (Hres : forall p, is_resolved st p = true -> is_resolved st' p = true).
  { intros p. apply (replace_resolved st st' id c _ Hc Hcalls p). trivial. }
  constructor.
  - intros m. fold (queue_ok st' m).
    destruct (decide (m = lockName c)) as [->|Hm].
    + unfold queue_ok. rewrite Hq.
      destruct rest as [|j rest']; [exact I|].
      destruct Hchain as [[Hj Hlt] Hrest]. split.
      * eexists. rewrite (replace_lookup_other st st' id _ Hcalls) by lia.
        split; [exact Hj|]. repeat split. right. split; [reflexivity|].
        exists id. split; [reflexivity|]. unfold is_resolved.
        now rewrite (replace_lookup_same st st' id c _ Hc Hcalls).
      * apply (chain_ext st); [|exact Hrest]. intros k Hk.
        apply (replace_lookup_other st st' id _ Hcalls).
        pose proof (chain_lt _ _ _ _ Hrest _ Hk). lia.
    + apply (replace_queue_ok_other st st' id c _ HI Hc Hcalls m Hm (Hqo m Hm)).
      trivial.
  - intros i ci Hci Hout. destruct (decide (i = id)) as [->|Hi].
    + rewrite (replace_lookup_same st st' id c _ Hc Hcalls) in Hci.
      injection Hci as <-. split; [eexists|]; reflexivity.
    + rewrite (replace_lookup_other st st' id _ Hcalls _ Hi) in Hci.
      apply (inv_settled st HI _ _ Hci). intros Hin. apply Hout.
      destruct (decide (lockName ci = lockName c)) as [Heq|Hne].
      * rewrite Heq in *. rewrite Hq. rewrite Eq in Hin.
        apply elem_of_cons in Hin as [->|Hin]; [contradiction | exact Hin].
      * now rewrite (Hqo _ Hne).
  - intros m. rewrite (replace_acquired st st' id c _ Hc Hcalls Hname).
    unfold started_under. fold (under m st') (under m st). cbn [started st'].
    rewrite (replace_filter st st' id c _ Hc Hcalls Hname).
    fold (started_under m st). rewrite (inv_fifo st HI m). f_equal.
    destruct (decide (m = lockName c)) as [->|Hm].
    + unfold waiting_ids. rewrite Hq, Eq.
      unfold is_waiting at 1. rewrite Hc, Hp.
      rewrite bool_decide_eq_false_2 by discriminate. cbn [app].
      destruct rest as [|j rest']; [reflexivity|].
      destruct Hchain as [[Hj Hlt] _].
      rewrite (replace_is_waiting st st' id _ Hcalls) by lia.
      unfold is_waiting. rewrite Hj. reflexivity.
    + symmetry.
      apply (replace_waiting_ids_other st st' id c _ HI Hc Hcalls m Hm (Hqo m Hm)).
  - intros i Hi. rewrite (replace_length st st' id _ Hcalls).
    now apply (inv_started st HI).
Qed.

Lemma initial_inv : Inv initial.
Proof.
  constructor.
  - intros name. exact I.
  - intros i c Hc. inversion Hc.
  - intros name. reflexivity.
  - intros i Hi. inversion Hi.
Qed.

Lemma run_inv (es : list Step) :
  forall st st', Inv st -> run es st = Some st' -> Inv st'.
Proof.
  induction es as [|e es IH]; intros st st' HI; cbn [run].
  - now intros [= <-].
  - destruct (step e st) as [st1|] eqn:E; [|discriminate].
    apply IH. destruct e as [name|id|id threw]; cbn [step] in E.
    + injection E as <-. now apply acquire_inv.
    + eapply wake_inv; eassumption.
    + eapply settle_inv; eassumption.
Qed.



End LockFacts.



(* ================================================================== *)
(** * Part III: further properties of the code *)
(* ================================================================== *)

(** ** The calls and the streams of a run *)

(** X1. [runCode] calls the interpreter in a fixed order: first
    [loadPackagesFromImports] with the code, once; then [FS.writeFile] at
    the joined path of the entries that have a file name and a payload
    that decodes, in their order, until the loop ends or stops at a
    payload that does not decode or at a write that throws; then
    [runPythonAsync] with the code, once, and only when the packages have
    loaded and every entry has been handled without a throw, in which case
    all those entries have been written. Nothing is called after that. *)
Theorem runCode_call_order h (D : gset string) (code : string)
  (files : list FileEntry) (s : State) :
  exists ws,
    (ws `prefix_of` input_writes files)
    /\ trace (snd (runCode h D code files s))
       = trace s ++ LoadPackagesFromImports code :: List.map write_event ws
           ++ match before_run h code files s with
              | Some _ => [RunPythonAsync code]
              | None => []
              end
    /\ (forall s2, before_run h code files s = Some s2 -> ws = input_writes files).
Proof.
  pose proof (runCode_try_frame h D code files s) as (_ & _ & Hs). cbn zeta in Hs.
  assert (Ht : trace (snd (runCode h D code files s))
               = trace (snd (runCode_try h D code files
                               (with_result initial_result (with_tick s))))).
  { rewrite runCode_unfold.
    destruct (runCode_try h D code files _) as [[e|[]] s1]; reflexivity. }
  rewrite Ht. clear Ht.
  destruct (loadPackagesFromImports h code) as [e|] eqn:El.
  { exists []. split; [apply prefix_nil|].
    unfold before_run. rewrite El. split; [|discriminate].
    rewrite Hs. cbn. reflexivity. }
  rewrite Hs.
  destruct (forEach_write_trace h files
              (with_event (LoadPackagesFromImports code)
                 (with_result initial_result (with_tick s))))
    as (ws & Hp & Htr & Hall).
  exists ws. split; [exact Hp|]. split.
  - rewrite Htr. cbn. now rewrite <- !app_assoc.
  - unfold before_run. rewrite El.
    destruct (forEach files (writeInputFile h) _) as [[e2|[]] s2] eqn:Ef;
      [discriminate|].
    intros _ _. now apply (Hall s2).
Qed.

(** X2. The two streams of the result are the accumulators as the call
    found them, followed by the messages the run of the code sent to the
    [stdout] and [stderr] callbacks, each with a line feed after it; this
    holds whether the code ends well or throws. When the code is not run,
    the streams are the accumulators as the call found them. *)
Theorem runCode_streams h (D : gset string) (code : string)
  (files : list FileEntry) (s : State) :
  let r := response_of (runCode h D code files s) in
  match before_run h code files s with
  | Some s2 =>
      let run := runPythonAsync h code (fs s2) in
      std_out r = Some (out_string s +:+ stream_text (py_stdout run))
      /\ std_err r = Some (err_string s +:+ stream_text (py_stderr run))
  | None => std_out r = Some (out_string s) /\ std_err r = Some (err_string s)
  end.
Proof.
  pose proof (runCode_try_frame h D code files s) as (_ & Hs & _). cbn zeta in *.
  assert (Hr : std_out (response_of (runCode h D code files s))
               = Some (out_string (snd (runCode_try h D code files
                                          (with_result initial_result (with_tick s)))))
               /\ std_err (response_of (runCode h D code files s))
                  = Some (err_string (snd (runCode_try h D code files
                                             (with_result initial_result (with_tick s)))))).
  { rewrite runCode_unfold.
    destruct (runCode_try h D code files _) as [[e|[]] s1]; split; reflexivity. }
  destruct Hr as [-> ->].
  destruct (before_run h code files s) as [s2|].
  - destruct Hs as (-> & ->). split; reflexivity.
  - destruct Hs as (-> & ->). split; reflexivity.
Qed.

(** X3. [runCode] never throws: whatever the interpreter does, it returns
    a result, which carries both streams and the run time, the difference
    of two successive readings of the clock. A result that is not a
    success has an error and neither output files nor a final expression;
    a result that is a success has its output files. *)
Theorem runCode_always_answers h (D : gset string) (code : string)
  (files : list FileEntry) (s : State) :
  exists r s',
    runCode h D code files s = (inr r, s')
    /\ std_out r = Some (out_string s') /\ std_err r = Some (err_string s')
    /\ code_runtime r = Some (Date_now h (S (ticks s)) - Date_now h (ticks s))%Z
    /\ (success r = false ->
        error r <> None /\ output_files r = None /\ final_expression r = None)
    /\ (success r = true -> output_files r <> None).
Proof.
  pose proof (runCode_try_frame h D code files s) as (Ht & _). cbn zeta in Ht.
  rewrite runCode_unfold.
  destruct (runCode_try h D code files _) as [[e|[]] s1] eqn:E; cbn [snd] in Ht.
  - eexists _, _. split; [reflexivity|].
    apply runCode_try_throws in E as [E1 E2].
    cbn. rewrite Ht, E1, E2. repeat split; try reflexivity; discriminate.
  - eexists _, _. split; [reflexivity|].
    apply runCode_try_completes in E as (Hs & entries & outs & _ & Ho & _).
    cbn. rewrite Ht, Hs, Ho. repeat split; try reflexivity; discriminate.
Qed.

(** ** Files written into the home directory *)

Section HomeFacts.

Lemma find_put (name m : string) (x : node) (entries : list (string * node)) :
  FS.find m (FS.put name x entries)
  = if String.eqb name m then Some x else FS.find m entries.
Proof.
  induction entries as [|[n y] entries IH]; cbn [FS.put FS.find]; [reflexivity|].
  destruct (String.eqb_spec n name) as [->|Hn]; cbn [FS.find].
  - destruct (String.eqb name m); reflexivity.
  - rewrite IH. destruct (String.eqb_spec n m) as [->|Hm]; [|reflexivity].
    destruct (String.eqb_spec name m) as [->|_]; [congruence | reflexivity].
Qed.

Lemma find_put_all (m : string) (ws : list (string * list byte))
  (entries : list (string * node)) :
  FS.find m (put_all ws entries)
  = match last_write m ws with
    | Some data => Some (File data)
    | None => FS.find m entries
    end.
Proof.
  unfold put_all, last_write.
  induction ws as [|w ws IH] using rev_ind; [reflexivity|].
  rewrite fold_left_app, rev_app_distr. cbn [fold_left rev app List.find].
  rewrite find_put. destruct (String.eqb (fst w) m); [reflexivity | exact IH].
Qed.

Lemma no_dir_put_all (name : string) (ws : list (string * list byte))
  (entries : list (string * node)) :
  no_dir name entries = true -> no_dir name (put_all ws entries) = true.
Proof.
  unfold no_dir. rewrite find_put_all.
  destruct (last_write name ws); [reflexivity | trivial].
Qed.

(** Writing a file into an existing directory. *)
Lemma write_in_dir (cs : list string) (name : string) (data : list byte)
  (root : node) (entries : list (string * node)) :
  FS.lookup root cs = Some (Dir entries) -> no_dir name entries = true ->
  exists root',
    FS.write (cs ++ [name]) data root = Some root'
    /\ FS.lookup root' cs = Some (Dir (FS.put name (File data) entries)).
Proof.
  intros Hl Hn. revert root Hl. induction cs as [|c cs IH]; intros root Hl.
  - cbn in Hl. injection Hl as ->. cbn [app FS.write].
    eexists. split; [|reflexivity].
    unfold no_dir in Hn.
    destruct (FS.find name entries) as [[contents|sub]|]; try reflexivity.
    discriminate Hn.
  - cbn [FS.lookup] in Hl. destruct root as [contents|es]; [discriminate|].
    destruct (FS.find c es) as [x|] eqn:Ec; [|discriminate].
    destruct (IH x Hl) as (x' & Hw & Hl').
    exists (Dir (FS.put c x' es)). split.
    + change ((c :: cs) ++ [name]) with (c :: (cs ++ [name])).
      cbn [FS.write]. rewrite Ec, Hw.
      destruct (cs ++ [name]) eqn:Eapp; [|reflexivity].
      now apply app_eq_nil in Eapp as [_ Eapp].
    + cbn [FS.lookup]. rewrite find_put, String.eqb_refl. exact Hl'.
Qed.

Lemma home_components :
  FS.components pythonEnvironmentHomeDir = ["home"; "earth"].
Proof. reflexivity. Qed.

Lemma home_path (name : string) :
  plain name = true ->
  FS.components (PATH.join2 pythonEnvironmentHomeDir name) = ["home"; "earth"; name].
Proof.
  intros Hp. change pythonEnvironmentHomeDir with (absolute ["home"; "earth"]).
  rewrite join2_plain; [|repeat constructor|exact Hp].
  apply components_absolute. repeat constructor.
  unfold plain in Hp. now apply andb_prop in Hp as [Hp _].
Qed.

Lemma writeFile_home (root : node) (entries : list (string * node))
  (name : string) (data : list byte) :
  FS.lookup root (FS.components pythonEnvironmentHomeDir) = Some (Dir entries) ->
  plain name = true -> no_dir name entries = true ->
  exists root',
    FS.writeFile root (PATH.join2 pythonEnvironmentHomeDir name) data = inr root'
    /\ FS.lookup root' (FS.components pythonEnvironmentHomeDir)
       = Some (Dir (FS.put name (File data) entries)).
Proof.
  intros Hl Hp Hn. unfold FS.writeFile. rewrite (home_path _ Hp).
  rewrite home_components in *.
  destruct (write_in_dir ["home"; "earth"] name data root entries Hl Hn)
    as (root' & Hw & Hl').
  exists root'. cbn [app] in Hw. rewrite Hw. split; [reflexivity | exact Hl'].
Qed.

Lemma readFile_home (root : node) (entries : list (string * node)) (name : string) :
  FS.lookup root (FS.components pythonEnvironmentHomeDir) = Some (Dir entries) ->
  plain name = true ->
  FS.readFile root (PATH.join2 pythonEnvironmentHomeDir name)
  = match FS.find name entries with
    | Some (File contents) => inr contents
    | _ => inl FS.ErrnoError
    end.
Proof.
  intros Hl Hp. unfold FS.readFile. rewrite (home_path _ Hp).
  rewrite home_components in Hl.
  change ["home"; "earth"; name] with (["home"; "earth"] ++ [name]).
  rewrite (lookup_app _ _ _ _ Hl). cbn [FS.lookup].
  destruct (FS.find name entries) as [[contents|sub]|]; reflexivity.
Qed.

(** A loop of [FS.writeFile] into the home directory. *)
Lemma forEach_writeFile_home (ws : list (string * list byte)) (s : State)
  (entries : list (string * node)) :
  FS.lookup (fs s) (FS.components pythonEnvironmentHomeDir) = Some (Dir entries) ->
  Forall (fun w => plain (fst w) = true) ws ->
  Forall (fun w => no_dir (fst w) entries = true) ws ->
  exists s',
    forEach ws (fun w => FS_writeFile (PATH.join2 pythonEnvironmentHomeDir (fst w))
                           (snd w)) s = (inr tt, s')
    /\ FS.lookup (fs s') (FS.components pythonEnvironmentHomeDir)
       = Some (Dir (put_all ws entries))
    /\ out_string s' = out_string s /\ err_string s' = err_string s.
Proof.
  intros Hl Hp Hn. revert s entries Hl Hn.
  induction Hp as [|w ws Hw _ IH]; intros s entries Hl Hn.
  - exists s. repeat split; [exact Hl].
  - inversion Hn as [|? ? Hnw Hnws]; subst.
    destruct (writeFile_home (fs s) entries (fst w) (snd w) Hl Hw Hnw)
      as (root' & Ew & Hl').
    cbn [forEach]. rewrite bind_eq. unfold FS_writeFile at 1. cbn zeta.
    cbn [fs with_event]. rewrite Ew.
    match goal with
    | |- context [forEach ws _ ?s1] =>
        destruct (IH s1 (FS.put (fst w) (File (snd w)) entries)) as (s' & E & H1 & H2 & H3)
    end.
    + exact Hl'.
    + eapply List.Forall_impl; [|exact Hnws]. intros w' Hw'.
      unfold no_dir in *. rewrite find_put.
      destruct (String.eqb (fst w) (fst w')); [reflexivity | exact Hw'].
    + exists s'. split; [exact E|]. split; [exact H1|]. split; assumption.
Qed.

Lemma input_writes_length (files : list FileEntry) :
  (length (input_writes files) <= length files)%nat.
Proof.
  induction files as [|f files IH]; [reflexivity|].
  rewrite input_writes_cons. cbn [length].
  destruct (filename f), (b64_data f); try lia.
  destruct (base64ToBytes _); cbn [length]; lia.
Qed.

(** When every entry gives a write, the loop over the input files is the
    loop of the writes. *)
Lemma forEach_input_writes h (files : list FileEntry) (s : State) :
  length (input_writes files) = length files ->
  forEach files (writeInputFile h) s
  = forEach (input_writes files)
      (fun w => FS_writeFile (PATH.join2 pythonEnvironmentHomeDir (fst w)) (snd w)) s.
Proof.
  revert s. induction files as [|f files IH]; intros s Hlen; [reflexivity|].
  rewrite input_writes_cons in *. pose proof (input_writes_length files) as Hle.
  cbn [length] in Hlen.
  destruct (filename f) as [name|] eqn:En; [|lia].
  destruct (b64_data f) as [b64|] eqn:Eb; [|lia].
  destruct (base64ToBytes b64) as [data|] eqn:Ed; [|lia].
  cbn [length] in Hlen. cbn [forEach]. rewrite !bind_eq.
  rewrite (writeInputFile_written h f name b64 data s En Eb Ed). cbn [fst snd].
  destruct (FS_writeFile _ data s) as [[e|[]] s1]; [reflexivity|].
  apply IH. lia.
Qed.

Lemma mapArr_read_contents h (l : list string) (s s' : State)
  (outs : list OutputFile) :
  mapArr l (read_output h) s = (inr outs, s') ->
  Forall2 (fun f o => out_filename o = relative f
                      /\ exists data,
                           FS.readFile (fs s) f = inr data
                           /\ bytesToBase64 (max_arguments h) data
                              = Some (out_b64_data o))
          l outs.
Proof.
  revert outs. induction l as [|f l IH]; intros outs.
  - intros [= <- _]. constructor.
  - cbn [mapArr]. rewrite bind_eq, read_output_eq.
    destruct (FS.readFile (fs s) f) as [e|data] eqn:Er; [discriminate|].
    destruct (bytesToBase64 (max_arguments h) data) as [b64|] eqn:Eb;
      [|discriminate].
    rewrite bind_eq.
    destruct (mapArr_read h l s) as (r & E & _). rewrite E.
    destruct r as [e|outs']; [discriminate|].
    intros [= <- <-]. constructor.
    + split; [reflexivity|]. exists data. split; [exact Er | exact Eb].
    + apply IH. rewrite E. reflexivity.
Qed.

Lemma prepareEnvironment_fields (seed : list (string * list byte))
  (env : PyodidePythonEnvironment) :
  let env' := prepareEnvironment seed env in
  default_files env'
  = default_files env
      ++ List.map (fun file => (NodePath.basename
                                  (NodePath.join defaultDirectoryOuterPath (fst file)),
                                snd file)) seed
  /\ (forall n, n ∈ default_file_names env'
                <-> n ∈ default_file_names env
                    \/ In n (List.map (fun file =>
                                         NodePath.basename
                                           (NodePath.join defaultDirectoryOuterPath
                                              (fst file))) seed))
  /\ pyodide env' = pyodide env /\ interrupt env' = interrupt env.
Proof.
  revert env. unfold prepareEnvironment.
  induction seed as [|file seed IH]; intros env; cbn zeta.
  - cbn [fold_left List.map]. rewrite app_nil_r.
    repeat split; try tauto. intros [H|[]]. exact H.
  - cbn [fold_left List.map].
    match goal with
    | |- context [fold_left _ seed ?e] => destruct (IH e) as (H1 & H2 & H3 & H4)
    end.
    cbn zeta in *. rewrite H1, H3, H4. cbn [default_files default_file_names pyodide interrupt].
    split; [now rewrite <- app_assoc|]. split; [|split; reflexivity].
    intros n. rewrite H2. cbn [default_file_names In].
    rewrite elem_of_union, elem_of_singleton. intuition congruence.
Qed.

Lemma basename_join_plain (file : string) :
  plain file = true ->
  NodePath.basename (NodePath.join defaultDirectoryOuterPath file) = file.
Proof.
  intros Hp.
  assert (Hn : is_name file = true)
    by (unfold plain in Hp; now apply andb_prop in Hp as [Hn _]).
  unfold NodePath.join. rewrite (is_name_nonempty _ Hn).
  assert (Hc : List.filter PATH.nonempty
                 (Js.split "/" (defaultDirectoryOuterPath +:+ "/" +:+ file))
               = [defaultDirectoryOuterPath; file]).
  { change (List.filter PATH.nonempty (Js.split "/" ?p)) with (FS.components p).
    rewrite components_append, (components_name _ Hn). reflexivity. }
  unfold PATH.normalize. rewrite Hc.
  change (PATH.isAbs (defaultDirectoryOuterPath +:+ "/" +:+ file)) with false.
  cbn [negb].
  assert (Hna : PATH.normalizeArray [defaultDirectoryOuterPath; file] true
                = [defaultDirectoryOuterPath; file]).
  { unfold PATH.normalizeArray. cbn [fold_right]. unfold PATH.scan at 2.
    unfold plain in Hp. apply andb_prop in Hp as [_ Hp].
    apply negb_true_iff, orb_false_iff in Hp as [H1 H2]. rewrite H1, H2.
    reflexivity. }
  rewrite Hna.
  assert (Hend : PATH.ends_with_slash (defaultDirectoryOuterPath +:+ "/" +:+ file)
                 = false).
  { rewrite <- append_assoc, ends_with_slash_append by (apply is_name_nonempty, Hn).
    apply ends_with_slash_name, is_name_no_slash, Hn. }
  rewrite Hend, andb_false_r.
  assert (Hj : Js.join "/" [defaultDirectoryOuterPath; file]
               = defaultDirectoryOuterPath +:+ "/" +:+ file) by reflexivity.
  rewrite Hj.
  assert (Hne : PATH.nonempty (defaultDirectoryOuterPath +:+ "/" +:+ file) = true)
    by reflexivity.
  rewrite Hne. cbn [negb andb].
  change (NodePath.basename (defaultDirectoryOuterPath +:+ "/" +:+ file) = file).
  unfold NodePath.basename. rewrite Hc. reflexivity.
Qed.

Lemma readFile_after_writes (root root' : node) (entries : list (string * node))
  (ws : list (string * list byte)) (name : string) :
  FS.lookup root (FS.components pythonEnvironmentHomeDir) = Some (Dir entries) ->
  FS.lookup root' (FS.components pythonEnvironmentHomeDir)
  = Some (Dir (put_all ws entries)) ->
  plain name = true ->
  FS.readFile root' (PATH.join2 pythonEnvironmentHomeDir name)
  = match last_write name ws with
    | Some data => inr data
    | None => FS.readFile root (PATH.join2 pythonEnvironmentHomeDir name)
    end.
Proof.
  intros Hl Hl' Hp.
  rewrite (readFile_home _ _ _ Hl' Hp), (readFile_home _ _ _ Hl Hp), find_put_all.
  destruct (last_write name ws); reflexivity.
Qed.

End HomeFacts.

(** X4. When every entry has a file name and a payload that decodes, the
    names are plain, the home directory is there and none of the names is
    a directory in it, and the packages of the code load, then the code is
    run, and on a file system in which every input file is read back, at
    its name in the home directory, with the bytes of the last entry of
    that name; the other files of the home directory are as before. *)
Theorem input_files_are_in_place h (code : string) (files : list FileEntry)
  (s : State) (entries : list (string * node)) :
  loadPackagesFromImports h code = None ->
  length (input_writes files) = length files ->
  FS.lookup (fs s) (FS.components pythonEnvironmentHomeDir) = Some (Dir entries) ->
  Forall (fun w => plain (fst w) = true) (input_writes files) ->
  Forall (fun w => no_dir (fst w) entries = true) (input_writes files) ->
  exists s2,
    before_run h code files s = Some s2
    /\ forall name,
         plain name = true ->
         FS.readFile (fs s2) (PATH.join2 pythonEnvironmentHomeDir name)
         = match last_write name (input_writes files) with
           | Some data => inr data
           | None => FS.readFile (fs s) (PATH.join2 pythonEnvironmentHomeDir name)
           end.
Proof.
  intros Hload Hlen Hl Hp Hn. unfold before_run. rewrite Hload.
  rewrite (forEach_input_writes h files _ Hlen).
  destruct (forEach_writeFile_home (input_writes files)
              (with_event (LoadPackagesFromImports code)
                 (with_result initial_result (with_tick s))) entries Hl Hp Hn)
    as (s2 & E & Hl2 & _).
  rewrite E. exists s2. split; [reflexivity|].
  intros name Hname. now apply (readFile_after_writes _ _ entries).
Qed.

Lemma input_files_are_in_place_witness :
  exists s2,
    before_run plain_host "1 + 1" [a_txt] (fresh_state seeded_root "" "") = Some s2
    /\ forall name,
         plain name = true ->
         FS.readFile (fs s2) (PATH.join2 pythonEnvironmentHomeDir name)
         = match last_write name (input_writes [a_txt]) with
           | Some data => inr data
           | None => FS.readFile seeded_root (PATH.join2 pythonEnvironmentHomeDir name)
           end.
Proof.
  apply (input_files_are_in_place plain_host "1 + 1" [a_txt]
           (fresh_state seeded_root "" "") [("seed.txt", File ["s"%byte])]).
  - reflexivity.
  - vm_compute. reflexivity.
  - vm_compute. reflexivity.
  - vm_compute. repeat constructor.
  - vm_compute. repeat constructor.
Defined.

(** X5. [loadEnvironment], when the interpreter and the packages load,
    the home directory is there, and the default files have plain names of
    which none is a directory in it: the default files are written into
    the home directory, each read back at its name with its bytes; the
    imports are run on that file system; the object then holds the file
    system the imports leave, as its two accumulators what the imports
    sent to [stdout] and [stderr], the interrupt flag 0 and the default
    files as before; the promise is rejected exactly when the imports
    throw. *)
Theorem loadEnvironment_seeds_home h (env : PyodidePythonEnvironment)
  (root : node) (entries : list (string * node)) :
  loadPyodide h = inr root -> loadPackage h = None ->
  FS.lookup root (FS.components pythonEnvironmentHomeDir) = Some (Dir entries) ->
  Forall (fun f => plain (fst f) = true) (default_files env) ->
  Forall (fun f => no_dir (fst f) entries = true) (default_files env) ->
  exists seeded,
    (forall name,
        plain name = true ->
        FS.readFile seeded (PATH.join2 pythonEnvironmentHomeDir name)
        = match last_write name (default_files env) with
          | Some data => inr data
          | None => FS.readFile root (PATH.join2 pythonEnvironmentHomeDir name)
          end)
    /\ let run := runPythonAsync h preload_imports seeded in
       loadEnvironment h env
       = (match py_outcome run with inl e => Some e | inr _ => None end,
          {| env_out_string := stream_text (py_stdout run);
             env_err_string := stream_text (py_stderr run);
             default_files := default_files env;
             default_file_names := default_file_names env;
             pyodide := Some (py_fs run); interrupt := 0 |}).
Proof.
  intros Hload Hpkg Hl Hp Hn.
  destruct (forEach_writeFile_home (default_files env) (fresh_state root "" "")
              entries Hl Hp Hn) as (s1 & E & Hl1 & Ho & He).
  exists (fs s1). split.
  - intros name Hname. now apply (readFile_after_writes root _ entries).
  - cbn zeta. unfold loadEnvironment, loadEnvironment_body. rewrite Hload.
    rewrite bind_eq, E, bind_eq, Hpkg, bind_eq. unfold py_runPythonAsync.
    cbn in Ho, He.
    destruct (py_outcome (runPythonAsync h preload_imports (fs s1))) as [e|v];
      cbn; rewrite Ho, He; reflexivity.
Qed.

Lemma loadEnvironment_seeds_home_witness :
  exists seeded,
    (forall name,
        plain name = true ->
        FS.readFile seeded (PATH.join2 pythonEnvironmentHomeDir name)
        = match last_write name seeded_files with
          | Some data => inr data
          | None => FS.readFile (example_root [])
                      (PATH.join2 pythonEnvironmentHomeDir name)
          end)
    /\ let run := runPythonAsync plain_host preload_imports seeded in
       loadEnvironment plain_host seeded_environment
       = (match py_outcome run with inl e => Some e | inr _ => None end,
          {| env_out_string := stream_text (py_stdout run);
             env_err_string := stream_text (py_stderr run);
             default_files := seeded_files;
             default_file_names := seeded_names;
             pyodide := Some (py_fs run); interrupt := 0 |}).
Proof.
  apply (loadEnvironment_seeds_home plain_host seeded_environment
           (example_root []) []).
  - reflexivity.
  - reflexivity.
  - vm_compute. reflexivity.
  - vm_compute. repeat constructor.
  - vm_compute. repeat constructor.
Defined.

(** X6. [init] on a seed directory whose file names are plain: the object
    keeps the seed files under their own names, in the order of the
    directory listing, its set of default file names is the set of these
    names, and its interrupt flag is 0, whether the interpreter loads or
    not. *)
Theorem init_keeps_the_seed h (seed : list (string * list byte)) :
  Forall (fun file => plain (fst file) = true) seed ->
  let env := snd (init h seed) in
  default_files env = seed
  /\ (forall n, n ∈ default_file_names env <-> In n (List.map fst seed))
  /\ interrupt env = 0%N.
Proof.
  intros Hp. cbn zeta.
  assert (Hkeep : forall env0,
             default_files (snd (loadEnvironment h env0)) = default_files env0
             /\ default_file_names (snd (loadEnvironment h env0))
                = default_file_names env0
             /\ interrupt (snd (loadEnvironment h env0)) = 0%N).
  { intros env0. unfold loadEnvironment.
    destruct (loadPyodide h) as [e|root]; [repeat split; reflexivity|].
    destruct (loadEnvironment_body h _ _) as [r s]. repeat split; reflexivity. }
  unfold init. destruct (Hkeep (prepareEnvironment seed new_environment))
    as (-> & -> & ->).
  destruct (prepareEnvironment_fields seed new_environment) as (H1 & H2 & _).
  cbn zeta in *.
  assert (Hnames : List.map (fun file => NodePath.basename
                                           (NodePath.join defaultDirectoryOuterPath
                                              (fst file))) seed
                   = List.map fst seed).
  { apply map_ext_in. intros file Hin. apply basename_join_plain.
    rewrite List.Forall_forall in Hp. now apply Hp. }
  split; [|split; [|reflexivity]].
  - rewrite H1. cbn [default_files new_environment app].
    rewrite <- (map_id seed) at 2. apply map_ext_in. intros [name data] Hin.
    cbn [fst snd]. f_equal. apply (basename_join_plain name).
    rewrite List.Forall_forall in Hp. now apply (Hp (name, data)).
  - intros n. rewrite H2, Hnames. cbn [default_file_names new_environment].
    rewrite elem_of_empty. tauto.
Qed.

Lemma init_keeps_the_seed_witness :
  default_files (snd (init plain_host seeded_files)) = seeded_files
  /\ (forall n, n ∈ default_file_names (snd (init plain_host seeded_files))
                <-> In n (List.map fst seeded_files))
  /\ interrupt (snd (init plain_host seeded_files)) = 0%N.
Proof.
  apply (init_keeps_the_seed plain_host seeded_files).
  vm_compute. repeat constructor.
Defined.

(** X7. A result that is a success reports every file of the home
    directory that is not an input file, in the order of the listing:
    each output file has the path relative to the home directory as its
    name, and as its payload the base64 text of the bytes the file has in
    the file system the run leaves. *)
Theorem success_reports_new_files h (D : gset string) (code : string)
  (files : list FileEntry) (s s' : State) (r : CodeExecutionResponse) :
  runCode h D code files s = (inr r, s') -> success r = true ->
  exists entries outs,
    FS.lookup (fs s') (FS.components pythonEnvironmentHomeDir) = Some (Dir entries)
    /\ output_files r = Some outs
    /\ Forall2 (fun f o =>
                  out_filename o = relative f
                  /\ exists data, FS.readFile (fs s') f = inr data
                                  /\ bytesToBase64 (max_arguments h) data
                                     = Some (out_b64_data o))
               (new_paths D files entries) outs.
Proof.
  rewrite runCode_unfold.
  destruct (runCode_try h D code files _) as [[e|[]] s1] eqn:E.
  { unfold finish. intros [= <- _]. discriminate. }
  revert E. rewrite runCode_try_eq. cbn zeta.
  destruct (loadPackagesFromImports h code); [discriminate|].
  destruct (forEach files (writeInputFile h) _) as [[e2|[]] s2]; [discriminate|].
  destruct (py_outcome (runPythonAsync h code (fs s2))) as [e3|v]; [discriminate|].
  destruct (FS.lookup (fs (after_run h code s2)) _) as [[contents|entries]|] eqn:El;
    try discriminate.
  destruct (readdir_throws D (Dir entries)); [discriminate|].
  destruct (mapArr (new_paths D files entries) (read_output h) (after_run h code s2))
    as [[e|outs] s4] eqn:Em; [discriminate|].
  pose proof (mapArr_read_contents _ _ _ _ _ Em) as Hc.
  destruct (mapArr_read h (new_paths D files entries) (after_run h code s2))
    as (r0 & Em' & _).
  rewrite Em in Em'. injection Em' as _ ->.
  intros [= <-]. unfold finish. intros [= <- <-] _.
  exists entries, outs. cbn. split; [exact El|]. split; [reflexivity | exact Hc].
Qed.

Lemma success_reports_new_files_witness :
  exists entries outs,
    FS.lookup (fs (snd exclusion_run)) (FS.components pythonEnvironmentHomeDir)
    = Some (Dir entries)
    /\ output_files (response_of exclusion_run) = Some outs
    /\ Forall2 (fun f o =>
                  out_filename o = relative f
                  /\ exists data,
                       FS.readFile (fs (snd exclusion_run)) f = inr data
                       /\ bytesToBase64 130000 data = Some (out_b64_data o))
               (new_paths seeded_names
                  [{| filename := Some "a.txt"; b64_data := Some "QQ==" |}] entries)
               outs.
Proof.
  apply (success_reports_new_files
           (example_host (creates "/home/earth/b.txt" ["B"%byte])
                         (inr (Some (PyNumber 2))))
           seeded_names "1 + 1"
           [{| filename := Some "a.txt"; b64_data := Some "QQ==" |}]
           (fresh_state seeded_root "" "")).
  - vm_compute. reflexivity.
  - vm_compute. reflexivity.
Defined.

(** ** A run that ends well *)

Section SuccessFacts.











End SuccessFacts.



(** ** The context block *)

(** X9. When the message cites line [N], the context block that [enrich]
    adds has at most nine lines; it has the cited line, under its number,
    when the source has a line [N]; and it is empty when [N] is more than
    four lines past the end of the source. *)
Theorem enrich_context_size (code errorMsg digits : string) :
  lineMatch errorMsg = Some digits ->
  let N := Js.parseInt digits in
  let codeLines := Js.split (ascii_of_nat 10) code in
  exists shown,
    enrich code errorMsg
    = errorMsg +:+ Js.nl +:+ Js.nl +:+ "Code context:" +:+ Js.nl
        +:+ Js.join Js.nl shown
    /\ (length shown <= 9)%nat
    /\ ((1 <= N <= Z.of_nat (length codeLines))%Z ->
        In (Js.toString N +:+ ": " +:+ nth (Z.to_nat (N - 1)) codeLines "") shown)
    /\ ((Z.of_nat (length codeLines) + 4 < N)%Z -> shown = []).
Proof.
  intros Hm N codeLines. unfold enrich. rewrite Hm. cbn zeta.
  fold N. fold codeLines.
  rewrite (context_lines codeLines N) by apply parseInt_nonneg.
  eexists. split; [reflexivity|].
  set (lo := Z.max 1 (N - 4)). set (hi := Z.min (Z.of_nat (length codeLines)) (N + 4)).
  split; [|split].
  - rewrite !length_map, length_seq. lia.
  - intros HN. apply in_map_iff. exists N. split; [reflexivity|].
    apply in_map_iff. exists (Z.to_nat (N - lo)). split; [lia|].
    apply in_seq. lia.
  - intros HN. replace (Z.to_nat (hi - lo + 1)) with 0%nat by lia. reflexivity.
Qed.

Lemma enrich_context_size_witness :
  exists shown,
    enrich failing_code (err_text ZeroDivisionError)
    = err_text ZeroDivisionError +:+ Js.nl +:+ Js.nl +:+ "Code context:" +:+ Js.nl
        +:+ Js.join Js.nl shown
    /\ (length shown <= 9)%nat
    /\ ((1 <= Js.parseInt "2"
         <= Z.of_nat (length (Js.split (ascii_of_nat 10) failing_code)))%Z ->
        In (Js.toString (Js.parseInt "2") +:+ ": "
              +:+ nth (Z.to_nat (Js.parseInt "2" - 1))
                    (Js.split (ascii_of_nat 10) failing_code) "") shown)
    /\ ((Z.of_nat (length (Js.split (ascii_of_nat 10) failing_code)) + 4
         < Js.parseInt "2")%Z -> shown = []).
Proof.
  apply (enrich_context_size failing_code (err_text ZeroDivisionError) "2").
  vm_compute. reflexivity.
Defined.

(** ** Waiting for the interpreter *)

Section WaitFacts.

Lemma wait_loop_spec (pyodide_at : nat -> option node) (remaining : nat) :
  (remaining <= 100)%nat ->
  let m := wait_loop pyodide_at remaining in
  (100 - remaining <= m <= 100)%nat
  /\ (forall j, (100 - remaining <= j < m)%nat -> pyodide_at j = None)
  /\ ((m < 100)%nat -> pyodide_at m <> None).
Proof.
  induction remaining as [|remaining IH]; intros Hle; cbn zeta.
  - cbn [wait_loop]. split; [lia|]. split; [intros j Hj; lia | intros Hm; lia].
  - cbn [wait_loop].
    destruct (pyodide_at (100 - S remaining)%nat) as [root|] eqn:E.
    + split; [lia|]. split; [intros j Hj; lia|]. intros _. rewrite E. discriminate.
    + destruct (IH ltac:(lia)) as (Hm & Hnone & Hsome). cbn zeta in *.
      split; [lia|]. split; [|exact Hsome].
      intros j Hj. destruct (decide (j = 100 - S remaining)%nat) as [->|Hne];
        [exact E | apply Hnone; lia].
Qed.

End WaitFacts.

(** X10. [waitForReady] resolves exactly when the interpreter is there at
    one of the 101 looks the loop and the final test take, after 0 to 100
    waits, and then with the instance seen at the first such look;
    otherwise it rejects. *)
Theorem waitForReady_first_loaded (pyodide_at : nat -> option node) (root : node) :
  waitForReady pyodide_at = inr root
  <-> exists k, (k <= 100)%nat /\ pyodide_at k = Some root
                /\ forall j, (j < k)%nat -> pyodide_at j = None.
Proof.
  unfold waitForReady.
  set (m := match pyodide_at 0%nat with
            | Some _ => 0%nat
            | None => wait_loop pyodide_at 100
            end).
  assert (Hm : (m <= 100)%nat /\ (forall j, (j < m)%nat -> pyodide_at j = None)
               /\ ((m < 100)%nat -> pyodide_at m <> None)).
  { subst m. destruct (pyodide_at 0%nat) eqn:E0.
    - split; [lia|]. split; [intros j Hj; lia|]. intros _. rewrite E0. discriminate.
    - destruct (wait_loop_spec pyodide_at 100 ltac:(lia)) as (H1 & H2 & H3).
      cbn zeta in *. split; [lia|]. split; [|exact H3].
      intros j Hj. apply H2. lia. }
  destruct Hm as (Hle & Hnone & Hsome).
  split.
  - destruct (pyodide_at m) as [r|] eqn:E; [|discriminate].
    intros [= <-]. exists m. split; [exact Hle|]. split; [exact E | exact Hnone].
  - intros (k & Hk & Hroot & Hbefore).
    assert (m = k).
    { destruct (lt_eq_lt_dec m k) as [[Hlt|Heq]|Hgt]; [|exact Heq|].
      - exfalso. apply Hsome; [lia | now apply Hbefore].
      - rewrite (Hnone k Hgt) in Hroot. discriminate. }
    subst m. now rewrite H, Hroot.
Qed.

(** ** The request handler, case by case *)

Section RequestFacts.

Lemma trim_start_shape (s : string) :
  (Js.trim_start s = "" /\ blank s = true)
  \/ (exists c rest, Js.trim_start s = String c rest /\ Js.is_white_space c = false
                     /\ blank s = false).
Proof.
  unfold blank. induction s as [|c s IH]; [left; split; reflexivity|].
  cbn [Js.trim_start list_ascii_of_string forallb].
  destruct (Js.is_white_space c) eqn:Ec; [exact IH|].
  right. exists c, s. repeat split; [exact Ec].
Qed.

Lemma rev_string_empty (s : string) : Js.rev_string s = "" -> s = "".
Proof.
  unfold Js.rev_string. intros H.
  apply (f_equal list_ascii_of_string) in H.
  rewrite list_ascii_of_string_of_list_ascii in H. cbn in H.
  destruct s as [|c s]; [reflexivity|].
  cbn [list_ascii_of_string rev] in H. now apply app_eq_nil in H as [_ H].
Qed.

Lemma blank_rev_string (s : string) : blank (Js.rev_string s) = blank s.
Proof.
  unfold blank, Js.rev_string. rewrite list_ascii_of_string_of_list_ascii.
  induction (list_ascii_of_string s) as [|c l IH]; [reflexivity|].
  cbn [rev forallb]. rewrite forallb_app, IH. cbn [forallb].
  rewrite andb_true_r. apply andb_comm.
Qed.

(** [trim] leaves nothing exactly of the strings of white space. *)
Lemma trim_blank (s : string) : Js.trim s = "" <-> blank s = true.
Proof.
  unfold Js.trim. split.
  - intros H. apply rev_string_empty in H.
    destruct (trim_start_shape s) as [[_ Hb]|(c & rest & E & Hc & _)]; [exact Hb|].
    exfalso. rewrite E in H.
    destruct (trim_start_shape (Js.rev_string (String c rest)))
      as [[_ Hb]|(c' & rest' & E' & _)]; [|rewrite E' in H; discriminate].
    rewrite blank_rev_string in Hb. unfold blank in Hb.
    cbn [list_ascii_of_string forallb] in Hb. rewrite Hc in Hb. discriminate.
  - intros Hb. destruct (trim_start_shape s) as [[E _]|(c & rest & _ & _ & Hn)];
      [|congruence].
    rewrite E. reflexivity.
Qed.

Lemma has_no_payload (files : list FileEntry) :
  Exists (fun f => b64_data f = None) files ->
  existsb (fun f => bool_decide (b64_data f = None)) files = true.
Proof.
  intros H. apply existsb_exists. apply List.Exists_exists in H as (f & Hin & Hf).
  exists f. split; [exact Hin | now apply bool_decide_eq_true].
Qed.

(** With a new interpreter, [loadEnvironment] makes the object from the
    default files alone. *)
Lemma loadEnvironment_from_defaults h (env1 env2 : PyodidePythonEnvironment)
  (root : node) :
  loadPyodide h = inr root ->
  default_files env1 = default_files env2 ->
  default_file_names env1 = default_file_names env2 ->
  loadEnvironment h env1 = loadEnvironment h env2.
Proof.
  intros Hl Hf Hn. unfold loadEnvironment. rewrite Hl, Hf, Hn. reflexivity.
Qed.

(** The first call of a run is the loading of the packages. *)
Lemma runCode_first_call h (D : gset string) (code : string)
  (files : list FileEntry) (s : State) :
  exists rest,
    trace (snd (runCode h D code files s))
    = trace s ++ LoadPackagesFromImports code :: rest.
Proof.
  rewrite trace_runCode.
  pose proof (runCode_try_frame h D code files s) as (_ & _ & Ht). cbn zeta in Ht.
  destruct (loadPackagesFromImports h code).
  - rewrite Ht. exists []. reflexivity.
  - destruct (forEach_write_trace h files
                (with_event (LoadPackagesFromImports code)
                   (with_result initial_result (with_tick s))))
      as (ws & _ & Hw & _).
    rewrite Ht, Hw. cbn [trace with_event with_result with_tick].
    rewrite <- !app_assoc. eexists. reflexivity.
Qed.

(** A result without final expression is serialised. *)
Lemma stringify_without_value h (r : CodeExecutionResponse) :
  final_expression r = None -> stringify_throws h r = None.
Proof. unfold stringify_throws. now intros ->. Qed.

End RequestFacts.

(** X11. Whatever the request and the interpreter: [runRequest] writes at
    most one body to the response; it ends the response exactly when its
    promise is not rejected, and only after a body has been written. When
    no body is written the promise is rejected: either [runCode] was not
    called, and the rejection is the failure of [waitForReady] or the type
    error for an entry without payload; or [runCode] was called and has
    returned a result on which [JSON.stringify] throws, and the rejection
    is what it throws. *)
Theorem runRequest_answers_at_most_once h (env : PyodidePythonEnvironment)
  (pyodide_at : nat -> option node) (req : Request) :
  let o := runRequest h env pyodide_at req in
  (length (written o) <= 1)%nat
  /\ (ended o = true <-> rejected o = None)
  /\ (ended o = true -> length (written o) = 1%nat)
  /\ (written o = [] ->
      rejected o <> None
      /\ ((calls o = []
           /\ (rejected o = Some not_loaded
               \/ rejected o = Some slice_of_undefined))
          \/ (calls o <> []
              /\ exists root code,
                   waitForReady pyodide_at = inr root
                   /\ req_code req = Some code
                   /\ rejected o
                      = stringify_throws h
                          (response_of
                             (runCode h (default_file_names env) code
                                (default [] (req_files req))
                                (fresh_state root (env_out_string env)
                                   (env_err_string env))))))).
Proof.
  cbn zeta. unfold runRequest.
  destruct (waitForReady pyodide_at) as [e|root] eqn:Ew.
  { cbn. split; [lia|]. split; [split; discriminate|]. split; [discriminate|].
    intros _. split; [discriminate|]. left. split; [reflexivity|].
    left. f_equal. unfold waitForReady in Ew.
    destruct (pyodide_at _); [discriminate | now injection Ew as <-]. }
  destruct (req_code req) as [code|].
  2: { cbn. split; [lia|]. split; [split; reflexivity|].
       split; [reflexivity | discriminate]. }
  destruct (String.eqb (Js.trim code) "").
  { cbn. split; [lia|]. split; [split; reflexivity|].
    split; [reflexivity | discriminate]. }
  destruct (existsb _ _).
  { cbn. split; [lia|]. split; [split; discriminate|]. split; [discriminate|].
    intros _. split; [discriminate|]. left. split; [reflexivity|]. now right. }
  cbn [default_file_names env_out_string env_err_string with_instance].
  destruct (runCode_first_call h (default_file_names env) code
              (default [] (req_files req))
              (fresh_state root (env_out_string env) (env_err_string env)))
    as (rest & Htr).
  destruct (runCode_returns h (default_file_names env) code
              (default [] (req_files req))
              (fresh_state root (env_out_string env) (env_err_string env)))
    as (r & s & E).
  rewrite E in *. cbn [snd fst trace fresh_state app] in Htr.
  unfold response_of. cbn [fst].
  destruct (stringify_throws h r) as [e|] eqn:Es.
  - cbn [written ended rejected calls length].
    split; [lia|]. split; [split; discriminate|]. split; [discriminate|].
    intros _. split; [discriminate|]. right. split; [rewrite Htr; discriminate|].
    exists root, code. split; [reflexivity|]. split; [reflexivity|].
    rewrite E. unfold response_of. cbn [fst]. now rewrite Es.
  - destruct (cleanup h _) as [failure env'].
    cbn [written ended rejected calls length].
    split; [lia|]. split; [apply bool_decide_eq_true|].
    split; [reflexivity | discriminate].
Qed.

(** X12. With the interpreter ready: a request whose code is missing or
    consists of white space only is answered with the ["no code
    provided"] failure, without a call of the interpreter and without a
    reload. A request with other code, whose entries all have a payload,
    has its code passed to the interpreter as it came, not trimmed; the
    body written is the result of [runCode], unless [JSON.stringify]
    throws on that result: then nothing is written, the response is not
    ended and the promise is rejected with what was thrown. *)
Theorem runRequest_blank_code h (env : PyodidePythonEnvironment)
  (pyodide_at : nat -> option node) (req : Request) (root : node) :
  waitForReady pyodide_at = inr root ->
  Forall (fun f => b64_data f <> None) (default [] (req_files req)) ->
  let o := runRequest h env pyodide_at req in
  match req_code req with
  | Some code =>
      if blank code then
        written o = [no_code_provided] /\ calls o = []
        /\ pyodide (env_after o) = Some root
      else
        let r := response_of (runCode h (default_file_names env) code
                                (default [] (req_files req))
                                (fresh_state root (env_out_string env)
                                   (env_err_string env))) in
        (exists rest, calls o = LoadPackagesFromImports code :: rest)
        /\ match stringify_throws h r with
           | None => written o = [r]
           | Some e => written o = [] /\ ended o = false /\ rejected o = Some e
           end
  | None =>
      written o = [no_code_provided] /\ calls o = []
      /\ pyodide (env_after o) = Some root
  end.
Proof.
  intros Hready Hfiles. cbn zeta. unfold runRequest. rewrite Hready.
  destruct (req_code req) as [code|]; [|repeat split; reflexivity].
  destruct (blank code) eqn:Eb.
  - apply trim_blank in Eb. rewrite Eb. repeat split; reflexivity.
  - destruct (String.eqb_spec (Js.trim code) "") as [Et|_].
    { apply trim_blank in Et. congruence. }
    rewrite (all_have_b64_data _ Hfiles).
    cbn [default_file_names env_out_string env_err_string with_instance].
    destruct (runCode_first_call h (default_file_names env) code
                (default [] (req_files req))
                (fresh_state root (env_out_string env) (env_err_string env)))
      as (rest & Htr).
    destruct (runCode_returns h (default_file_names env) code
                (default [] (req_files req))
                (fresh_state root (env_out_string env) (env_err_string env)))
      as (r & s & E).
    rewrite E in *. cbn [snd fst trace fresh_state app] in Htr.
    unfold response_of. cbn [fst].
    destruct (stringify_throws h r) as [e|].
    + cbn [written ended rejected calls].
      split; [now exists rest | repeat split; reflexivity].
    + destruct (cleanup h _) as [failure env'].
      cbn [written calls]. split; [now exists rest | reflexivity].
Qed.

Lemma runRequest_blank_code_witness :
  written (runRequest plain_host seeded_environment (loaded seeded_root)
             {| req_code := Some "  "; req_files := None |})
  = [no_code_provided]
  /\ calls (runRequest plain_host seeded_environment (loaded seeded_root)
              {| req_code := Some "  "; req_files := None |}) = []
  /\ pyodide (env_after (runRequest plain_host seeded_environment
                           (loaded seeded_root)
                           {| req_code := Some "  "; req_files := None |}))
     = Some seeded_root.
Proof.
  apply (runRequest_blank_code plain_host seeded_environment (loaded seeded_root)
           {| req_code := Some "  "; req_files := None |} seeded_root).
  - reflexivity.
  - constructor.
Defined.

(** X13. With the interpreter ready and code that is not blank, a request
    with an entry that has no payload is not answered: the handler throws
    while it logs the entries, before [runCode] is called; nothing is
    written to the response, the response is not ended, and the
    interpreter is neither used nor reloaded. *)
Theorem runRequest_entry_without_payload h (env : PyodidePythonEnvironment)
  (pyodide_at : nat -> option node) (req : Request) (root : node) (code : string)
  (files : list FileEntry) :
  waitForReady pyodide_at = inr root ->
  req_code req = Some code -> blank code = false ->
  req_files req = Some files ->
  Exists (fun f => b64_data f = None) files ->
  let o := runRequest h env pyodide_at req in
  written o = [] /\ ended o = false /\ rejected o = Some slice_of_undefined
  /\ calls o = [] /\ pyodide (env_after o) = Some root
  /\ interrupt (env_after o) = interrupt env.
Proof.
  intros Hready Hcode Hb Hfiles Hex. cbn zeta. unfold runRequest.
  rewrite Hready, Hcode, Hfiles.
  destruct (String.eqb_spec (Js.trim code) "") as [Et|_].
  { apply trim_blank in Et. congruence. }
  change (default [] (Some files)) with files.
  rewrite (has_no_payload _ Hex). repeat split; reflexivity.
Qed.

Lemma runRequest_entry_without_payload_witness :
  written (runRequest plain_host seeded_environment (loaded seeded_root)
             no_payload_request) = []
  /\ ended (runRequest plain_host seeded_environment (loaded seeded_root)
              no_payload_request) = false
  /\ rejected (runRequest plain_host seeded_environment (loaded seeded_root)
                 no_payload_request) = Some slice_of_undefined
  /\ calls (runRequest plain_host seeded_environment (loaded seeded_root)
              no_payload_request) = []
  /\ pyodide (env_after (runRequest plain_host seeded_environment
                           (loaded seeded_root) no_payload_request))
     = Some seeded_root
  /\ interrupt (env_after (runRequest plain_host seeded_environment
                             (loaded seeded_root) no_payload_request))
     = interrupt seeded_environment.
Proof.
  apply (runRequest_entry_without_payload plain_host seeded_environment
           (loaded seeded_root) no_payload_request seeded_root "1 + 1"
           [a_txt; {| filename := Some "b.txt"; b64_data := None |}]).
  - reflexivity.
  - reflexivity.
  - reflexivity.
  - reflexivity.
  - apply Exists_cons_tl, Exists_cons_hd. reflexivity.
Defined.

(** X14. After a request whose code was run and whose result is
    serialised, [terminate] and [cleanup] follow. When [loadPyodide] gives
    a new interpreter, nothing of the request is left: the object is what
    [loadEnvironment] makes of the object as it was before the request,
    whatever the code, the files and the run were, and the response is
    ended exactly when that reload is not rejected. When [loadPyodide]
    fails, the body has been written but the response is not ended, and
    the object keeps the interpreter the request has used. When
    [JSON.stringify] throws on the result, as on a [BigInt], the handler
    ends there: nothing is written, there is no [terminate] and no
    [cleanup], and the object keeps the interpreter the request has used,
    with its files. *)
Theorem recycle_forgets_the_request h (env : PyodidePythonEnvironment)
  (pyodide_at : nat -> option node) (req : Request) (root : node) (code : string) :
  waitForReady pyodide_at = inr root ->
  req_code req = Some code -> blank code = false ->
  Forall (fun f => b64_data f <> None) (default [] (req_files req)) ->
  let o := runRequest h env pyodide_at req in
  let run := runCode h (default_file_names env) code (default [] (req_files req))
               (fresh_state root (env_out_string env) (env_err_string env)) in
  match stringify_throws h (response_of run) with
  | None =>
      match loadPyodide h with
      | inr _ =>
          env_after o = snd (loadEnvironment h env)
          /\ rejected o = fst (loadEnvironment h env)
      | inl e =>
          rejected o = Some e /\ ended o = false
          /\ written o = [response_of run]
          /\ pyodide (env_after o) = Some (fs (snd run))
      end
  | Some e =>
      rejected o = Some e /\ ended o = false /\ written o = []
      /\ pyodide (env_after o) = Some (fs (snd run))
      /\ interrupt (env_after o) = interrupt env
  end.
Proof.
  intros Hready Hcode Hb Hfiles. cbn zeta. unfold runRequest.
  rewrite Hready, Hcode.
  destruct (String.eqb_spec (Js.trim code) "") as [Et|_].
  { apply trim_blank in Et. congruence. }
  rewrite (all_have_b64_data _ Hfiles).
  cbn [default_file_names env_out_string env_err_string with_instance].
  destruct (runCode_returns h (default_file_names env) code
              (default [] (req_files req))
              (fresh_state root (env_out_string env) (env_err_string env)))
    as (r & s & E).
  rewrite E. unfold response_of. cbn [fst snd].
  destruct (stringify_throws h r) as [e0|].
  { repeat split; reflexivity. }
  destruct (loadPyodide h) as [e|root0] eqn:El.
  - unfold cleanup, loadEnvironment. rewrite El. cbn. repeat split; reflexivity.
  - unfold cleanup.
    match goal with
    | |- context [loadEnvironment h (terminate ?e1)] =>
        rewrite (loadEnvironment_from_defaults h (terminate e1) env root0 El
                   eq_refl eq_refl)
    end.
    destruct (loadEnvironment h env) as [failure env']. split; reflexivity.
Qed.

Lemma recycle_forgets_the_request_witness :
  let o := runRequest bigint_host seeded_environment (loaded seeded_root)
             bigint_request in
  let run := runCode bigint_host (default_file_names seeded_environment)
               "open('leak.txt', 'w').write('L'); 2**64"
               (default [] (req_files bigint_request))
               (fresh_state seeded_root (env_out_string seeded_environment)
                  (env_err_string seeded_environment)) in
  match stringify_throws bigint_host (response_of run) with
  | None =>
      match loadPyodide bigint_host with
      | inr _ =>
          env_after o = snd (loadEnvironment bigint_host seeded_environment)
          /\ rejected o = fst (loadEnvironment bigint_host seeded_environment)
      | inl e =>
          rejected o = Some e /\ ended o = false
          /\ written o = [response_of run]
          /\ pyodide (env_after o) = Some (fs (snd run))
      end
  | Some e =>
      rejected o = Some e /\ ended o = false /\ written o = []
      /\ pyodide (env_after o) = Some (fs (snd run))
      /\ interrupt (env_after o) = interrupt seeded_environment
  end.
Proof.
  apply (recycle_forgets_the_request bigint_host seeded_environment
           (loaded seeded_root) bigint_request seeded_root
           "open('leak.txt', 'w').write('L'); 2**64").
  - reflexivity.
  - reflexivity.
  - reflexivity.
  - constructor.
Defined.

(** The request of ["1 + 1"] is recycled. The request whose value is 2^64
    is not answered, and the file its program wrote is still in the
    interpreter that the next request finds. *)
Example recycled_and_not_recycled :
  env_after (runRequest plain_host seeded_environment (loaded seeded_root)
               one_plus_one)
  = snd (loadEnvironment plain_host seeded_environment)
  /\ rejected (runRequest bigint_host seeded_environment (loaded seeded_root)
                 bigint_request) = Some BigInt_TypeError
  /\ written (runRequest bigint_host seeded_environment (loaded seeded_root)
                bigint_request) = []
  /\ match pyodide (env_after (runRequest bigint_host seeded_environment
                                 (loaded seeded_root) bigint_request)) with
     | Some root => FS.readFile root "/home/earth/leak.txt" = inr ["L"%byte]
     | None => False
     end.
Proof. vm_compute. repeat split; reflexivity. Qed.

(** ** More on the lock *)

Section LockMore.

Import Lock.

Lemma queue_sorted (st : LockState) (name : string) (prev : nat) (rest : list nat) :
  chain st name prev rest -> StronglySorted lt (prev :: rest).
Proof.
  revert prev. induction rest as [|j rest IH]; intros prev Hc.
  - repeat constructor.
  - constructor.
    + apply IH. now destruct Hc.
    + apply List.Forall_forall. intros k Hk.
      apply (chain_lt _ _ _ _ Hc). now apply list_elem_of_In.
Qed.

End LockMore.

(** X15. Lock names are independent: a step of the event loop for a call
    under one name leaves the queue of every other name as it is, and
    leaves every call under another name as it is. *)
Theorem lock_names_independent (st st' : Lock.LockState) (e : Lock.Step)
  (m : string) :
  Lock.step e st = Some st' ->
  step_name st e <> Some m ->
  Lock.queue st' m = Lock.queue st m
  /\ (forall i c, Lock.lockName c = m ->
                  (Lock.calls st' !! i = Some c <-> Lock.calls st !! i = Some c)).
Proof.
  intros Hstep Hm. destruct e as [name|id|id threw]; cbn [Lock.step step_name] in *.
  - injection Hstep as <-. assert (Hne : m <> name) by congruence. split.
    + unfold Lock.queue, Lock.doWithLock_enter. cbn [Lock.locksByName].
      now rewrite lookup_insert_ne by congruence.
    + intros i c Hc. unfold Lock.doWithLock_enter. cbn [Lock.calls].
      destruct (decide (i < length (Lock.calls st))%nat) as [Hi|Hi].
      * now rewrite lookup_app_l.
      * split; intros Hl.
        -- exfalso. rewrite lookup_app_r in Hl by lia.
           destruct (i - length (Lock.calls st))%nat; [|destruct n; discriminate].
           cbn in Hl. injection Hl as <-. cbn in Hc. congruence.
        -- apply lookup_lt_Some in Hl. lia.
  - destruct (wake_Some _ _ _ Hstep) as (c0 & p & Hc0 & _ & _ & _ & ->).
    rewrite Hc0 in Hm. split; [reflexivity|].
    intros i c Hc. cbn [Lock.calls].
    destruct (decide (i = id)) as [->|Hi].
    + rewrite list_lookup_insert_eq by (eapply lookup_lt_Some, Hc0). rewrite Hc0.
      split; intros [= <-]; cbn in Hc; congruence.
    + now rewrite list_lookup_insert_ne.
  - destruct (settle_Some _ _ _ _ Hstep) as (c0 & Hc0 & _ & ->).
    rewrite Hc0 in Hm. split.
    + unfold Lock.queue at 1. cbn [Lock.locksByName].
      now rewrite lookup_insert_ne by congruence.
    + intros i c Hc. cbn [Lock.calls].
      destruct (decide (i = id)) as [->|Hi].
      * rewrite list_lookup_insert_eq by (eapply lookup_lt_Some, Hc0). rewrite Hc0.
        split; intros [= <-]; cbn in Hc; congruence.
      * now rewrite list_lookup_insert_ne.
Qed.

Lemma lock_names_independent_witness :
  Lock.queue two_names_state "b" = [1%nat]
  /\ (forall i c, Lock.lockName c = "b" ->
                  (Lock.calls two_names_state !! i = Some c
                   <-> Lock.calls (default Lock.initial
                                     (Lock.run [Lock.DoWithLock "a"; Lock.DoWithLock "b";
                                                Lock.DoWithLock "a"] Lock.initial))
                         !! i = Some c)).
Proof.
  apply (lock_names_independent
           (default Lock.initial
              (Lock.run [Lock.DoWithLock "a"; Lock.DoWithLock "b";
                         Lock.DoWithLock "a"] Lock.initial))
           two_names_state (Lock.Settle 0 true) "b").
  - vm_compute. reflexivity.
  - vm_compute. discriminate.
Defined.

(** X16. A task runs only when every call made earlier under its lock
    name has finished: while the task of call [i] is in progress, each
    earlier call under the same name is through its [finally] block. *)
Theorem earlier_calls_have_finished (es : list Lock.Step) (st : Lock.LockState)
  (i j : nat) (ci cj : Lock.Call) :
  Lock.run es Lock.initial = Some st ->
  Lock.calls st !! i = Some ci -> Lock.phase ci = Lock.Running ->
  Lock.calls st !! j = Some cj -> Lock.lockName cj = Lock.lockName ci ->
  (j < i)%nat ->
  exists threw, Lock.phase cj = Lock.Finished threw.
Proof.
  intros Hrun Hi Hp Hj Hn Hlt.
  pose proof (run_inv es _ _ initial_inv Hrun) as HI.
  destruct (running_is_head st HI _ _ Hi Hp) as (rest & Eq).
  apply (inv_settled st HI _ _ Hj). rewrite Hn, Eq. intros Hin.
  apply elem_of_cons in Hin as [->|Hin]; [lia|].
  pose proof (inv_queue st HI (Lock.lockName ci)) as Hq.
  unfold queue_ok in Hq. rewrite Eq in Hq. destruct Hq as [_ Hc].
  pose proof (chain_lt _ _ _ _ Hc _ Hin). lia.
Qed.

Lemma earlier_calls_have_finished_witness :
  exists threw,
    Lock.phase {| Lock.lockName := "python-request"; Lock.predecessorLock := None;
                  Lock.phase := Lock.Finished true; Lock.resolved := true |}
    = Lock.Finished threw.
Proof.
  apply (earlier_calls_have_finished lock_events lock_state 1 0
           {| Lock.lockName := "python-request"; Lock.predecessorLock := Some 0%nat;
              Lock.phase := Lock.Running; Lock.resolved := false |}).
  - vm_compute. reflexivity.
  - vm_compute. reflexivity.
  - reflexivity.
  - vm_compute. reflexivity.
  - reflexivity.
  - lia.
Defined.

(** X17. No signal is lost: in a reachable state, the call at the front
    of a queue either has its task in progress or can go on at once,
    because its predecessor has unlocked. *)
Theorem front_call_can_proceed (es : list Lock.Step) (st : Lock.LockState)
  (name : string) (i : nat) (rest : list nat) :
  Lock.run es Lock.initial = Some st ->
  Lock.queue st name = i :: rest ->
  Lock.in_progress st i
  \/ exists st', Lock.doWithLock_resume i st = Some st' /\ Lock.in_progress st' i.
Proof.
  intros Hrun Eq.
  pose proof (run_inv es _ _ initial_inv Hrun) as HI.
  pose proof (inv_queue st HI name) as Hq. unfold queue_ok in Hq. rewrite Eq in Hq.
  destruct Hq as [(c & Hc & _ & _ & [Hp|(Hp & p & Hpred & Hres)]) _].
  - left. exists c. split; assumption.
  - right. eexists. split.
    + unfold Lock.doWithLock_resume. rewrite Hc, Hp, Hpred, Hres. reflexivity.
    + eexists. cbn [Lock.calls]. split.
      * apply list_lookup_insert_eq. eapply lookup_lt_Some, Hc.
      * reflexivity.
Qed.

Lemma front_call_can_proceed_witness :
  Lock.in_progress lock_state 1
  \/ exists st', Lock.doWithLock_resume 1 lock_state = Some st'
                 /\ Lock.in_progress st' 1.
Proof.
  apply (front_call_can_proceed lock_events lock_state "python-request" 1 [3%nat]).
  - vm_compute. reflexivity.
  - vm_compute. reflexivity.
Defined.

(** X18. In a reachable state the array of a lock name holds exactly the
    calls under the name that are not through their [finally] block, in
    the order the calls were made; and the lock of a call is resolved
    exactly when the call is through its [finally] block. *)
Theorem queue_holds_the_unfinished_calls (es : list Lock.Step)
  (st : Lock.LockState) :
  Lock.run es Lock.initial = Some st ->
  (forall name i,
      i ∈ Lock.queue st name <->
      exists c, Lock.calls st !! i = Some c /\ Lock.lockName c = name
                /\ forall threw, Lock.phase c <> Lock.Finished threw)
  /\ (forall name, StronglySorted lt (Lock.queue st name))
  /\ (forall i c, Lock.calls st !! i = Some c ->
                  (Lock.resolved c = true <-> exists threw, Lock.phase c = Lock.Finished threw)).
Proof.
  intros Hrun.
  pose proof (run_inv es _ _ initial_inv Hrun) as HI.
  split; [|split].
  - intros name i. split.
    + intros Hin. destruct (in_queue st HI _ _ Hin) as (c & Hc & Hn & _ & Hp).
      exists c. repeat split; assumption.
    + intros (c & Hc & <- & Hp). now apply (unfinished_in_queue st HI).
  - intros name. pose proof (inv_queue st HI name) as Hq. unfold queue_ok in Hq.
    destruct (Lock.queue st name) as [|i rest]; [constructor|].
    destruct Hq as [_ Hc]. eapply queue_sorted, Hc.
  - intros i c Hc.
    destruct (decide (i ∈ Lock.queue st (Lock.lockName c))) as [Hin|Hout].
    + destruct (in_queue st HI _ _ Hin) as (c' & Hc' & _ & Hr & Hp).
      rewrite Hc in Hc'. injection Hc' as <-.
      split; [congruence | intros [b Hb]; now apply Hp in Hb].
    + destruct (inv_settled st HI _ _ Hc Hout) as [Hf Hr]. split; auto.
Qed.

Lemma queue_holds_the_unfinished_calls_witness :
  (forall name i,
      i ∈ Lock.queue lock_state name <->
      exists c, Lock.calls lock_state !! i = Some c /\ Lock.lockName c = name
                /\ forall threw, Lock.phase c <> Lock.Finished threw)
  /\ (forall name, StronglySorted lt (Lock.queue lock_state name))
  /\ (forall i c, Lock.calls lock_state !! i = Some c ->
                  (Lock.resolved c = true
                   <-> exists threw, Lock.phase c = Lock.Finished threw)).
Proof.
  apply (queue_holds_the_unfinished_calls lock_events lock_state).
  vm_compute. reflexivity.
Defined.
